(** * DQ sentinel: the check library and the blocking decision

    A shallow embedding of [src/checks.py] and [src/dq_sentinel.py].

    Conventions of the embedding.
    - A pandas [DataFrame] is an object on a heap: the check functions receive
      a reference, [df.copy()] and [df.sort_values(..)] allocate a new object,
      [df[c] = ..] mutates the object the reference points to.
    - Numeric cells are exact rationals ([Q]); the rounding of binary floating
      point is not modelled.  [None] in a numeric position is pandas' NaN.
    - Timestamps are instants in nanoseconds since the epoch, [None] is NaT.
      Whether a column of timestamps is tz-aware is kept with the table,
      as pandas keeps it in the dtype of the column.
    - A cell of a coerced column is stored as what [pd.to_numeric] and
      [pd.to_datetime] (with [errors="coerce"]) read from it, so that these
      coercions are the identity on the stored value.  What [pd.to_datetime]
      reads is a fact about the texts of the whole column: the instants, and
      the UTC offset of the texts, if they have one; it refuses a column
      whose texts have different offsets.
    - The labels of a table are distinct, as [pd.read_csv] makes them;
      stripping them is the one operation here that can make two of them
      equal.
    - The square root used by the standard deviation and by the
      autocorrelation is a parameter of the development. *)

From Stdlib Require Import QArith Qround Qabs Ascii.
From stdpp Require Import base list strings sorting pretty.

(** ** Numbers *)

Definition Qltb (a b : Q) : bool := negb (Qle_bool b a).

(** A Python/NumPy float: [None] is NaN.  Every comparison with NaN is
    false. *)
Definition float := option Q.

Definition float_lt (a b : float) : bool :=
  match a, b with
  | Some x, Some y => Qltb x y
  | _, _ => false
  end.

Definition float_gt (a b : float) : bool := float_lt b a.

Definition float_eq (a b : float) : bool :=
  match a, b with
  | Some x, Some y => Qeq_bool x y
  | _, _ => false
  end.

Definition Qsum (xs : list Q) : Q := foldr Qplus 0%Q xs.

Definition Qlen (xs : list Q) : Q := inject_Z (Z.of_nat (length xs)).

(** [Series.mean()]: NaN on an empty series. *)
Definition mean (xs : list Q) : float :=
  match xs with
  | [] => None
  | _ => Some (Qsum xs / Qlen xs)%Q
  end.

(** Stable insertion sort, the order given by a boolean [le]. *)
Fixpoint insert_by {A} (le : A → A → bool) (x : A) (l : list A) : list A :=
  match l with
  | [] => [x]
  | y :: l' => if le x y then x :: y :: l' else y :: insert_by le x l'
  end.

Fixpoint sort_by {A} (le : A → A → bool) (l : list A) : list A :=
  match l with
  | [] => []
  | x :: l' => insert_by le x (sort_by le l')
  end.

(** [Series.median()] of the non-null values: the middle value of the sorted
    values, the mean of the two middle values when their number is even, NaN
    when there is none. *)
Definition median (xs : list Q) : float :=
  let s := sort_by Qle_bool xs in
  let n := length s in
  match n with
  | O => None
  | _ =>
    if Nat.odd n then s !! (n / 2)%nat
    else
      match s !! (n / 2 - 1)%nat, s !! (n / 2)%nat with
      | Some a, Some b => Some ((a + b) / 2)%Q
      | _, _ => None
      end
  end.

(** [x % 1 == 0] *)
Definition is_integer_valued (x : Q) : bool :=
  Qeq_bool x (inject_Z (Qfloor x)).

(** [dropna()] *)
Definition dropna {A} (xs : list (option A)) : list A := omap id xs.

(** ** The record table *)

(** A [load_ts] cell: its text, and the instant [pd.to_datetime] reads from
    that text (NaT when it reads none). *)
Record stamp := Stamp { stamp_text : string; stamp_instant : option Z }.

Record Row := mkRow {
  week_start : option Z;
  sku_id : option string;
  store_id : option string;
  units : option Q;
  price : option Q;
  load_ts : option stamp;
  load_ts_parsed : option Z;
  delta_days : option Z;
}.

(** The time zone of a column of timestamps: none ([datetime64[ns]]), a
    fixed UTC offset in minutes ([datetime64[ns, tz]]; the texts all carry
    this offset, [Z] being the offset 0), or texts with different offsets,
    which [pd.to_datetime] refuses to read as one column. *)
Inductive zone :=
  | Naive
  | Aware (minutes : Z)
  | Mixed.

(** The zones of the three columns of timestamps. *)
Record zones := mkZones {
  week_start_tz : zone;
  load_ts_tz : zone;
  load_ts_parsed_tz : zone;
}.

Definition naive : zones := mkZones Naive Naive Naive.

(** A table: the column labels it has, its rows, and the zones of its
    columns of timestamps.  A field of a row whose column label is absent
    is never read: the access raises [KeyError] first.  Columns other than
    the ones of [Row] are present by their label only. *)
Record DataFrame := mkDF {
  columns : list string;
  rows : list Row;
  tz : zones;
}.

Definition has_col (df : DataFrame) (c : string) : bool :=
  bool_decide (c ∈ columns df).

(** ** Diagnostic records

    One record type per check, the fields named as the keys of the Python
    dict.  A field of type [option _] is [None] when the dict has no such key
    (or holds Python's [None]): this is what [dict.get] returns. *)

(** The text of a hint, kept as its template and the values formatted into
    it. *)
Inductive hint :=
  | NoHint
  | HintSchemaChanged (missing extra : list string)
  | HintMedians
  | HintIntegerLike
  | HintBackfill (pct_backfilled : Q) (threshold_days : Z)
  | HintTz (tz_variants : option (list string)) (dup_pk : bool)
  | HintPromoOverlap (weeks : list Z)
  | HintCalendarOverlap (weeks : list Z)
  | HintNoMatch.

Module Schema.
Record t := mk {
  missing_columns : list string;
  extra_columns : list string;
  schema_ok : bool;
}.
End Schema.

Module SchemaVersioning.
Record t := mk {
  status : string;
  schema_changed : bool;
  missing : list string;
  extra : list string;
  hint : hint;
}.
End SchemaVersioning.

Module Duplicates.
Record t := mk {
  status : string;
  pk : list string;
  duplicate_count : option nat;
  sample : list Row;
}.
End Duplicates.

Module Continuity.
Record example := mkExample {
  sku_id : string;
  store_id : string;
  bad_diffs_sample : list Z;
}.
Record t := mk {
  status : string;
  groups_total : option nat;
  groups_with_gaps : option nat;
  gap_examples : option (list example);
}.
End Continuity.

Module LevelShift.
Record example := mkExample {
  sku_id : string;
  store_id : string;
  z_score : Q;
  first_mean : Q;
  last_mean : Q;
}.
Record t := mk {
  status : string;
  groups_tested : option nat;
  groups_with_level_shift : option nat;
  examples : option (list example);
}.
End LevelShift.

Module Mixup.
Record t := mk {
  status : string;
  price_median : option float;
  units_median : option float;
  ratio_units_to_price : option float;
  suspected_unit_price_mixup : option bool;
  hint : option hint;
}.
End Mixup.

Module Backfill.
Record t := mk {
  status : string;
  count_checked : option nat;
  count_backfilled : option nat;
  pct_backfilled : option Q;
  hint : option hint;
}.
End Backfill.

Module TzShift.
Record t := mk {
  status : string;
  tz_variants : option (list string);
  duplicate_pk_count : option nat;
  suspicious : option bool;
  hint : option hint;
}.
End TzShift.

Module Seasonality.
Record t := mk {
  status : string;
  n_weeks : option nat;
  acf_lag1 : option float;
  acf_lag52 : option float;
}.
End Seasonality.

Module PromoCalendar.
Record t := mk {
  status : string;
  n_big_changes : option nat;
  big_change_weeks : option (list Z);
  hints : list hint;
}.
End PromoCalendar.

(** A blocking reason: its tag, and the value formatted after the colon. *)
Inductive reason :=
  | ReadError
  | MissingSchemaColumns
  | DuplicatesReason (n : nat)
  | PartialBackfillPct (pct_rounded : Q)
  | UnitPriceMixupSuspected
  | LevelShiftGroups (n : nat)
  | TimezoneAnomalyOrDupPk.

Definition reason_tag (r : reason) : string :=
  match r with
  | ReadError => "read_error"
  | MissingSchemaColumns => "missing_schema_columns"
  | DuplicatesReason _ => "duplicates"
  | PartialBackfillPct _ => "partial_backfill_pct"
  | UnitPriceMixupSuspected => "unit_price_mixup_suspected"
  | LevelShiftGroups _ => "level_shift_groups"
  | TimezoneAnomalyOrDupPk => "timezone_anomaly_or_dup_pk"
  end.

(** The text of a reason; the rounded percentage is a float, whose decimal
    rendering is kept as the rational. *)
Definition reason_text (r : reason) : string + (string * Q) :=
  match r with
  | DuplicatesReason n => inl ("duplicates:" +:+ pretty n)
  | LevelShiftGroups n => inl ("level_shift_groups:" +:+ pretty n)
  | PartialBackfillPct q => inr ("partial_backfill_pct:", q)
  | _ => inl (reason_tag r)
  end.

Module Report.
Record t := mk {
  file : string;
  analyzed_at : string;
  error : option string;
  schema : option Schema.t;
  schema_versioning : option SchemaVersioning.t;
  duplicates : option Duplicates.t;
  continuity : option Continuity.t;
  level_shift : option LevelShift.t;
  unit_price_mixup : option Mixup.t;
  partial_backfill : option Backfill.t;
  tz_shift : option TzShift.t;
  seasonality : option Seasonality.t;
  promo_calendar : option PromoCalendar.t;
  blocking : string;
  blocking_reasons : list reason;
}.
End Report.

Module SummaryRow.
Record t := mk {
  file : string;
  blocking : string;
  blocking_reasons : list reason;
  duplicate_count : option nat;
  pct_backfilled : option Q;
  suspected_unit_price_mixup : option bool;
  level_shift_groups : option nat;
}.
End SummaryRow.

(** ** The store and the monad of effects *)

Inductive artifact :=
  | JsonReport (path : string) (r : Report.t)
  | SummaryCsv (path : string) (summary : list SummaryRow.t).

(** The objects allocated so far, and the files written so far. *)
Record world := mkWorld {
  heap : list DataFrame;
  written : list artifact;
}.

Definition ref := nat.

Inductive exn :=
  | KeyError (label : string)
  | TypeError
  | ValueError
  | NotImplementedError
  | SystemExit (code : Z)
  | Dangling (r : ref).

Inductive result (A : Type) :=
  | Ok (a : A)
  | Raise (e : exn).
Arguments Ok {A} a.
Arguments Raise {A} e.

Definition M (A : Type) : Type := world → result A * world.

#[global] Instance M_ret : MRet M := λ A a w, (Ok a, w).

#[global] Instance M_bind : MBind M := λ A B f m w,
  match m w with
  | (Ok a, w') => f a w'
  | (Raise e, w') => (Raise e, w')
  end.

Definition raise {A} (e : exn) : M A := λ w, (Raise e, w).

Definition lift {A} (x : result A) : M A := λ w, (x, w).

(** Reading the object behind a reference. *)
Definition deref (r : ref) : M DataFrame := λ w,
  match heap w !! r with
  | Some df => (Ok df, w)
  | None => (Raise (Dangling r), w)
  end.

(** A new object. *)
Definition alloc (df : DataFrame) : M ref := λ w,
  (Ok (length (heap w)), mkWorld (heap w ++ [df]) (written w)).

(** Mutation in place of the object behind a reference. *)
Definition store (r : ref) (df : DataFrame) : M unit := λ w,
  (Ok (), mkWorld (<[r := df]> (heap w)) (written w)).

Definition write_file (a : artifact) : M unit := λ w,
  (Ok (), mkWorld (heap w) (written w ++ [a])).

(** [df.copy()] *)
Definition copy (r : ref) : M ref := df ← deref r; alloc df.

(** ** pandas operations on table values *)

(** [df[label]]: the values of a column, [KeyError] when the label is
    absent. *)
Definition getitem {A} (label : string) (proj : Row → A) (df : DataFrame)
  : result (list A) :=
  if has_col df label then Ok (proj <$> rows df) else Raise (KeyError label).

(** The first label of [labels] that the table lacks. *)
Definition first_missing (df : DataFrame) (labels : list string) : option string :=
  head (filter (λ c, c ∉ columns df) labels).

(** [Series.unique()]: the distinct values, in order of first appearance. *)
Fixpoint unique `{EqDecision A} (l : list A) : list A :=
  match l with
  | [] => []
  | x :: l' => x :: filter (λ y, y ≠ x) (unique l')
  end.

(** The primary key of a row. *)
Definition pk_of (r : Row) : option Z * option string * option string :=
  (week_start r, sku_id r, store_id r).

(** [duplicated(keep=False)] over a list of keys: an entry is marked when
    the same key occurs at another position, before or after it.  Null
    values are equal to each other here, as in pandas. *)
Fixpoint duplicated_from `{EqDecision K} (before l : list K) : list bool :=
  match l with
  | [] => []
  | k :: rest =>
    (bool_decide (k ∈ before) || bool_decide (k ∈ rest))
      :: duplicated_from (k :: before) rest
  end.

Definition duplicated `{EqDecision K} (l : list K) : list bool :=
  duplicated_from [] l.

(** [mask.sum()] *)
Definition mask_sum (mask : list bool) : nat := length (filter (λ b, b = true) mask).

(** [df[mask]]: boolean indexing. *)
Fixpoint select {A} (l : list A) (mask : list bool) : list A :=
  match l, mask with
  | x :: l', b :: mask' => if b then x :: select l' mask' else select l' mask'
  | _, _ => []
  end.

(** Order of the sort keys: nulls last ([na_position="last"]). *)
Definition opt_leb {A} (le : A → A → bool) (a b : option A) : bool :=
  match a, b with
  | Some x, Some y => le x y
  | Some _, None => true
  | None, Some _ => false
  | None, None => true
  end.

Definition sort_key : Type := option string * option string * option Z.

Definition sort_key_of (r : Row) : sort_key := (sku_id r, store_id r, week_start r).

(** Lexicographic order on [(sku_id, store_id, week_start)]. *)
Definition sort_key_leb (a b : sort_key) : bool :=
  let '(s1, t1, w1) := a in
  let '(s2, t2, w2) := b in
  if bool_decide (s1 = s2) then
    if bool_decide (t1 = t2) then opt_leb Z.leb w1 w2
    else opt_leb String.leb t1 t2
  else opt_leb String.leb s1 s2.

(** [df.sort_values(["sku_id", "store_id", "week_start"])] on a table value:
    a stable sort of the rows, [KeyError] on the first absent label. *)
Definition sort_values_rows (df : DataFrame) : result DataFrame :=
  match first_missing df ["sku_id"; "store_id"; "week_start"] with
  | Some c => Raise (KeyError c)
  | None =>
    Ok (mkDF (columns df)
             (sort_by (λ a b, sort_key_leb (sort_key_of a) (sort_key_of b)) (rows df))
             (tz df))
  end.

Definition group_key (r : Row) : option (string * string) :=
  match sku_id r, store_id r with
  | Some a, Some b => Some (a, b)
  | _, _ => None
  end.

Definition group_key_leb (a b : string * string) : bool :=
  if bool_decide (a.1 = b.1) then String.leb a.2 b.2 else String.leb a.1 b.1.

(** [df.groupby(["sku_id", "store_id"])], iterated: the groups in the order
    of their keys ([sort=True]), rows with a null key left out
    ([dropna=True]), the rows of a group in the order of the table;
    [KeyError] on the first absent label. *)
Definition groupby_sku_store (df : DataFrame)
  : result (list ((string * string) * list Row)) :=
  match first_missing df ["sku_id"; "store_id"] with
  | Some c => Raise (KeyError c)
  | None =>
    let keys := sort_by group_key_leb (unique (omap group_key (rows df))) in
    Ok ((λ k, (k, filter (λ r, group_key r = Some k) (rows df))) <$> keys)
  end.

(** [df.groupby("week_start")["units"].sum().sort_index()]: per non-null
    week, in increasing order, the sum of its non-null units. *)
Definition weekly_units (rs : list Row) : list (Z * Q) :=
  let weeks := sort_by Z.leb (unique (omap week_start rs)) in
  (λ w, (w, Qsum (omap units (filter (λ r, week_start r = Some w) rs)))) <$> weeks.

Definition NS_PER_DAY : Z := 86400000000000.

(** [.dt.days] of a time difference: whole days, rounded down. *)
Definition days (delta_ns : Z) : Z := (delta_ns `div` NS_PER_DAY)%Z.

(** [Series.diff()] without its leading null. *)
Fixpoint diff (l : list Z) : list Z :=
  match l with
  | a :: (b :: _) as t => (b - a)%Z :: diff t
  | _ => []
  end.

(** [df[label]] is a table, not a column, when the label occurs more
    than once. *)
Definition repeated_label (df : DataFrame) (label : string) : bool :=
  bool_decide (2 ≤ length (filter (λ c, c = label) (columns df)))%nat.

(** Two columns of timestamps can be subtracted when both are tz-aware or
    both without time zone. *)
Definition same_awareness (a b : zone) : bool :=
  match a, b with
  | Naive, Naive => true
  | Aware _, Aware _ => true
  | _, _ => false
  end.

(** [pd.to_datetime(df[label], errors="coerce")] raises [ValueError] on a
    table ([df[label]] with a repeated label) and on texts with different
    UTC offsets. *)
Definition is_mixed (z : zone) : bool :=
  match z with
  | Mixed => true
  | _ => false
  end.

Definition to_datetime_refuses (df : DataFrame) (label : string) (z : zone) : bool :=
  repeated_label df label || is_mixed z.

(** ** The checks *)

Definition expected_schema_v1 : list string :=
  ["week_start"; "sku_id"; "store_id"; "units"; "price";
   "inventory_on_hand"; "currency"; "load_ts"; "source_file"].

Definition check_schema (r : ref) (expected : option (list string)) : M Schema.t :=
  let expected := default expected_schema_v1 expected in
  df ← deref r;
  let cols := columns df in
  let missing := filter (λ c, c ∉ cols) expected in
  let extra := filter (λ c, c ∉ expected) cols in
  mret (Schema.mk missing extra (bool_decide (length missing = 0%nat))).

(** [pk] is left at its default, [["week_start", "sku_id", "store_id"]]:
    no caller passes another. *)
Definition check_duplicates (r : ref) : M Duplicates.t :=
  let pk := ["week_start"; "sku_id"; "store_id"] in
  df ← deref r;
  match first_missing df pk with
  | Some _ => mret (Duplicates.mk "pk_column_missing" pk None [])
  | None =>
    let dup_mask := duplicated (pk_of <$> rows df) in
    let dup_count := mask_sum dup_mask in
    let sample := take 10 (select (rows df) dup_mask) in
    mret (Duplicates.mk "ok" pk (Some dup_count) sample)
  end.

(** The loop body of [check_date_continuity], on the counters
    [(groups_total, groups_with_gaps, gap_examples)]. *)
Definition continuity_step (freq_days allowed_gaps : Z)
    (acc : nat * nat * list Continuity.example)
    (g : (string * string) * list Row) : nat * nat * list Continuity.example :=
  let '(groups_total, groups_with_gaps, gap_examples) := acc in
  let '((sku, store), sub) := g in
  let groups_total := S groups_total in
  let weeks := unique (sort_by Z.leb (dropna (week_start <$> sub))) in
  if (length weeks <? 2)%nat then (groups_total, groups_with_gaps, gap_examples)
  else
    let diffs_days := days <$> diff weeks in
    let bad_count :=
      length (filter (λ d, d ≠ freq_days ∧ d ≠ 0%Z) diffs_days) in
    if (allowed_gaps <? Z.of_nat bad_count)%Z then
      (groups_total, S groups_with_gaps,
       gap_examples ++ [Continuity.mkExample sku store (take 5 diffs_days)])
    else (groups_total, groups_with_gaps, gap_examples).

Definition check_date_continuity (r : ref) (freq_days allowed_gaps : Z)
  : M Continuity.t :=
  df ← deref r;
  if negb (has_col df "week_start") then
    mret (Continuity.mk "no_week_start_column" None None None)
  else
    g ← lift (groupby_sku_store df);
    let '(groups_total, groups_with_gaps, gap_examples) :=
      foldl (continuity_step freq_days allowed_gaps) (0%nat, 0%nat, []) g in
    mret (Continuity.mk "ok" (Some groups_total) (Some groups_with_gaps)
            (Some (take 10 gap_examples))).

(** [df[label] = values]: mutation of the object, the label added when it
    is new. *)
Definition setitem {A} (r : ref) (label : string) (upd : Row → A → Row)
    (values : list A) : M unit :=
  df ← deref r;
  store r (mkDF (if has_col df label then columns df else columns df ++ [label])
                (zip_with upd (rows df) values) (tz df)).

Definition set_week_start (x : Row) (v : option Z) : Row :=
  mkRow v (sku_id x) (store_id x) (units x) (price x) (load_ts x)
        (load_ts_parsed x) (delta_days x).

Definition set_units (x : Row) (v : option Q) : Row :=
  mkRow (week_start x) (sku_id x) (store_id x) v (price x) (load_ts x)
        (load_ts_parsed x) (delta_days x).

Definition set_price (x : Row) (v : option Q) : Row :=
  mkRow (week_start x) (sku_id x) (store_id x) (units x) v (load_ts x)
        (load_ts_parsed x) (delta_days x).

Definition set_load_ts_parsed (x : Row) (v : option Z) : Row :=
  mkRow (week_start x) (sku_id x) (store_id x) (units x) (price x) (load_ts x)
        v (delta_days x).

Definition set_delta_days (x : Row) (v : option Z) : Row :=
  mkRow (week_start x) (sku_id x) (store_id x) (units x) (price x) (load_ts x)
        (load_ts_parsed x) v.

(** [s.iloc[-n:]] *)
Definition last_n {A} (n : nat) (l : list A) : list A :=
  match n with
  | O => l
  | _ => drop (length l - n) l
  end.

Definition float_div (a b : float) : float :=
  match a, b with
  | Some x, Some y => if Qeq_bool y 0 then None else Some (x / y)%Q
  | _, _ => None
  end.

Section Numerics.

(** The square root of the numeric library. *)
Variable sqrtQ : Q → Q.

(** [Series.std(ddof=1)]: NaN with fewer than two values. *)
Definition std (xs : list Q) : float :=
  match mean xs with
  | Some m =>
    if (length xs <? 2)%nat then None
    else Some (sqrtQ (Qsum ((λ x, (x - m) * (x - m)) <$> xs) / (Qlen xs - 1)))%Q
  | None => None
  end.

(** The loop body of [detect_level_shift], on the counters
    [(groups_tested, groups_with_shift, examples)]. *)
Definition level_shift_step (window : nat) (z_threshold : Q)
    (acc : nat * nat * list LevelShift.example)
    (g : (string * string) * list Row) : nat * nat * list LevelShift.example :=
  let '(groups_tested, groups_with_shift, examples) := acc in
  let '((sku, store), sub) := g in
  let units := dropna (units <$> sub) in
  if (length units <? window * 2)%nat then acc
  else
    let groups_tested := S groups_tested in
    let first_mean := mean (take window units) in
    let last_mean := mean (last_n window units) in
    match std units with
    | None => (groups_tested, groups_with_shift, examples)
    | Some pooled_std =>
      if Qeq_bool pooled_std 0 then (groups_tested, groups_with_shift, examples)
      else
        match first_mean, last_mean with
        | Some fm, Some lm =>
          let z := (Qabs (lm - fm) / pooled_std)%Q in
          if Qle_bool z_threshold z then
            (groups_tested, S groups_with_shift,
             examples ++ [LevelShift.mkExample sku store z fm lm])
          else (groups_tested, groups_with_shift, examples)
        | _, _ => (groups_tested, groups_with_shift, examples)
        end
    end.

(** [df.sort_values(..)]: a new object. *)
Definition sort_values (r : ref) : M ref :=
  df ← deref r;
  sorted ← lift (sort_values_rows df);
  alloc sorted.

Definition detect_level_shift (r : ref) (window : nat) (z_threshold : Q)
  : M LevelShift.t :=
  df ← deref r;
  if negb (has_col df "units") || negb (has_col df "week_start") then
    mret (LevelShift.mk "columns_missing" None None None)
  else
    r ← copy r;
    r ← sort_values r;
    df ← deref r;
    groups ← lift (groupby_sku_store df);
    let '(groups_tested, groups_with_shift, examples) :=
      foldl (level_shift_step window z_threshold) (0%nat, 0%nat, []) groups in
    mret (LevelShift.mk "ok" (Some groups_tested) (Some groups_with_shift)
            (Some (take 10 examples))).

End Numerics.

Definition detect_unit_price_mixup (r : ref) : M Mixup.t :=
  df ← deref r;
  if negb (has_col df "price") || negb (has_col df "units") then
    mret (Mixup.mk "columns_missing" None None None None None)
  else
    let price_median := median (dropna (price <$> rows df)) in
    let units_median := median (dropna (units <$> rows df)) in
    let ratio :=
      if float_eq price_median (Some 0%Q) then None
      else Some (float_div units_median price_median) in
    let '(suspected, hint) :=
      if float_lt price_median (Some (3 # 2)) && float_gt units_median (Some 10%Q)
      then (true, HintMedians) else (false, NoHint) in
    let '(suspected, hint) :=
      if negb suspected then
        let price_mode := dropna (price <$> rows df) in
        if (0 <? length price_mode)%nat then
          if Qltb (9 # 10)
               (inject_Z (Z.of_nat (length (filter (λ x, is_integer_valued x = true) price_mode)))
                / Qlen price_mode)
             && float_gt (median price_mode) (Some 5%Q)
             && float_lt (median (dropna (units <$> rows df))) (Some 2%Q)
          then (true, HintIntegerLike) else (suspected, hint)
        else (suspected, hint)
      else (suspected, hint) in
    mret (Mixup.mk "ok" (Some price_median) (Some units_median) ratio
            (Some suspected) (Some hint)).

Definition detect_partial_backfill (r : ref) (threshold_days : Z) : M Backfill.t :=
  df ← deref r;
  if negb (has_col df "week_start") || negb (has_col df "load_ts_parsed") then
    mret (Backfill.mk "columns_missing" None None None None)
  else
    r ← copy r;
    df ← deref r;
    if negb (same_awareness (load_ts_parsed_tz (tz df)) (week_start_tz (tz df)))
    then raise TypeError
    else
      setitem r "delta_days" set_delta_days
        ((λ x, match load_ts_parsed x, week_start x with
               | Some a, Some b => Some (days (a - b))
               | _, _ => None
               end) <$> rows df);;
      df ← deref r;
      let valid := dropna (delta_days <$> rows df) in
      if bool_decide (length valid = 0%nat) then
        mret (Backfill.mk "no_load_ts_parsed" None None None None)
      else
        let backfilled_count := length (filter (λ d, (threshold_days < d)%Z) valid) in
        let pct_backfilled :=
          (inject_Z (Z.of_nat backfilled_count) / inject_Z (Z.of_nat (length valid)))%Q in
        let hint :=
          if Qltb (5 # 100) pct_backfilled
          then HintBackfill pct_backfilled threshold_days else NoHint in
        mret (Backfill.mk "ok" (Some (length valid)) (Some backfilled_count)
                (Some pct_backfilled) (Some hint)).

Definition is_digit (c : ascii) : bool :=
  let n := nat_of_ascii c in (48 <=? n)%nat && (n <=? 57)%nat.

Definition is_sign (c : ascii) : bool :=
  bool_decide (c = "+"%char) || bool_decide (c = "-"%char).

(** A match of [[+-]\d{2}:?\d{2}] at the start of the text. *)
Definition match_offset (s : string) : option string :=
  match s with
  | String sg (String d1 (String d2 rest)) =>
    if is_sign sg && is_digit d1 && is_digit d2 then
      match rest with
      | String ":" (String d3 (String d4 _)) =>
        if is_digit d3 && is_digit d4
        then Some (String sg (String d1 (String d2 (String ":" (String d3 (String d4 ""))))))
        else None
      | String d3 (String d4 _) =>
        if is_digit d3 && is_digit d4
        then Some (String sg (String d1 (String d2 (String d3 (String d4 "")))))
        else None
      | _ => None
      end
    else None
  | _ => None
  end.

(** The first match of [([+-]\d{2}:?\d{2}|Z)] in the text, searched from
    the left. *)
Fixpoint tz_search (s : string) : option string :=
  match match_offset s with
  | Some m => Some m
  | None =>
    match s with
    | String c rest => if bool_decide (c = "Z"%char) then Some "Z" else tz_search rest
    | EmptyString => None
    end
  end.

(** [astype(str)] of a [load_ts] cell. *)
Definition load_ts_str (c : option stamp) : string :=
  match c with
  | Some st => stamp_text st
  | None => "nan"
  end.

Definition detect_timezone_shift (r : ref) : M TzShift.t :=
  df ← deref r;
  if negb (has_col df "load_ts") then
    mret (TzShift.mk "no_load_ts_column" None None None None)
  else
    let tz_series := unique (omap (λ x, tz_search (load_ts_str (load_ts x))) (rows df)) in
    let tz_variants := tz_series in
    let dup_pk :=
      match first_missing df ["week_start"; "sku_id"; "store_id"] with
      | None => mask_sum (duplicated (pk_of <$> rows df))
      | Some _ => 0%nat
      end in
    let suspicious := (1 <? length tz_variants)%nat || (0 <? dup_pk)%nat in
    let hint :=
      if suspicious then
        HintTz (if (1 <? length tz_variants)%nat then Some tz_variants else None)
               (0 <? dup_pk)%nat
      else NoHint in
    mret (TzShift.mk "ok" (Some tz_variants) (Some dup_pk) (Some suspicious) (Some hint)).

Definition detect_schema_versioning (r : ref) (expected : option (list string))
  : M SchemaVersioning.t :=
  let expected := default expected_schema_v1 expected in
  df ← deref r;
  let missing := filter (λ c, c ∉ columns df) expected in
  let extra := filter (λ c, c ∉ expected) (columns df) in
  let changed := (0 <? length missing)%nat || (0 <? length extra)%nat in
  let hint := if changed then HintSchemaChanged missing extra else NoHint in
  mret (SchemaVersioning.mk "ok" changed missing extra hint).

Section Correlation.

Variable sqrtQ : Q → Q.

(** The Pearson correlation of two series of one length, as
    [numpy.corrcoef] computes it: the covariance divided by each standard
    deviation in turn, clipped to [-1, 1]; NaN when it is undefined. *)
Definition corr (a b : list Q) : float :=
  match mean a, mean b with
  | Some ma, Some mb =>
    if (length a <? 2)%nat then None
    else
      let n1 := (Qlen a - 1)%Q in
      let cov := (Qsum (zip_with (λ x y, (x - ma) * (y - mb)) a b) / n1)%Q in
      let sa := sqrtQ (Qsum ((λ x, (x - ma) * (x - ma)) <$> a) / n1)%Q in
      let sb := sqrtQ (Qsum ((λ y, (y - mb) * (y - mb)) <$> b) / n1)%Q in
      if Qeq_bool sa 0 || Qeq_bool sb 0 then None
      else
        let c := (cov / sa / sb)%Q in
        Some (if Qltb c (-1) then (-1)%Q else if Qltb 1 c then 1%Q else c)
  | _, _ => None
  end.

(** [Series.autocorr(lag)]: the correlation of the series with itself
    shifted by [lag]. *)
Definition autocorr (lag : nat) (xs : list Q) : float :=
  corr (drop lag xs) (take (length xs - lag) xs).

Definition detect_seasonality_break (r : ref) : M Seasonality.t :=
  df ← deref r;
  if negb (has_col df "week_start") || negb (has_col df "units") then
    mret (Seasonality.mk "missing_columns" None None None)
  else
    let agg := weekly_units (rows df) in
    let n := length agg in
    if (n <? 24)%nat then
      mret (Seasonality.mk "not_enough_history" (Some n) None None)
    else
      let acf1 := if (1 <? n)%nat then Some (autocorr 1 (agg.*2)) else None in
      let acf52 := if (52 <? n)%nat then Some (autocorr 52 (agg.*2)) else None in
      mret (Seasonality.mk "ok" (Some n) acf1 acf52).

End Correlation.

(** [pct_change().abs().fillna(0) > 0.5] at one week, from the previous
    value and the current one: a division by zero gives an infinite change,
    except 0/0, which is null and filled with 0. *)
Definition big_change (prev cur : Q) : bool :=
  if Qeq_bool prev 0 then negb (Qeq_bool cur 0)
  else Qltb (1 # 2) (Qabs (cur / prev - 1)).

(** The weeks of the aggregated series whose change is big; the first week
    has no previous value. *)
Fixpoint big_changes (agg : list (Z * Q)) : list Z :=
  match agg with
  | (_, prev) :: ((w, cur) :: _) as t =>
    if big_change prev cur then w :: big_changes t else big_changes t
  | _ => []
  end.

(** The UTC offset of the timestamps of a column, in nanoseconds. *)
Definition utc_offset (z : zone) : Z :=
  match z with
  | Aware minutes => (minutes * 60000000000)%Z
  | _ => 0%Z
  end.

(** [.date()] of a timestamp of a column in the zone [z]: the day of its
    wall-clock time, as a day number. *)
Definition date (z : zone) (t : Z) : Z := ((t + utc_offset z) `div` NS_PER_DAY)%Z.

(** The side table part of [promo_calendar_diagnostics]: the side table is
    copied, its [week_start] coerced in the copy, and the big-change weeks
    that fall on one of its dates are returned.  [z] is the zone of the
    weeks of the main table. *)
Definition side_overlaps (z : zone) (side : ref) (big : list Z) : M (list Z) :=
  side ← copy side;
  df ← deref side;
  weeks ← lift (getitem "week_start" week_start df);
  if to_datetime_refuses df "week_start" (week_start_tz (tz df)) then raise ValueError
  else
    setitem side "week_start" set_week_start weeks;;
    df ← deref side;
    let side_weeks := unique (dropna (week_start <$> rows df)) in
    mret (date z <$>
            filter (λ w, date z w ∈ (date (week_start_tz (tz df)) <$> side_weeks)) big).

(** One side table block of [promo_calendar_diagnostics]: nothing without
    the side table or without its [week_start] column, else a hint when
    some big-change week falls on one of its dates. *)
Definition side_hints (z : zone) (side : option ref) (big : list Z)
    (mk : list Z → hint) (hints : list hint) : M (list hint) :=
  match side with
  | None => mret hints
  | Some s =>
    df ← deref s;
    if has_col df "week_start" then
      overlaps ← side_overlaps z s big;
      mret (if bool_decide (overlaps = []) then hints else hints ++ [mk overlaps])
    else mret hints
  end.

Definition promo_calendar_diagnostics (r : ref) (promos calendar : option ref)
  : M PromoCalendar.t :=
  let hints : list hint := [] in
  if bool_decide (promos = None) && bool_decide (calendar = None) then
    mret (PromoCalendar.mk "no_data" None None hints)
  else
    df ← deref r;
    if negb (has_col df "week_start") || negb (has_col df "units") then
      mret (PromoCalendar.mk "missing_columns" None None hints)
    else
      let agg := weekly_units (rows df) in
      if (length agg <? 4)%nat then
        mret (PromoCalendar.mk "not_enough_history" None None hints)
      else
        let big := big_changes agg in
        if bool_decide (length big = 0%nat) then
          mret (PromoCalendar.mk "no_big_changes" None None hints)
        else
          let z := week_start_tz (tz df) in
          hints ← side_hints z promos big HintPromoOverlap hints;
          hints ← side_hints z calendar big HintCalendarOverlap hints;
          let hints := match hints with [] => [HintNoMatch] | _ => hints end in
          mret (PromoCalendar.mk "ok" (Some (length big)) (Some (date z <$> big)) hints).

(** ** The normalizer *)

Definition is_space (c : ascii) : bool :=
  let n := nat_of_ascii c in
  ((9 <=? n)%nat && (n <=? 13)%nat) || ((28 <=? n)%nat && (n <=? 32)%nat).

Fixpoint lstrip (l : list ascii) : list ascii :=
  match l with
  | c :: l' => if is_space c then lstrip l' else l
  | [] => []
  end.

(** [str.strip()] *)
Definition strip (s : string) : string :=
  String.string_of_list_ascii
    (reverse (lstrip (reverse (lstrip (String.list_ascii_of_string s))))).

(** The zone of the column [load_ts_parsed], when it is assigned. *)
Definition set_load_ts_parsed_tz (r : ref) (z : zone) : M unit :=
  df ← deref r;
  store r (mkDF (columns df) (rows df)
             (mkZones (week_start_tz (tz df)) (load_ts_tz (tz df)) z)).

(** [normalize_df]: works on a copy, which it returns.  The coercions
    write back the stored readings of the cells; [load_ts_parsed] is the
    instant read from [load_ts], in the zone read from it.  When two
    labels are equal after stripping, [df[label]] is a table:
    [pd.to_numeric] raises [TypeError] on it, [pd.to_datetime]
    [ValueError]. *)
Definition normalize_df (r : ref) : M ref :=
  r ← copy r;
  df ← deref r;
  store r (mkDF (strip <$> columns df) (rows df) (tz df));;
  df ← deref r;
  (if has_col df "units" then
     if repeated_label df "units" then raise TypeError
     else setitem r "units" set_units (units <$> rows df)
   else mret ());;
  df ← deref r;
  (if has_col df "price" then
     if repeated_label df "price" then raise TypeError
     else setitem r "price" set_price (price <$> rows df)
   else mret ());;
  df ← deref r;
  (if has_col df "week_start" then
     if to_datetime_refuses df "week_start" (week_start_tz (tz df))
     then raise ValueError
     else setitem r "week_start" set_week_start (week_start <$> rows df)
   else mret ());;
  df ← deref r;
  (if has_col df "load_ts" then
     if to_datetime_refuses df "load_ts" (load_ts_tz (tz df))
     then raise ValueError
     else
       setitem r "load_ts_parsed" set_load_ts_parsed
         ((λ x, st ← load_ts x; stamp_instant st) <$> rows df);;
       set_load_ts_parsed_tz r (load_ts_tz (tz df))
   else mret ());;
  mret r.

(** ** The analyzer and its blocking policy *)

Definition DEFAULT_partial_backfill_pct_threshold : Q := 20 # 100.
Definition DEFAULT_duplicate_block_threshold : nat := 1.
Definition DEFAULT_level_shift_groups_threshold : nat := 1.

(** Rounding to the nearest integer, ties to the even one. *)
Definition round_half_even (x : Q) : Z :=
  let f := Qfloor x in
  let d := (x - inject_Z f)%Q in
  if Qltb d (1 # 2) then f
  else if Qltb (1 # 2) d then (f + 1)%Z
  else if Z.even f then f else (f + 1)%Z.

(** [round(x, 3)] *)
Definition round3 (x : Q) : Q := (inject_Z (round_half_even (x * 1000)) / 1000)%Q.

(** The blocking logic of [analyze_file]: the reasons, appended in the
    order of the tests. *)
Definition blocking_logic (schema : Schema.t) (duplicates : Duplicates.t)
    (partial_backfill : Backfill.t) (unit_price_mixup : Mixup.t)
    (level_shift : LevelShift.t) (tz_shift : TzShift.t) : list reason :=
  let blocking_reasons := [] in
  let blocking_reasons :=
    match Schema.missing_columns schema with
    | [] => blocking_reasons
    | _ => blocking_reasons ++ [MissingSchemaColumns]
    end in
  let blocking_reasons :=
    match Duplicates.duplicate_count duplicates with
    | Some dup_count =>
      if (DEFAULT_duplicate_block_threshold <=? dup_count)%nat
      then blocking_reasons ++ [DuplicatesReason dup_count]
      else blocking_reasons
    | None => blocking_reasons
    end in
  let blocking_reasons :=
    match Backfill.pct_backfilled partial_backfill with
    | Some pct_backfilled =>
      if Qltb DEFAULT_partial_backfill_pct_threshold pct_backfilled
      then blocking_reasons ++ [PartialBackfillPct (round3 pct_backfilled)]
      else blocking_reasons
    | None => blocking_reasons
    end in
  let blocking_reasons :=
    match Mixup.suspected_unit_price_mixup unit_price_mixup with
    | Some true => blocking_reasons ++ [UnitPriceMixupSuspected]
    | _ => blocking_reasons
    end in
  let blocking_reasons :=
    let n := default 0%nat (LevelShift.groups_with_level_shift level_shift) in
    if (DEFAULT_level_shift_groups_threshold <=? n)%nat
    then blocking_reasons ++ [LevelShiftGroups n]
    else blocking_reasons in
  let blocking_reasons :=
    match TzShift.suspicious tz_shift with
    | Some true => blocking_reasons ++ [TimezoneAnomalyOrDupPk]
    | _ => blocking_reasons
    end in
  blocking_reasons.

Definition verdict (blocking_reasons : list reason) : string :=
  if (0 <? length blocking_reasons)%nat then "FAIL" else "PASS".

(** [Path.name]: the text after the last slash. *)
Fixpoint path_name_from (acc : list ascii) (l : list ascii) : list ascii :=
  match l with
  | [] => acc
  | c :: l' =>
    if bool_decide (c = "/"%char) then path_name_from [] l'
    else path_name_from (acc ++ [c]) l'
  end.

Definition path_name (p : string) : string :=
  String.string_of_list_ascii (path_name_from [] (String.list_ascii_of_string p)).

(** The text before the last dot; none when the text has no dot. *)
Fixpoint before_last_dot (l : list ascii) : option (list ascii) :=
  match l with
  | [] => None
  | c :: l' =>
    match before_last_dot l' with
    | Some pre => Some (c :: pre)
    | None => if bool_decide (c = "."%char) then Some [] else None
    end
  end.

(** [Path.stem]: the name without its last suffix; a leading or a trailing
    dot starts no suffix. *)
Definition path_stem (p : string) : string :=
  let name := String.list_ascii_of_string (path_name p) in
  match before_last_dot name with
  | Some pre =>
    if bool_decide (pre = []) || bool_decide (length pre + 1 = length name)%nat
    then path_name p
    else String.string_of_list_ascii pre
  | None => path_name p
  end.

(** The components of a path text: [str.split("/")]. *)
Fixpoint split_slash (l : list ascii) : list (list ascii) :=
  match l with
  | [] => [[]]
  | c :: l' =>
    if bool_decide (c = "/"%char) then [] :: split_slash l'
    else
      match split_slash l' with
      | part :: parts => (c :: part) :: parts
      | [] => [[c]]
      end
  end.

Definition path_parts (p : string) : list string :=
  String.string_of_list_ascii <$> split_slash (String.list_ascii_of_string p).

(** The order of Python lists of texts: the first components that differ
    decide, a list is before the lists it starts. *)
Fixpoint parts_leb (a b : list string) : bool :=
  match a, b with
  | [], _ => true
  | _ :: _, [] => false
  | x :: a', y :: b' =>
    if bool_decide (x = y) then parts_leb a' b' else String.leb x y
  end.

(** The order of [Path] objects: they are compared by their components,
    not as texts. *)
Definition path_leb (p q : string) : bool :=
  parts_leb (path_parts p) (path_parts q).

(** A pattern that starts at the root. *)
Definition is_absolute (pattern : string) : bool :=
  match pattern with
  | String c _ => bool_decide (c = "/"%char)
  | EmptyString => false
  end.

(** What a run reads from outside: the clock, the file system. *)
Record env := mkEnv {
  utcnow : string;
  path_exists : string → bool;
  glob : string → string → list string;
  read_csv : string → string + DataFrame;
}.

(** The arguments of the command line, after [argparse]. *)
Record args := mkArgs {
  data_dir : string;
  out_dir : string;
  calendar : option string;
  promos : option string;
  pattern : string;
}.

Section Runner.

Variable sqrtQ : Q → Q.
Variable e : env.

Definition analyze_file (path : string) (out_dir : string)
    (promos_df calendar_df : option ref) : M Report.t :=
  let file := path_name path in
  let analyzed_at := utcnow e +:+ "Z" in
  match read_csv e path with
  | inl msg =>
    mret (Report.mk file analyzed_at (Some ("read_error: " +:+ msg))
            None None None None None None None None None None
            "FAIL" [ReadError])
  | inr table =>
    df ← alloc table;
    df ← normalize_df df;
    schema ← check_schema df (Some expected_schema_v1);
    schema_versioning ← detect_schema_versioning df (Some expected_schema_v1);
    duplicates ← check_duplicates df;
    continuity ← check_date_continuity df 7 1;
    level_shift ← detect_level_shift sqrtQ df 8 3;
    unit_price_mixup ← detect_unit_price_mixup df;
    partial_backfill ← detect_partial_backfill df 30;
    tz_shift ← detect_timezone_shift df;
    seasonality ← detect_seasonality_break sqrtQ df;
    promo_calendar ← promo_calendar_diagnostics df promos_df calendar_df;
    let blocking_reasons :=
      blocking_logic schema duplicates partial_backfill unit_price_mixup
        level_shift tz_shift in
    let result :=
      Report.mk file analyzed_at None
        (Some schema) (Some schema_versioning) (Some duplicates)
        (Some continuity) (Some level_shift) (Some unit_price_mixup)
        (Some partial_backfill) (Some tz_shift) (Some seasonality)
        (Some promo_calendar)
        (verdict blocking_reasons) blocking_reasons in
    write_file (JsonReport (out_dir +:+ "/" +:+ path_stem path +:+ "_dq_report.json")
                  result);;
    mret result
  end.

Definition load_optional_csv (path : option string) : M (option ref) :=
  match path with
  | None => mret None
  | Some p =>
    if negb (path_exists e p) then mret None
    else
      match read_csv e p with
      | inl _ => mret None
      | inr table => df ← alloc table; mret (Some df)
      end
  end.

(** The summary row of a report; [(r.get(k) or {}).get(..)] is [None]
    when the report has no such diagnostic. *)
Definition summary_row (r : Report.t) : SummaryRow.t :=
  SummaryRow.mk (Report.file r) (Report.blocking r) (Report.blocking_reasons r)
    (d ← Report.duplicates r; Duplicates.duplicate_count d)
    (d ← Report.partial_backfill r; Backfill.pct_backfilled d)
    (d ← Report.unit_price_mixup r; Mixup.suspected_unit_price_mixup d)
    (d ← Report.level_shift r; LevelShift.groups_with_level_shift d).

(** The loop of [main] over the files, on [(summary_rows, any_fail)]. *)
Fixpoint main_loop (csv_files : list string) (out_dir : string)
    (promos_df calendar_df : option ref)
    (summary_rows : list SummaryRow.t) (any_fail : bool)
  : M (list SummaryRow.t * bool) :=
  match csv_files with
  | [] => mret (summary_rows, any_fail)
  | f :: rest =>
    r ← analyze_file f out_dir promos_df calendar_df;
    let summary_rows := summary_rows ++ [summary_row r] in
    let any_fail := if bool_decide (Report.blocking r = "FAIL") then true else any_fail in
    main_loop rest out_dir promos_df calendar_df summary_rows any_fail
  end.

(** [sorted(data_dir.glob(pattern))]: [Path.glob] raises [ValueError] on
    the empty pattern and [NotImplementedError] on a pattern that is not
    relative; the paths are sorted as [Path] objects. *)
Definition sorted_glob (dir pattern : string) : M (list string) :=
  if bool_decide (pattern = "") then raise ValueError
  else if is_absolute pattern then raise NotImplementedError
  else mret (sort_by path_leb (glob e dir pattern)).

(** [sys.exit(n)] raises [SystemExit]. *)
Definition main (a : args) : M unit :=
  if negb (path_exists e (data_dir a)) then raise (SystemExit 2)
  else
    promos_df ← load_optional_csv (promos a);
    calendar_df ← load_optional_csv (calendar a);
    csv_files ← sorted_glob (data_dir a) (pattern a);
    match csv_files with
    | [] => raise (SystemExit 3)
    | _ =>
      '(summary_rows, any_fail) ←
        main_loop csv_files (out_dir a) promos_df calendar_df [] false;
      write_file (SummaryCsv (out_dir a +:+ "/summary_report.csv") summary_rows);;
      if any_fail : bool then raise (SystemExit 1) else raise (SystemExit 0)
    end.

End Runner.

(** The exit status of the process: the code of [SystemExit], 1 after any
    other uncaught exception, 0 when the program ends by itself. *)
Definition exit_status {A} (x : result A) : Z :=
  match x with
  | Ok _ => 0
  | Raise (SystemExit code) => code
  | Raise _ => 1
  end.

(** ** Definitions used to state the properties *)

(** The number of occurrences of a key in a list of keys. *)
Definition occurrences `{EqDecision K} (k : K) (l : list K) : nat :=
  length (filter (λ k', k' = k) l).

(** The rows of a table whose primary key occurs more than once in it. *)
Definition repeated_rows (rs : list Row) : list Row :=
  filter (λ x, (2 ≤ occurrences (pk_of x) (pk_of <$> rs))%nat) rs.

(** The world with one object, a table. *)
Definition world_of (df : DataFrame) : world := mkWorld [df] [].

(** A float that is a number below, or above, a bound. *)
Definition below (x : float) (b : Q) : Prop := ∃ v, x = Some v ∧ (v < b)%Q.
Definition above (x : float) (b : Q) : Prop := ∃ v, x = Some v ∧ (b < v)%Q.

(** The non-null values of the price and of the units column. *)
Definition price_values (df : DataFrame) : list Q := dropna (price <$> rows df).
Definition units_values (df : DataFrame) : list Q := dropna (units <$> rows df).

Definition integer_valued_count (xs : list Q) : nat :=
  length (filter (λ x, is_integer_valued x = true) xs).

(** The first heuristic of [detect_unit_price_mixup]: the price median is
    below 1.5 and the units median above 10. *)
Definition heuristic_medians (df : DataFrame) : Prop :=
  below (median (price_values df)) (3 # 2)
  ∧ above (median (units_values df)) 10.

(** The second heuristic: more than 90% of the prices are integer-valued,
    the price median is above 5 and the units median below 2. *)
Definition heuristic_integer_like (df : DataFrame) : Prop :=
  (9 * length (price_values df) < 10 * integer_valued_count (price_values df))%nat
  ∧ above (median (price_values df)) 5
  ∧ below (median (units_values df)) 2.

(** The second heuristic as the specification words it: at least 90% of
    the prices are integer-valued. *)
Definition heuristic_integer_like_at_least (df : DataFrame) : Prop :=
  (9 * length (price_values df) ≤ 10 * integer_valued_count (price_values df))%nat
  ∧ above (median (price_values df)) 5
  ∧ below (median (units_values df)) 2.

(** ** Frames *)

(** [w'] has every object of [w], unchanged, and the same files. *)
Definition extends (w w' : world) : Prop :=
  heap w `prefix_of` heap w' ∧ written w' = written w.

(** [m] leaves the first [n] objects as they are, removes no object,
    writes no file, and its value satisfies [Q]. *)
Definition preserves {A} (n : nat) (m : M A) (Q : A → Prop) : Prop :=
  ∀ w, (n ≤ length (heap w))%nat →
    take n (heap (m w).2) = take n (heap w)
    ∧ (length (heap w) ≤ length (heap (m w).2))%nat
    ∧ written (m w).2 = written w
    ∧ ∀ a, (m w).1 = Ok a → Q a.

(** The ten checks of the analyzer, and the record each returns. *)
Inductive check :=
  | CheckSchema | SchemaVersioningCheck | CheckDuplicates | CheckDateContinuity
  | DetectLevelShift | DetectUnitPriceMixup | DetectPartialBackfill
  | DetectTimezoneShift | DetectSeasonalityBreak | PromoCalendarDiagnostics.

Inductive diagnostic :=
  | DSchema (d : Schema.t)
  | DSchemaVersioning (d : SchemaVersioning.t)
  | DDuplicates (d : Duplicates.t)
  | DContinuity (d : Continuity.t)
  | DLevelShift (d : LevelShift.t)
  | DMixup (d : Mixup.t)
  | DBackfill (d : Backfill.t)
  | DTzShift (d : TzShift.t)
  | DSeasonality (d : Seasonality.t)
  | DPromoCalendar (d : PromoCalendar.t).

(** A check, called as [analyze_file] calls it. *)
Definition run_check (sqrtQ : Q → Q) (c : check) (df : ref)
    (promos_df calendar_df : option ref) : M diagnostic :=
  match c with
  | CheckSchema => d ← check_schema df (Some expected_schema_v1); mret (DSchema d)
  | SchemaVersioningCheck =>
    d ← detect_schema_versioning df (Some expected_schema_v1); mret (DSchemaVersioning d)
  | CheckDuplicates => d ← check_duplicates df; mret (DDuplicates d)
  | CheckDateContinuity => d ← check_date_continuity df 7 1; mret (DContinuity d)
  | DetectLevelShift => d ← detect_level_shift sqrtQ df 8 3; mret (DLevelShift d)
  | DetectUnitPriceMixup => d ← detect_unit_price_mixup df; mret (DMixup d)
  | DetectPartialBackfill => d ← detect_partial_backfill df 30; mret (DBackfill d)
  | DetectTimezoneShift => d ← detect_timezone_shift df; mret (DTzShift d)
  | DetectSeasonalityBreak => d ← detect_seasonality_break sqrtQ df; mret (DSeasonality d)
  | PromoCalendarDiagnostics =>
    d ← promo_calendar_diagnostics df promos_df calendar_df; mret (DPromoCalendar d)
  end.


(** ** The blocking policy as a table

    The policy as an ordered table of (condition, reason) pairs: the
    reasons of a file are those of the rows whose condition holds, in the
    order of the table. *)
Definition policy_table (schema : Schema.t) (duplicates : Duplicates.t)
    (partial_backfill : Backfill.t) (unit_price_mixup : Mixup.t)
    (level_shift : LevelShift.t) (tz_shift : TzShift.t) : list (bool * reason) :=
  let dup_count := default 0%nat (Duplicates.duplicate_count duplicates) in
  let pct := default 0%Q (Backfill.pct_backfilled partial_backfill) in
  let shifts := default 0%nat (LevelShift.groups_with_level_shift level_shift) in
  [ (negb (bool_decide (Schema.missing_columns schema = [])), MissingSchemaColumns);
    ((1 <=? dup_count)%nat, DuplicatesReason dup_count);
    (Qltb DEFAULT_partial_backfill_pct_threshold pct, PartialBackfillPct (round3 pct));
    (bool_decide (Mixup.suspected_unit_price_mixup unit_price_mixup = Some true),
     UnitPriceMixupSuspected);
    ((1 <=? shifts)%nat, LevelShiftGroups shifts);
    (bool_decide (TzShift.suspicious tz_shift = Some true), TimezoneAnomalyOrDupPk) ].

Definition policy_reasons (table : list (bool * reason)) : list reason :=
  (filter (λ row, row.1 = true) table).*2.

(** The tags of the reasons, in the order of the policy. *)
Definition reason_order : list string :=
  ["missing_schema_columns"; "duplicates"; "partial_backfill_pct";
   "unit_price_mixup_suspected"; "level_shift_groups";
   "timezone_anomaly_or_dup_pk"].

(** ** Tables and runs used as examples *)

(** A square root for the examples: exact on the squares of rationals,
    rounded down to six decimals elsewhere. *)
Definition sqrt_down (x : Q) : Q :=
  Z.sqrt (Qnum x * Z.pos (Qden x) * 1000000000000) # (Qden x * 1000000).

Definition only_key (week : Z) (sku store : string) : Row :=
  mkRow (Some week) (Some sku) (Some store) None None None None None.

(** Two rows with one primary key. *)
Definition table_dup : DataFrame :=
  mkDF ["week_start"; "sku_id"; "store_id"]
    [only_key 0 "S1" "C1"; only_key 0 "S1" "C1"] naive.

(** A table with [week_start] and [units], without [sku_id] and
    [store_id]. *)
Definition table_no_group_columns : DataFrame :=
  mkDF ["week_start"; "units"; "price"]
    [mkRow (Some 0%Z) None None (Some 10%Q) (Some 5%Q) None None None] naive.

Definition priced (p u : Q) : Row :=
  mkRow None None None (Some u) (Some p) None None None.

(** Ten prices, nine of them integer-valued: exactly 90%. *)
Definition table_ninety_percent : DataFrame :=
  mkDF ["price"; "units"] (replicate 9 (priced 10 1) ++ [priced (21 # 2) 1]) naive.

(** An optional reference is valid when it points to an object. *)
Definition side_valid (w : world) (side : option ref) : Prop :=
  ∀ s, side = Some s → is_Some (heap w !! s).

(** The table [normalize_df] returns, when it returns: the labels
    stripped, and the parsed load timestamp as a column, in the zone of the
    texts, when there is a [load_ts] column. *)
Definition normalized (df : DataFrame) : DataFrame :=
  let cols := strip <$> columns df in
  if bool_decide ("load_ts" ∈ cols) then
    mkDF (if bool_decide ("load_ts_parsed" ∈ cols)
          then cols else cols ++ ["load_ts_parsed"])
         ((λ x, set_load_ts_parsed x (st ← load_ts x; stamp_instant st)) <$> rows df)
         (mkZones (week_start_tz (tz df)) (load_ts_tz (tz df)) (load_ts_tz (tz df)))
  else mkDF cols (rows df) (tz df).

(** The exception [normalize_df] raises on a table, if it raises: the
    first coercion that fails, in the order units, price, week_start,
    load_ts. *)
Definition normalize_raises (df : DataFrame) : option exn :=
  let df' := mkDF (strip <$> columns df) (rows df) (tz df) in
  if repeated_label df' "units" then Some TypeError
  else if repeated_label df' "price" then Some TypeError
  else if has_col df' "week_start"
          && to_datetime_refuses df' "week_start" (week_start_tz (tz df))
  then Some ValueError
  else if has_col df' "load_ts"
          && to_datetime_refuses df' "load_ts" (load_ts_tz (tz df))
  then Some ValueError
  else None.

(** A table every step of the analyzer returns on: its labels are still
    distinct after stripping; its timestamps are read ([week_start] and
    [load_ts] have one UTC offset or none); it has the group columns
    whenever it has [week_start]; and when it has both [week_start] and a
    parsed load timestamp, both are tz-aware or both without time zone. *)
Definition goes_through (table : DataFrame) : Prop :=
  let n := normalized table in
  NoDup (strip <$> columns table)
  ∧ ("week_start" ∈ columns n →
     is_mixed (week_start_tz (tz table)) = false
     ∧ "sku_id" ∈ columns n ∧ "store_id" ∈ columns n)
  ∧ ("load_ts" ∈ columns n → is_mixed (load_ts_tz (tz table)) = false)
  ∧ ("week_start" ∈ columns n → "load_ts_parsed" ∈ columns n →
     same_awareness (load_ts_parsed_tz (tz n)) (week_start_tz (tz n)) = true).

#[global] Instance goes_through_dec table : Decision (goes_through table) :=
  ltac:(unfold goes_through; cbv zeta; exact _).

(** A side table [promo_calendar_diagnostics] can read: the [week_start]
    texts of a side table are read as those of the main table. *)
Definition side_readable (w : world) (side : option ref) : Prop :=
  ∀ s df, side = Some s → heap w !! s = Some df →
    "week_start" ∈ columns df →
    to_datetime_refuses df "week_start" (week_start_tz (tz df)) = false.

(** A side file whose table, when it is read, can be read by
    [promo_calendar_diagnostics]. *)
Definition side_file_readable (e : env) (path : option string) : Prop :=
  ∀ p table, path = Some p → read_csv e p = inr table →
    "week_start" ∈ columns table →
    to_datetime_refuses table "week_start" (week_start_tz (tz table)) = false.

(** A file the analyzer can go through: it cannot be read, or every step
    returns on its table. *)
Definition analyzable (e : env) (path : string) : Prop :=
  match read_csv e path with
  | inl _ => True
  | inr table => goes_through table
  end.

#[global] Instance analyzable_dec e path : Decision (analyzable e path) :=
  ltac:(unfold analyzable; destruct (read_csv e path); exact _).

(** A summary row of a blocking file. *)
Definition row_fails (row : SummaryRow.t) : bool :=
  bool_decide (SummaryRow.blocking row = "FAIL").

Definition is_json_report (a : artifact) : Prop :=
  match a with
  | JsonReport _ _ => True
  | SummaryCsv _ _ => False
  end.

Definition week (k : Z) : Z := (k * 7 * NS_PER_DAY)%Z.

(** A day of January 1970, as a text with the time 00:00:00 and without
    zone. *)
Definition january (day : nat) : string :=
  "1970-01-"
  +:+ String (ascii_of_nat (48 + day / 10)) (String (ascii_of_nat (48 + day `mod` 10)) "")
  +:+ " 00:00:00".

(** A row of one series, loaded the day after its week starts: week [k]
    starts on the day [7 * k + 1] of January 1970, for the first four
    weeks. *)
Definition sales_row (k : Z) (u p : Q) : Row :=
  mkRow (Some (week k)) (Some "S1") (Some "C1") (Some u) (Some p)
    (Some (Stamp (january (Z.to_nat (7 * k + 2))) (Some (week k + NS_PER_DAY)%Z)))
    None None.

(** Three weeks of one series with the full schema, every price [p] and
    every units value 1. *)
Definition table_priced (p : Q) : DataFrame :=
  mkDF expected_schema_v1 [sales_row 0 1 p; sales_row 1 1 p; sales_row 2 1 p] naive.

(** The same rows with their load timestamps as UTC texts, as in
    [2023-01-03T00:00:00Z]: [pd.to_datetime] reads a tz-aware column. *)
Definition january_utc (day : nat) : string :=
  "1970-01-"
  +:+ String (ascii_of_nat (48 + day / 10)) (String (ascii_of_nat (48 + day `mod` 10)) "")
  +:+ "T00:00:00Z".

Definition utc_row (k : Z) (u p : Q) : Row :=
  mkRow (Some (week k)) (Some "S1") (Some "C1") (Some u) (Some p)
    (Some (Stamp (january_utc (Z.to_nat (7 * k + 2))) (Some (week k + NS_PER_DAY)%Z)))
    None None.

Definition table_utc (p : Q) : DataFrame :=
  mkDF expected_schema_v1 [utc_row 0 1 p; utc_row 1 1 p; utc_row 2 1 p]
    (mkZones Naive (Aware 0) Naive).

(** A data directory with the given files. *)
Definition env_of (files : list (string * DataFrame)) : env :=
  mkEnv "2023-01-10T00:00:00"
    (λ p, bool_decide (p = "data"))
    (λ _ _, files.*1)
    (λ p, match list_find (λ f, f.1 = p) files with
          | Some (_, (_, table)) => inr table
          | None => inl "No such file or directory"
          end).

Definition args_of_run : args := mkArgs "data" "reports" None None "sales_weekly*.csv".

Definition empty_world : world := mkWorld [] [].

(** Sixty-four rows of one series that share their week: fifty-six with 0
    units, then eight with 3 units; and the same rows with the first and
    the last exchanged. *)
Definition tied_row (u : Q) : Row :=
  mkRow (Some 0%Z) (Some "S1") (Some "C1") (Some u) None None None None.

Definition tied_middle : list Row :=
  replicate 55 (tied_row 0) ++ replicate 7 (tied_row 3).

Definition table_tied : DataFrame :=
  mkDF ["week_start"; "sku_id"; "store_id"; "units"]
    (tied_row 0 :: tied_middle ++ [tied_row 3]) naive.

Definition table_tied_swapped : DataFrame :=
  mkDF ["week_start"; "sku_id"; "store_id"; "units"]
    (tied_row 3 :: tied_middle ++ [tied_row 0]) naive.

(** Two weeks of one series, in both orders. *)
Definition table_two_weeks : DataFrame :=
  mkDF ["week_start"; "sku_id"; "store_id"; "units"]
    [sales_row 0 1 5; sales_row 1 2 5] naive.

Definition table_two_weeks_reversed : DataFrame :=
  mkDF ["week_start"; "sku_id"; "store_id"; "units"]
    [sales_row 1 2 5; sales_row 0 1 5] naive.

(** A boolean order that is total, transitive and antisymmetric. *)
Record total_order {A} (le : A → A → bool) : Prop := {
  le_total a b : le a b = true ∨ le b a = true;
  le_trans a b c : le a b = true → le b c = true → le a c = true;
  le_antisym a b : le a b = true → le b a = true → a = b;
}.

Definition file_a : string := "data/sales_weekly_a.csv".
Definition file_b : string := "data/sales_weekly_b.csv".

(** ** Definitions used to state further properties *)

(** A text that does not start with white space. *)
Definition no_leading_space (l : list ascii) : Prop :=
  match l with
  | c :: _ => is_space c = false
  | [] => True
  end.

(** The rows of a table as [sort_values] orders them. *)
Definition sorted_rows (rs : list Row) : list Row :=
  sort_by (λ a b, sort_key_leb (sort_key_of a) (sort_key_of b)) rs.

(** The groups [groupby] iterates over, for a table with the key
    columns. *)
Definition groups_of (rs : list Row) : list ((string * string) * list Row) :=
  (λ k, (k, filter (λ x, group_key x = Some k) rs))
    <$> sort_by group_key_leb (unique (omap group_key rs)).

(** Rows whose units, where they have one, all have the value [c]. *)
Definition flat_units (c : Q) (rs : list Row) : Prop :=
  Forall (λ x, ∀ u, units x = Some u → (u == c)%Q) rs.

(** The time from the start of the week to the load of a row, in
    nanoseconds; none when one of the two instants is missing. *)
Definition load_lag (x : Row) : option Z :=
  match load_ts_parsed x, week_start x with
  | Some a, Some b => Some (a - b)%Z
  | _, _ => None
  end.

(** A row loaded at least [d] whole days after the start of its week. *)
Definition loaded_after (d : Z) (x : Row) : Prop :=
  match load_lag x with
  | Some ns => (d * NS_PER_DAY ≤ ns)%Z
  | None => False
  end.

#[global] Instance loaded_after_dec d x : Decision (loaded_after d x) :=
  match load_lag x as o
    return Decision (match o with
                     | Some ns => (d * NS_PER_DAY ≤ ns)%Z
                     | None => False
                     end)
  with
  | Some ns => decide (d * NS_PER_DAY ≤ ns)%Z
  | None => decide False
  end.

(** The time-zone marks of the [load_ts] texts of a table. *)
Definition tz_marks (rs : list Row) : list string :=
  omap (λ x, tz_search (load_ts_str (load_ts x))) rs.

(** A file that [pd.read_csv] reads. *)
Definition readable (e : env) (f : string) : bool :=
  match read_csv e f with
  | inr _ => true
  | inl _ => false
  end.

Definition artifact_path (a : artifact) : string :=
  match a with
  | JsonReport p _ => p
  | SummaryCsv p _ => p
  end.

(** The path of the report of a file. *)
Definition report_path (out f : string) : string :=
  out +:+ "/" +:+ path_stem f +:+ "_dq_report.json".

(** A text without the character [c]. *)
Definition lacks (c : ascii) (s : string) : Prop :=
  c ∉ String.list_ascii_of_string s.

(** What the policy of the analyzer says of a summary row: the verdict is
    FAIL with a reason and PASS without one, and a passing row has no
    repeated key, no suspected mixup, no level shift and at most 20% of
    late rows. *)
Definition row_policy (row : SummaryRow.t) : Prop :=
  (SummaryRow.blocking row = "FAIL" ↔ SummaryRow.blocking_reasons row ≠ [])
  ∧ (SummaryRow.blocking row = "PASS" ↔ SummaryRow.blocking_reasons row = [])
  ∧ (SummaryRow.blocking row = "PASS" →
     default 0%nat (SummaryRow.duplicate_count row) = 0%nat
     ∧ (default 0%Q (SummaryRow.pct_backfilled row) <= 20 # 100)%Q
     ∧ SummaryRow.suspected_unit_price_mixup row ≠ Some true
     ∧ default 0%nat (SummaryRow.level_shift_groups row) = 0%nat).

(** A file with the headers [units] and [ units]: two labels that are
    equal once stripped. *)
Definition table_two_units : DataFrame :=
  mkDF ["units"; " units"; "price"] [priced 5 1] naive.

(** The rows of [table_priced 5], the first one twice. *)
Definition table_repeated : DataFrame :=
  mkDF expected_schema_v1 [sales_row 0 1 5; sales_row 0 1 5; sales_row 1 1 5] naive.

(** Two files in two directories, [a] and [a-b]: as texts the second path
    is before the first, as paths the first is before the second. *)
Definition file_in_a : string := "data/a/sales_weekly_1.csv".
Definition file_in_a_b : string := "data/a-b/sales_weekly_2.csv".

Definition args_of_subdirs : args :=
  mkArgs "data" "reports" None None "*/sales_weekly*.csv".

(** Four weeks of one series, the units of the last week three times
    those of the week before. *)
Definition table_spike : DataFrame :=
  mkDF expected_schema_v1
    [sales_row 0 1 5; sales_row 1 1 5; sales_row 2 1 5; sales_row 3 3 5] naive.

(** A promo table with one promotion, in the fourth week; and the same
    table with [week_start] texts that carry two different UTC offsets. *)
Definition promo_row (k : Z) : Row :=
  mkRow (Some (week k)) None None None None None None None.

Definition table_promo : DataFrame :=
  mkDF ["week_start"; "promo_flag"] [promo_row 3] naive.

Definition table_promo_mixed : DataFrame :=
  mkDF ["week_start"; "promo_flag"] [promo_row 3; promo_row 4]
    (mkZones Mixed Naive Naive).

(** ** The artifacts script

    [scripts/build_artifacts.py] reads the summary back from its CSV file.
    A cell of the table it reads holds the value the runner wrote: an
    empty cell is a null. *)

Definition upper_ascii (c : ascii) : ascii :=
  let n := nat_of_ascii c in
  if (97 <=? n)%nat && (n <=? 122)%nat then ascii_of_nat (n - 32) else c.

(** [str.upper()] *)
Fixpoint upper (s : string) : string :=
  match s with
  | EmptyString => EmptyString
  | String c s' => String (upper_ascii c) (upper s')
  end.

(** [str(x)] of a cell of the [suspected_unit_price_mixup] column. *)
Definition bool_cell_str (c : option bool) : string :=
  match c with
  | Some true => "True"
  | Some false => "False"
  | None => "nan"
  end.

(** The summary as a table: its labels and its rows. *)
Record summary_table := mkSummary {
  summary_columns : list string;
  summary_rows : list SummaryRow.t;
}.

(** The labels of the summary the runner writes. *)
Definition runner_columns : list string :=
  ["file"; "blocking"; "blocking_reasons"; "duplicate_count"; "pct_backfilled";
   "suspected_unit_price_mixup"; "level_shift_groups"].

Definition blocking_mask (df : summary_table) : list bool :=
  (λ r, bool_decide (upper (SummaryRow.blocking r) = "FAIL")) <$> summary_rows df.

(** [mask.any()] *)
Definition any (mask : list bool) : bool := existsb id mask.

Definition compute_overall_status (df : summary_table) : string :=
  if bool_decide ("blocking" ∈ summary_columns df) && any (blocking_mask df)
  then "red"
  else
    let amber_flag := false in
    let amber_flag :=
      if bool_decide ("duplicate_count" ∈ summary_columns df)
         && any ((λ r, (0 <? default 0 (SummaryRow.duplicate_count r))%nat)
                   <$> summary_rows df)
      then true else amber_flag in
    let amber_flag :=
      if bool_decide ("pct_backfilled" ∈ summary_columns df)
         && any ((λ r, Qltb 0 (default 0%Q (SummaryRow.pct_backfilled r)))
                   <$> summary_rows df)
      then true else amber_flag in
    let amber_flag :=
      if bool_decide ("suspected_unit_price_mixup" ∈ summary_columns df)
         && any ((λ r, bool_decide
                         (upper (bool_cell_str (SummaryRow.suspected_unit_price_mixup r))
                          = "TRUE")) <$> summary_rows df)
      then true else amber_flag in
    let amber_flag :=
      if bool_decide ("level_shift_groups" ∈ summary_columns df)
         && any ((λ r, (0 <? default 0 (SummaryRow.level_shift_groups r))%nat)
                   <$> summary_rows df)
      then true else amber_flag in
    if amber_flag then "amber" else "green".

Record dq_summary := mkDqSummary {
  dq_status : string;
  files_checked : nat;
  count_red : nat;
  duplicates_total : nat;
}.

(** The summary [write_summary_json] writes and returns. *)
Definition write_summary_json (df : summary_table) : dq_summary :=
  let status := compute_overall_status df in
  let red_count :=
    if bool_decide ("blocking" ∈ summary_columns df)
    then mask_sum (blocking_mask df) else 0%nat in
  let dup_sum :=
    if bool_decide ("duplicate_count" ∈ summary_columns df)
    then sum_list ((λ r, default 0%nat (SummaryRow.duplicate_count r))
                     <$> summary_rows df)
    else 0%nat in
  mkDqSummary status (length (summary_rows df)) red_count dup_sum.

(** ** The schema repair script

    [scripts/fix_schema_v2.py]: from the table read from a file to the
    table written back. *)

Definition EXPECTED : list string :=
  ["week_start"; "sku_id"; "store_id"; "units"; "price"; "inventory_on_hand";
   "currency"; "load_ts"; "source_file"].

Definition set_sku_id (x : Row) (v : option string) : Row :=
  mkRow (week_start x) v (store_id x) (units x) (price x) (load_ts x)
        (load_ts_parsed x) (delta_days x).

Definition set_store_id (x : Row) (v : option string) : Row :=
  mkRow (week_start x) (sku_id x) v (units x) (price x) (load_ts x)
        (load_ts_parsed x) (delta_days x).

Definition set_load_ts (x : Row) (v : option stamp) : Row :=
  mkRow (week_start x) (sku_id x) (store_id x) (units x) (price x) v
        (load_ts_parsed x) (delta_days x).

(** The cell a new column gets: ["USD"] for [currency], a null for the
    numeric columns, the empty text elsewhere.  The empty text reads as no
    date and as no instant. *)
Definition default_cell (c : string) (x : Row) : Row :=
  if bool_decide (c = "currency") then x
  else if bool_decide (c ∈ ["units"; "price"; "inventory_on_hand"]) then
    if bool_decide (c = "units") then set_units x None
    else if bool_decide (c = "price") then set_price x None
    else x
  else
    if bool_decide (c = "week_start") then set_week_start x None
    else if bool_decide (c = "sku_id") then set_sku_id x (Some "")
    else if bool_decide (c = "store_id") then set_store_id x (Some "")
    else if bool_decide (c = "load_ts") then set_load_ts x (Some (Stamp "" None))
    else x.

(** The zones with a new column: a column of empty texts is read without
    time zone. *)
Definition default_zones (c : string) (t : zones) : zones :=
  if bool_decide (c = "week_start")
  then mkZones Naive (load_ts_tz t) (load_ts_parsed_tz t)
  else if bool_decide (c = "load_ts")
  then mkZones (week_start_tz t) Naive (load_ts_parsed_tz t)
  else t.

(** The loop body: [if c not in df.columns: df[c] = ..]. *)
Definition add_missing_column (df : DataFrame) (c : string) : DataFrame :=
  if bool_decide (c ∈ columns df) then df
  else mkDF (columns df ++ [c]) (default_cell c <$> rows df)
            (default_zones c (tz df)).

Definition fix_schema_frame (df : DataFrame) : DataFrame :=
  let df := foldl add_missing_column df EXPECTED in
  let cols :=
    filter (λ c, c ∈ columns df) EXPECTED
    ++ filter (λ c, c ∉ EXPECTED) (columns df) in
  mkDF cols (rows df) (tz df).

(** * Properties *)

(** * Running the monad *)

Lemma deref_lookup w r df : heap w !! r = Some df → deref r w = (Ok df, w).
Proof. intros H. unfold deref. by rewrite H. Qed.

(** * Duplicates *)

Section Duplicated.
Context `{EqDecision K}.
Implicit Types (k : K) (l bef : list K).

Lemma occurrences_cons k k' l :
  occurrences k (k' :: l) = ((if decide (k' = k) then 1 else 0) + occurrences k l)%nat.
Proof. unfold occurrences. rewrite filter_cons. by destruct (decide (k' = k)). Qed.

Lemma occurrences_app k l1 l2 :
  occurrences k (l1 ++ l2) = (occurrences k l1 + occurrences k l2)%nat.
Proof. unfold occurrences. by rewrite filter_app, length_app. Qed.

Lemma occurrences_pos k l : k ∈ l ↔ (1 ≤ occurrences k l)%nat.
Proof.
  induction l as [|k' l IH]; [rewrite elem_of_nil; cbn; lia|].
  rewrite elem_of_cons, occurrences_cons, IH.
  destruct (decide (k' = k)) as [->|Hne].
  - split; [lia|auto].
  - split; [intros [->|?]; [done|lia]|intros; right; lia].
Qed.

Lemma duplicated_from_spec bef l :
  duplicated_from bef l
  = (λ k, bool_decide (2 ≤ occurrences k (bef ++ l))%nat) <$> l.
Proof.
  revert bef. induction l as [|k l IH]; intros bef; [done|].
  cbn [duplicated_from fmap list_fmap]. f_equal.
  - rewrite occurrences_app, occurrences_cons, decide_True by done.
    rewrite <- bool_decide_or. apply bool_decide_ext.
    rewrite !occurrences_pos. lia.
  - rewrite IH. apply list_fmap_ext. intros _ k' _.
    apply bool_decide_ext. rewrite <- app_comm_cons.
    rewrite ?occurrences_app, ?occurrences_cons, ?occurrences_app. lia.
Qed.

Lemma duplicated_spec l :
  duplicated l = (λ k, bool_decide (2 ≤ occurrences k l)%nat) <$> l.
Proof. apply (duplicated_from_spec []). Qed.
End Duplicated.

Lemma select_fmap_bool_decide {A} (P : A → Prop) `{∀ x, Decision (P x)} (l : list A) :
  select l ((λ x, bool_decide (P x)) <$> l) = filter P l.
Proof.
  induction l as [|x l IH]; [done|]. cbn [select fmap list_fmap].
  rewrite filter_cons, IH.
  by destruct (decide (P x)); [rewrite bool_decide_true|rewrite bool_decide_false].
Qed.

Lemma mask_sum_fmap_bool_decide {A} (P : A → Prop) `{∀ x, Decision (P x)} (l : list A) :
  mask_sum ((λ x, bool_decide (P x)) <$> l) = length (filter P l).
Proof.
  unfold mask_sum. induction l as [|x l IH]; [done|]. cbn [fmap list_fmap].
  rewrite !filter_cons.
  destruct (decide (P x)).
  - rewrite bool_decide_true by done. rewrite decide_True by done.
    cbn [length]. by rewrite IH.
  - rewrite bool_decide_false by done. by rewrite decide_False by done.
Qed.

Lemma duplicated_rows rs :
  duplicated (pk_of <$> rs)
  = (λ x, bool_decide (2 ≤ occurrences (pk_of x) (pk_of <$> rs))%nat) <$> rs.
Proof. rewrite duplicated_spec. by rewrite <- list_fmap_compose. Qed.

Lemma select_duplicated rs :
  select rs (duplicated (pk_of <$> rs)) = repeated_rows rs.
Proof.
  rewrite duplicated_rows.
  apply (select_fmap_bool_decide (λ x, (2 ≤ occurrences (pk_of x) (pk_of <$> rs))%nat)).
Qed.

Lemma mask_sum_duplicated rs :
  mask_sum (duplicated (pk_of <$> rs)) = length (repeated_rows rs).
Proof.
  rewrite duplicated_rows.
  apply (mask_sum_fmap_bool_decide (λ x, (2 ≤ occurrences (pk_of x) (pk_of <$> rs))%nat)).
Qed.

Lemma first_missing_None df labels :
  first_missing df labels = None ↔ Forall (λ c, c ∈ columns df) labels.
Proof.
  unfold first_missing. rewrite head_None.
  induction labels as [|c l IH]; [by split; [constructor|]|].
  rewrite filter_cons, Forall_cons. destruct (decide (c ∉ columns df)) as [Hc|Hc].
  - split; [done|]. intros [? _]. done.
  - apply dec_stable in Hc. rewrite IH. split; [auto|by intros [_ ?]].
Qed.

Lemma check_duplicates_run w r df :
  heap w !! r = Some df →
  Forall (λ c, c ∈ columns df) ["week_start"; "sku_id"; "store_id"] →
  check_duplicates r w
  = (Ok (Duplicates.mk "ok" ["week_start"; "sku_id"; "store_id"]
           (Some (length (repeated_rows (rows df))))
           (take 10 (repeated_rows (rows df)))), w).
Proof.
  intros Hr Hpk. unfold check_duplicates, mbind, M_bind.
  rewrite (deref_lookup _ _ _ Hr).
  apply first_missing_None in Hpk. rewrite Hpk.
  by rewrite mask_sum_duplicated, select_duplicated.
Qed.

Lemma occurrences_fmap `{EqDecision K} {A} (f : A → K) k (l : list A) :
  occurrences k (f <$> l) = length (filter (λ x, f x = k) l).
Proof.
  induction l as [|x l IH]; [done|]. cbn [fmap list_fmap].
  rewrite occurrences_cons, filter_cons, IH. by destruct (decide (f x = k)).
Qed.

Lemma occurrences_NoDup `{EqDecision K} (k : K) l : NoDup l → (occurrences k l ≤ 1)%nat.
Proof.
  induction 1 as [|k' l Hk' _ IH]; [cbn; lia|].
  rewrite occurrences_cons. destruct (decide (k' = k)) as [->|]; [|lia].
  rewrite occurrences_pos in Hk'. lia.
Qed.

Lemma filter_all {A} (P : A → Prop) `{∀ x, Decision (P x)} (l : list A) :
  Forall P l → filter P l = l.
Proof.
  induction 1 as [|x l Hx _ IH]; [done|]. by rewrite filter_cons_True, IH.
Qed.

Lemma filter_none {A} (P : A → Prop) `{∀ x, Decision (P x)} (l : list A) :
  Forall (λ x, ¬ P x) l → filter P l = [].
Proof.
  induction 1 as [|x l Hx _ IH]; [done|]. by rewrite filter_cons_False.
Qed.

Lemma repeated_rows_NoDup rs : NoDup (pk_of <$> rs) → repeated_rows rs = [].
Proof.
  intros Hnd. apply filter_none, Forall_forall. intros x _.
  pose proof (occurrences_NoDup (pk_of x) _ Hnd). lia.
Qed.

Lemma repeated_rows_all rs :
  (∀ x, x ∈ rs → (2 ≤ occurrences (pk_of x) (pk_of <$> rs))%nat) →
  repeated_rows rs = rs.
Proof. intros Hall. by apply filter_all, Forall_forall. Qed.

(** A repeated row has a partner: the repeated rows are never exactly one. *)
Lemma repeated_rows_length rs :
  repeated_rows rs = [] ∨ (2 ≤ length (repeated_rows rs))%nat.
Proof.
  destruct (repeated_rows rs) as [|x l] eqn:E; [by left|right].
  assert (x ∈ repeated_rows rs) as Hx by (rewrite E; left).
  apply list_elem_of_filter in Hx as [Hocc _].
  rewrite <- E. etrans; [exact Hocc|].
  rewrite occurrences_fmap.
  rewrite <- (list_filter_filter_l (λ y, pk_of y = pk_of x)
    (λ y, (2 ≤ occurrences (pk_of y) (pk_of <$> rs))%nat)).
  - apply length_filter.
  - by intros y ->.
Qed.

(** C6. With the three primary key columns present, [check_duplicates]
    returns the exact number of rows whose (week_start, sku_id, store_id)
    occurs more than once: 0 and an empty sample when all triples are
    distinct, the number of rows when every triple repeats. *)
Theorem check_duplicates_exact w r df :
  heap w !! r = Some df →
  Forall (λ c, c ∈ columns df) ["week_start"; "sku_id"; "store_id"] →
  ∃ d, check_duplicates r w = (Ok d, w)
    ∧ Duplicates.status d = "ok"
    ∧ Duplicates.duplicate_count d = Some (length (repeated_rows (rows df)))
    ∧ (NoDup (pk_of <$> rows df) →
       Duplicates.duplicate_count d = Some 0%nat ∧ Duplicates.sample d = [])
    ∧ ((∀ x, x ∈ rows df →
          (2 ≤ occurrences (pk_of x) (pk_of <$> rows df))%nat) →
       Duplicates.duplicate_count d = Some (length (rows df))).
Proof.
  intros Hr Hpk. eexists. split; [by apply check_duplicates_run|].
  cbn. repeat split.
  - by rewrite repeated_rows_NoDup.
  - by rewrite repeated_rows_NoDup.
  - intros Hall. by rewrite repeated_rows_all.
Qed.

Lemma check_duplicates_exact_witness :
  ∃ d, check_duplicates 0%nat (world_of table_dup) = (Ok d, world_of table_dup)
     ∧ Duplicates.duplicate_count d = Some 2%nat.
Proof.
  destruct (check_duplicates_exact (world_of table_dup) 0%nat table_dup)
    as (d & Hrun & _ & Hcount & _).
  - reflexivity.
  - repeat constructor; apply bool_decide_unpack; reflexivity.
  - exists d. split; [exact Hrun|exact Hcount].
Defined.

(** C10. The duplicate count is never 1, the sample is non-empty exactly
    when the count is positive, and the sample has at most 10 rows. *)
Theorem check_duplicates_count_shape w r df :
  heap w !! r = Some df →
  Forall (λ c, c ∈ columns df) ["week_start"; "sku_id"; "store_id"] →
  ∃ d n, check_duplicates r w = (Ok d, w)
    ∧ Duplicates.duplicate_count d = Some n
    ∧ (n = 0 ∨ 2 ≤ n)%nat
    ∧ (Duplicates.sample d ≠ [] ↔ (0 < n)%nat)
    ∧ (length (Duplicates.sample d) ≤ 10)%nat.
Proof.
  intros Hr Hpk. eexists _, _. split; [by apply check_duplicates_run|].
  cbn. split; [done|].
  destruct (repeated_rows_length (rows df)) as [E|Hlen].
  - rewrite E. cbn. split; [by left|]. split; [|lia].
    split; [by intros []|lia].
  - split; [by right|]. split; [|rewrite length_take; lia].
    split; [lia|]. intros _.
    destruct (repeated_rows (rows df)); cbn in *; [lia|done].
Qed.

Lemma Qltb_lt a b : Qltb a b = true ↔ (a < b)%Q.
Proof.
  unfold Qltb. rewrite negb_true_iff, <- not_true_iff_false, Qle_bool_iff.
  split; [apply Qnot_le_lt|apply Qlt_not_le].
Qed.

Lemma float_lt_below x b : float_lt x (Some b) = true ↔ below x b.
Proof.
  unfold below. destruct x as [v|]; cbn.
  - rewrite Qltb_lt. split; [eauto|]. by intros (? & [= <-] & ?).
  - split; [done|]. by intros (? & ? & ?).
Qed.

Lemma float_gt_above x b : float_gt x (Some b) = true ↔ above x b.
Proof.
  unfold above. destruct x as [v|]; cbn.
  - rewrite Qltb_lt. split; [eauto|]. by intros (? & [= <-] & ?).
  - split; [done|]. by intros (? & ? & ?).
Qed.

Lemma share_above (k n : nat) :
  (0 < n)%nat →
  Qltb (9 # 10) (inject_Z (Z.of_nat k) / inject_Z (Z.of_nat n)) = true
  ↔ (9 * n < 10 * k)%nat.
Proof.
  intros Hn. rewrite Qltb_lt.
  destruct n as [|n]; [lia|].
  unfold Qlt, Qdiv, Qmult, Qinv, inject_Z. cbn [Qnum Qden].
  rewrite Nat2Z.inj_succ. unfold Z.succ.
  destruct (Z.of_nat n + 1)%Z as [|p|p] eqn:E; [lia| |lia].
  cbn [Qnum Qden]. lia.
Qed.

Lemma has_col_true df c : c ∈ columns df → has_col df c = true.
Proof. intros. by apply bool_decide_eq_true. Qed.

Lemma heuristic_medians_reflect df :
  float_lt (median (price_values df)) (Some (3 # 2))
  && float_gt (median (units_values df)) (Some 10%Q) = true
  ↔ heuristic_medians df.
Proof.
  unfold heuristic_medians.
  by rewrite andb_true_iff, float_lt_below, float_gt_above.
Qed.

Lemma heuristic_integer_like_reflect df :
  (0 <? length (price_values df))%nat
  && (Qltb (9 # 10)
        (inject_Z (Z.of_nat (integer_valued_count (price_values df)))
         / Qlen (price_values df))
      && float_gt (median (price_values df)) (Some 5%Q)
      && float_lt (median (units_values df)) (Some 2%Q)) = true
  ↔ heuristic_integer_like df.
Proof.
  unfold heuristic_integer_like, Qlen.
  rewrite !andb_true_iff, float_lt_below, float_gt_above, Nat.ltb_lt.
  split.
  - intros (Hn & (Hs & ?) & ?). by rewrite <- share_above.
  - intros (Hs & ? & ?).
    assert (0 < length (price_values df))%nat as Hn.
    { unfold integer_valued_count in Hs.
      pose proof (length_filter (λ x, is_integer_valued x = true) (price_values df)).
      lia. }
    by rewrite share_above.
Qed.

(** The flag and the hint of [detect_unit_price_mixup], by the two tests
    of the source. *)
Lemma mixup_flag_run w r df :
  heap w !! r = Some df →
  "price" ∈ columns df → "units" ∈ columns df →
  let a := float_lt (median (price_values df)) (Some (3 # 2))
           && float_gt (median (units_values df)) (Some 10%Q) in
  let b := (0 <? length (price_values df))%nat
           && (Qltb (9 # 10)
                 (inject_Z (Z.of_nat (integer_valued_count (price_values df)))
                  / Qlen (price_values df))
               && float_gt (median (price_values df)) (Some 5%Q)
               && float_lt (median (units_values df)) (Some 2%Q)) in
  ∃ d, detect_unit_price_mixup r w = (Ok d, w)
    ∧ Mixup.status d = "ok"
    ∧ Mixup.suspected_unit_price_mixup d = Some (a || b)
    ∧ Mixup.hint d
      = Some (if a then HintMedians else if b then HintIntegerLike else NoHint).
Proof.
  intros Hr Hp Hu a b. subst a b. unfold detect_unit_price_mixup, mbind, M_bind.
  rewrite (deref_lookup _ _ _ Hr), !has_col_true by done. cbn [negb orb].
  unfold price_values, units_values, integer_valued_count.
  destruct (float_lt _ _ && float_gt _ _); [by eexists|]. cbn [negb orb].
  destruct (0 <? _)%nat; [|by eexists]. cbn [andb].
  destruct (Qltb _ _ && _ && _); by eexists.
Qed.

(** C4, as the code has it. With both columns present the flag is set
    exactly when the first heuristic holds, or when it does not and the
    second one does (more than 90% of the prices integer-valued); the hint
    is the one of the heuristic that matched first. *)
Theorem detect_unit_price_mixup_heuristics w r df :
  heap w !! r = Some df →
  "price" ∈ columns df → "units" ∈ columns df →
  ∃ d s h, detect_unit_price_mixup r w = (Ok d, w)
    ∧ Mixup.status d = "ok"
    ∧ Mixup.suspected_unit_price_mixup d = Some s
    ∧ Mixup.hint d = Some h
    ∧ (s = true ↔
       heuristic_medians df ∨ (¬ heuristic_medians df ∧ heuristic_integer_like df))
    ∧ (heuristic_medians df → h = HintMedians)
    ∧ (¬ heuristic_medians df → heuristic_integer_like df → h = HintIntegerLike)
    ∧ (s = false → h = NoHint).
Proof.
  intros Hr Hp Hu.
  destruct (mixup_flag_run w r df Hr Hp Hu) as (d & Hrun & Hst & Hs & Hh).
  cbv zeta in Hs, Hh.
  pose proof (heuristic_medians_reflect df) as Ha.
  pose proof (heuristic_integer_like_reflect df) as Hb.
  eexists d, _, _. split; [exact Hrun|]. split; [exact Hst|].
  split; [exact Hs|]. split; [exact Hh|].
  destruct (float_lt _ _ && float_gt _ _) in Ha |- *;
    destruct (_ && (_ && _ && _)) in Hb |- *; cbn [orb];
    destruct Ha as [Ha1 Ha2], Hb as [Hb1 Hb2];
    intuition congruence.
Qed.

(** * The frame of a computation *)

Section Preserves.
Context (n : nat).

Lemma preserves_ret {A} (a : A) (Q : A → Prop) : Q a → preserves n (mret a) Q.
Proof. intros Ha w _. cbn. repeat split; [lia|]. by intros ? [= <-]. Qed.

Lemma preserves_lift {A} (x : result A) : preserves n (lift x) (λ _, True).
Proof. intros w _. cbn. repeat split; lia. Qed.

Lemma preserves_raise {A} (e : exn) (Q : A → Prop) : preserves n (raise e) Q.
Proof. intros w _. cbn. repeat split; [lia|done]. Qed.

Lemma preserves_deref r : preserves n (deref r) (λ _, True).
Proof. intros w _. unfold deref. destruct (heap w !! r); cbn; repeat split; lia. Qed.

Lemma preserves_alloc df : preserves n (alloc df) (λ r, n ≤ r)%nat.
Proof.
  intros w Hn. cbn. rewrite length_app, take_app_le by done.
  repeat split; [lia|]. by intros ? [= <-].
Qed.

Lemma preserves_store r df : (n ≤ r)%nat → preserves n (store r df) (λ _, True).
Proof.
  intros Hr w Hn. cbn. rewrite length_insert, take_insert_ge by done.
  repeat split; lia.
Qed.

Lemma preserves_bind {A B} (m : M A) (f : A → M B) (Q : A → Prop) (R : B → Prop) :
  preserves n m Q → (∀ a, Q a → preserves n (f a) R) → preserves n (m ≫= f) R.
Proof.
  intros Hm Hf w Hn. unfold mbind, M_bind.
  destruct (Hm w Hn) as (Ht & Hl & Hw & HQ).
  destruct (m w) as [[a|e] w1]; cbn in *; [|done].
  destruct (Hf a (HQ a eq_refl) w1) as (Ht' & Hl' & Hw' & HR); [lia|].
  repeat split; [congruence|lia|congruence|done].
Qed.

Lemma preserves_weaken {A} (m : M A) (Q R : A → Prop) :
  preserves n m Q → (∀ a, Q a → R a) → preserves n m R.
Proof.
  intros Hm HQR w Hn. destruct (Hm w Hn) as (? & ? & ? & ?). naive_solver.
Qed.

Lemma preserves_True {A} (m : M A) (Q : A → Prop) :
  preserves n m Q → preserves n m (λ _, True).
Proof. intros Hm. by eapply preserves_weaken. Qed.

Lemma preserves_copy r : preserves n (copy r) (λ r', n ≤ r')%nat.
Proof.
  eapply preserves_bind; [apply preserves_deref|]. intros df _.
  apply preserves_alloc.
Qed.

Lemma preserves_setitem {A} r label (upd : Row → A → Row) values :
  (n ≤ r)%nat → preserves n (setitem r label upd values) (λ _, True).
Proof.
  intros Hr. eapply preserves_bind; [apply preserves_deref|]. intros df _.
  by apply preserves_store.
Qed.

Lemma preserves_sort_values r : preserves n (sort_values r) (λ r', n ≤ r')%nat.
Proof.
  eapply preserves_bind; [apply preserves_deref|]. intros df _.
  eapply preserves_bind; [apply preserves_lift|]. intros sorted _.
  apply preserves_alloc.
Qed.
End Preserves.

(** One step of a frame proof: a bind whose first part is a known
    operation, a return, or a case analysis on the scrutinee of the
    program. *)
Ltac frame_step :=
  lazymatch goal with
  | |- preserves _ (mret _) _ => by apply preserves_ret
  | |- preserves _ (raise _) _ => apply preserves_raise
  | |- preserves _ (deref _ ≫= _) _ =>
    eapply preserves_bind; [apply preserves_deref|intros ? _]
  | |- preserves _ (lift _ ≫= _) _ =>
    eapply preserves_bind; [apply preserves_lift|intros ? _]
  | |- preserves _ (copy _ ≫= _) _ =>
    eapply preserves_bind; [apply preserves_copy|intros ? ?]
  | |- preserves _ (sort_values _ ≫= _) _ =>
    eapply preserves_bind; [apply preserves_sort_values|intros ? ?]
  | |- preserves _ (setitem _ _ _ _ ≫= _) _ =>
    eapply preserves_bind; [by apply preserves_setitem|intros ? _]
  | |- preserves _ (store _ _ ≫= _) _ =>
    eapply preserves_bind; [by apply preserves_store|intros ? _]
  | |- preserves _ (match ?x with _ => _ end) _ => destruct x
  | |- preserves _ (match ?x with _ => _ end ≫= _) _ => destruct x
  end.

Ltac frame := repeat frame_step.

Section CheckFrames.
Context (n : nat) (sqrtQ : Q → Q).

Lemma check_schema_frame r expected :
  preserves n (check_schema r expected) (λ _, True).
Proof. unfold check_schema. frame. Qed.

Lemma detect_schema_versioning_frame r expected :
  preserves n (detect_schema_versioning r expected) (λ _, True).
Proof. unfold detect_schema_versioning. frame. Qed.

Lemma check_duplicates_frame r : preserves n (check_duplicates r) (λ _, True).
Proof. unfold check_duplicates. frame. Qed.

Lemma check_date_continuity_frame r f a :
  preserves n (check_date_continuity r f a) (λ _, True).
Proof. unfold check_date_continuity. frame. Qed.

Lemma detect_level_shift_frame r win z :
  preserves n (detect_level_shift sqrtQ r win z) (λ _, True).
Proof. unfold detect_level_shift. frame. Qed.

Lemma detect_unit_price_mixup_frame r :
  preserves n (detect_unit_price_mixup r) (λ _, True).
Proof. unfold detect_unit_price_mixup. frame. Qed.

Lemma detect_partial_backfill_frame r t :
  preserves n (detect_partial_backfill r t) (λ _, True).
Proof. unfold detect_partial_backfill. frame. Qed.

Lemma detect_timezone_shift_frame r :
  preserves n (detect_timezone_shift r) (λ _, True).
Proof. unfold detect_timezone_shift. frame. Qed.

Lemma detect_seasonality_break_frame r :
  preserves n (detect_seasonality_break sqrtQ r) (λ _, True).
Proof. unfold detect_seasonality_break. frame. Qed.

Lemma side_overlaps_frame z s big :
  preserves n (side_overlaps z s big) (λ _, True).
Proof. unfold side_overlaps. frame. Qed.

Lemma side_hints_frame z side big mk hints :
  preserves n (side_hints z side big mk hints) (λ _, True).
Proof.
  unfold side_hints. frame.
  eapply preserves_bind; [apply side_overlaps_frame|intros ? _]. frame.
Qed.

Lemma promo_calendar_diagnostics_frame r p c :
  preserves n (promo_calendar_diagnostics r p c) (λ _, True).
Proof.
  unfold promo_calendar_diagnostics. frame.
  eapply preserves_bind; [apply side_hints_frame|intros ? _].
  eapply preserves_bind; [apply side_hints_frame|intros ? _].
  frame.
Qed.

Lemma run_check_frame c r p cal :
  preserves n (run_check sqrtQ c r p cal) (λ _, True).
Proof.
  destruct c; cbn [run_check];
    (eapply preserves_bind; [|intros ? _; by apply preserves_ret]).
  - apply check_schema_frame.
  - apply detect_schema_versioning_frame.
  - apply check_duplicates_frame.
  - apply check_date_continuity_frame.
  - apply detect_level_shift_frame.
  - apply detect_unit_price_mixup_frame.
  - apply detect_partial_backfill_frame.
  - apply detect_timezone_shift_frame.
  - apply detect_seasonality_break_frame.
  - apply promo_calendar_diagnostics_frame.
Qed.
End CheckFrames.

Lemma preserves_extends {A} (m : M A) Q w :
  preserves (length (heap w)) m Q → extends w (m w).2.
Proof.
  intros Hm. destruct (Hm w) as (Ht & Hl & Hw & _); [done|].
  split; [|done]. rewrite firstn_all in Ht. rewrite <- Ht.
  apply prefix_take.
Qed.

(** * Running the operations on the store *)

Lemma deref_fresh h wr df :
  deref (length h) (mkWorld (h ++ [df]) wr) = (Ok df, mkWorld (h ++ [df]) wr).
Proof. unfold deref. cbn. by rewrite list_lookup_middle. Qed.

Lemma store_fresh h wr df df' :
  store (length h) df' (mkWorld (h ++ [df]) wr) = (Ok (), mkWorld (h ++ [df']) wr).
Proof.
  unfold store. cbn. f_equal. f_equal.
  rewrite insert_app_r_alt, Nat.sub_diag by done. done.
Qed.

Lemma copy_lookup w r df :
  heap w !! r = Some df →
  copy r w = (Ok (length (heap w)), mkWorld (heap w ++ [df]) (written w)).
Proof. intros H. unfold copy, mbind, M_bind. by rewrite (deref_lookup _ _ _ H). Qed.

Lemma setitem_fresh {A} h wr df label (upd : Row → A → Row) values :
  setitem (length h) label upd values (mkWorld (h ++ [df]) wr)
  = (Ok (), mkWorld (h ++ [mkDF (if has_col df label then columns df
                                 else columns df ++ [label])
                                (zip_with upd (rows df) values) (tz df)]) wr).
Proof. unfold setitem, mbind, M_bind. by rewrite deref_fresh, store_fresh. Qed.

Lemma sort_values_fresh h wr df :
  sort_values (length h) (mkWorld (h ++ [df]) wr)
  = match sort_values_rows df with
    | Ok sorted => (Ok (length (h ++ [df])), mkWorld ((h ++ [df]) ++ [sorted]) wr)
    | Raise e => (Raise e, mkWorld (h ++ [df]) wr)
    end.
Proof.
  unfold sort_values, mbind, M_bind, lift. rewrite deref_fresh.
  by destruct (sort_values_rows df).
Qed.

(** Simplification of a run: the binds are unfolded and the operations on
    known objects replaced by their outcome. *)
Ltac run_with H :=
  unfold mbind, M_bind, mret, M_ret, lift;
  repeat first
    [ rewrite (deref_lookup _ _ _ H) | rewrite (copy_lookup _ _ _ H)
    | rewrite deref_fresh | rewrite setitem_fresh | rewrite store_fresh
    | rewrite sort_values_fresh ].

Section Independence.
Context (sqrtQ : Q → Q).
Context (w1 w2 : world) (r1 r2 : ref) (df : DataFrame).
Context (H1 : heap w1 !! r1 = Some df) (H2 : heap w2 !! r2 = Some df).

Lemma check_schema_indep expected :
  (check_schema r1 expected w1).1 = (check_schema r2 expected w2).1.
Proof using H1 H2. unfold check_schema. run_with H1. run_with H2. done. Qed.

Lemma detect_schema_versioning_indep expected :
  (detect_schema_versioning r1 expected w1).1
  = (detect_schema_versioning r2 expected w2).1.
Proof using H1 H2.
  unfold detect_schema_versioning. run_with H1. run_with H2. done.
Qed.

Lemma check_duplicates_indep :
  (check_duplicates r1 w1).1 = (check_duplicates r2 w2).1.
Proof using H1 H2.
  unfold check_duplicates. run_with H1. run_with H2. by case_match.
Qed.

Lemma check_date_continuity_indep f a :
  (check_date_continuity r1 f a w1).1 = (check_date_continuity r2 f a w2).1.
Proof using H1 H2.
  unfold check_date_continuity. run_with H1. run_with H2.
  repeat case_match; done.
Qed.

Lemma detect_unit_price_mixup_indep :
  (detect_unit_price_mixup r1 w1).1 = (detect_unit_price_mixup r2 w2).1.
Proof using H1 H2.
  unfold detect_unit_price_mixup. run_with H1. run_with H2.
  repeat case_match; done.
Qed.

Lemma detect_timezone_shift_indep :
  (detect_timezone_shift r1 w1).1 = (detect_timezone_shift r2 w2).1.
Proof using H1 H2.
  unfold detect_timezone_shift. run_with H1. run_with H2.
  repeat case_match; done.
Qed.

Lemma detect_seasonality_break_indep :
  (detect_seasonality_break sqrtQ r1 w1).1
  = (detect_seasonality_break sqrtQ r2 w2).1.
Proof using H1 H2.
  unfold detect_seasonality_break. run_with H1. run_with H2.
  repeat case_match; done.
Qed.

Lemma detect_level_shift_indep win z :
  (detect_level_shift sqrtQ r1 win z w1).1
  = (detect_level_shift sqrtQ r2 win z w2).1.
Proof using H1 H2.
  unfold detect_level_shift. run_with H1. run_with H2.
  destruct (negb _ || negb _); [done|].
  run_with H1. run_with H2.
  destruct (sort_values_rows df) as [sorted|e]; [|done].
  run_with H1.
  destruct (groupby_sku_store sorted); [|done].
  by destruct (foldl _ _ _) as [[??]?].
Qed.

Lemma detect_partial_backfill_indep t :
  (detect_partial_backfill r1 t w1).1 = (detect_partial_backfill r2 t w2).1.
Proof using H1 H2.
  unfold detect_partial_backfill. run_with H1. run_with H2.
  destruct (negb _ || negb _); [done|].
  run_with H1. run_with H2.
  destruct (negb (same_awareness _ _)); [done|].
  run_with H1. run_with H2. cbn [rows].
  destruct (bool_decide _); reflexivity.
Qed.
End Independence.

(** * The blocking policy *)

Lemma verdict_fail reasons : verdict reasons = "FAIL" ↔ reasons ≠ [].
Proof. unfold verdict. by destruct reasons. Qed.

Lemma verdict_pass reasons : verdict reasons = "PASS" ↔ reasons = [].
Proof. unfold verdict. by destruct reasons. Qed.

Lemma blocking_logic_table schema duplicates partial_backfill unit_price_mixup
    level_shift tz_shift :
  blocking_logic schema duplicates partial_backfill unit_price_mixup
    level_shift tz_shift
  = policy_reasons (policy_table schema duplicates partial_backfill
      unit_price_mixup level_shift tz_shift).
Proof.
  unfold blocking_logic, policy_table, policy_reasons.
  destruct schema as [missing ? ?], duplicates as [? ? dup_count ?],
    partial_backfill as [? ? ? pct ?], unit_price_mixup as [? ? ? ? suspected ?],
    level_shift as [? ? shifts ?], tz_shift as [? ? ? suspicious ?].
  cbn [Schema.missing_columns Duplicates.duplicate_count Backfill.pct_backfilled
       Mixup.suspected_unit_price_mixup LevelShift.groups_with_level_shift
       TzShift.suspicious DEFAULT_duplicate_block_threshold
       DEFAULT_level_shift_groups_threshold].
  assert (Qltb DEFAULT_partial_backfill_pct_threshold 0 = false) as H0 by done.
  destruct missing as [|? ?]; destruct dup_count as [[|?]|];
    destruct pct as [pct|]; unfold default; cbn [from_option id]; rewrite ?H0;
    try destruct (Qltb DEFAULT_partial_backfill_pct_threshold pct);
    destruct suspected as [[|]|]; destruct shifts as [[|?]|];
    destruct suspicious as [[|]|]; reflexivity.
Qed.

Lemma policy_reasons_order table :
  reason_tag <$> table.*2 = reason_order →
  reason_tag <$> policy_reasons table `sublist_of` reason_order.
Proof.
  intros <-. unfold policy_reasons.
  apply fmap_sublist, fmap_sublist, sublist_filter.
Qed.

(** C3. The blocking policy is a function of the diagnostic records: its
    reasons are those of the policy table whose condition holds, in the
    fixed order of the table; the verdict is FAIL exactly when there is a
    reason and PASS otherwise; all six reasons can occur together. *)
Theorem blocking_policy_deterministic_ordered :
  (∀ schema duplicates partial_backfill unit_price_mixup level_shift tz_shift,
     let reasons :=
       blocking_logic schema duplicates partial_backfill unit_price_mixup
         level_shift tz_shift in
     reasons = policy_reasons (policy_table schema duplicates partial_backfill
                 unit_price_mixup level_shift tz_shift)
     ∧ reason_tag <$> reasons `sublist_of` reason_order
     ∧ (verdict reasons = "FAIL" ↔ reasons ≠ [])
     ∧ (verdict reasons = "PASS" ↔ reasons = []))
  ∧ (∃ schema duplicates partial_backfill unit_price_mixup level_shift tz_shift,
       reason_tag <$> blocking_logic schema duplicates partial_backfill
         unit_price_mixup level_shift tz_shift = reason_order).
Proof.
  split.
  - intros. subst reasons. rewrite blocking_logic_table.
    split; [done|]. split; [by apply policy_reasons_order|].
    split; [apply verdict_fail|apply verdict_pass].
  - exists (Schema.mk ["currency"] [] false),
      (Duplicates.mk "ok" [] (Some 2%nat) []),
      (Backfill.mk "ok" (Some 2%nat) (Some 1%nat) (Some (1 # 2)) (Some NoHint)),
      (Mixup.mk "ok" None None None (Some true) None),
      (LevelShift.mk "ok" (Some 1%nat) (Some 1%nat) (Some [])),
      (TzShift.mk "ok" None None (Some true) None).
    reflexivity.
Qed.

(** * A file that cannot be read *)

(** C5. When the file cannot be read the analyzer returns at once: the
    report has the read error and no diagnostic record, its verdict is FAIL,
    its only reason is [read_error]; no object is created and no file is
    written. *)
Theorem analyze_file_read_error sqrtQ e path out promos_df calendar_df w msg :
  read_csv e path = inl msg →
  ∃ rep, analyze_file sqrtQ e path out promos_df calendar_df w = (Ok rep, w)
    ∧ Report.error rep = Some ("read_error: " +:+ msg)
    ∧ Report.schema rep = None ∧ Report.schema_versioning rep = None
    ∧ Report.duplicates rep = None ∧ Report.continuity rep = None
    ∧ Report.level_shift rep = None ∧ Report.unit_price_mixup rep = None
    ∧ Report.partial_backfill rep = None ∧ Report.tz_shift rep = None
    ∧ Report.seasonality rep = None ∧ Report.promo_calendar rep = None
    ∧ Report.blocking rep = "FAIL"
    ∧ Report.blocking_reasons rep = [ReadError].
Proof.
  intros Hread. unfold analyze_file. rewrite Hread.
  eexists. split; [reflexivity|]. cbn. repeat split.
Qed.

(** * Missing group columns *)

(** C2, at a table without [sku_id] and [store_id]: both group-wise checks
    raise [KeyError] where a record with a sentinel status is specified;
    the duplicate check on the same table returns its sentinel. *)
Theorem group_checks_raise_key_error :
  (check_date_continuity 0%nat 7 1 (world_of table_no_group_columns)).1
    = Raise (KeyError "sku_id")
  ∧ (detect_level_shift sqrt_down 0%nat 8 3 (world_of table_no_group_columns)).1
    = Raise (KeyError "sku_id")
  ∧ (∃ d, (check_duplicates 0%nat (world_of table_no_group_columns)).1 = Ok d
        ∧ Duplicates.status d = "pk_column_missing").
Proof.
  split; [by vm_compute|]. split; [by vm_compute|].
  eexists. split; by vm_compute.
Qed.

(** * The side tables of the promo/calendar check *)

Lemma world_app_nil w : mkWorld (heap w ++ []) (written w) = w.
Proof. destruct w. cbn. by rewrite app_nil_r. Qed.

Lemma side_hints_rel z w1 w2 side big mk hints :
  (∀ s, side = Some s →
     is_Some (heap w1 !! s) ∧ heap w1 !! s = heap w2 !! s) →
  ∃ x l1 l2,
    side_hints z side big mk hints w1 = (x, mkWorld (heap w1 ++ l1) (written w1))
    ∧ side_hints z side big mk hints w2 = (x, mkWorld (heap w2 ++ l2) (written w2)).
Proof.
  intros Hside. destruct side as [s|]; cbn [side_hints].
  - destruct (Hside s eq_refl) as [[ds H1] H2]. rewrite H1 in H2. symmetry in H2.
    run_with H1. run_with H2.
    destruct (has_col ds "week_start") eqn:Hcol.
    + unfold side_overlaps. run_with H1. run_with H2.
      unfold getitem. rewrite Hcol. run_with H1.
      destruct (to_datetime_refuses _ _ _).
      * by eexists _, [_], [_].
      * run_with H1. by eexists _, [_], [_].
    + exists (Ok hints), [], []. by rewrite !world_app_nil.
  - exists (Ok hints), [], []. by rewrite !world_app_nil.
Qed.

Lemma promo_calendar_diagnostics_indep w1 w2 r df p cal :
  heap w1 !! r = Some df → heap w2 !! r = Some df →
  (∀ s, p = Some s → is_Some (heap w1 !! s) ∧ heap w1 !! s = heap w2 !! s) →
  (∀ s, cal = Some s → is_Some (heap w1 !! s) ∧ heap w1 !! s = heap w2 !! s) →
  (promo_calendar_diagnostics r p cal w1).1
  = (promo_calendar_diagnostics r p cal w2).1.
Proof.
  intros H1 H2 Hp Hc. unfold promo_calendar_diagnostics.
  destruct (bool_decide (p = None) && bool_decide (cal = None)); [done|].
  run_with H1. run_with H2.
  destruct (negb _ || negb _); [done|].
  destruct (_ <? 4)%nat; [done|].
  destruct (bool_decide _); [done|].
  destruct (side_hints_rel (week_start_tz (tz df)) w1 w2 p
              (big_changes (weekly_units (rows df)))
              HintPromoOverlap [] Hp) as ([v|?] & l1 & l2 & -> & ->); [|done].
  destruct (side_hints_rel (week_start_tz (tz df))
              (mkWorld (heap w1 ++ l1) (written w1))
              (mkWorld (heap w2 ++ l2) (written w2)) cal
              (big_changes (weekly_units (rows df)))
              HintCalendarOverlap v) as ([v'|?] & l1' & l2' & -> & ->); [|done..].
  intros s Hs. destruct (Hc s Hs) as [[ds E1] E2]. cbn [heap].
  rewrite E1 in E2. symmetry in E2.
  rewrite (lookup_app_l_Some _ _ _ _ E1), (lookup_app_l_Some _ _ _ _ E2).
  by split; [eexists|].
Qed.

(** * Every check, by its name *)

Lemma run_check_indep sqrtQ c w1 w2 r df p cal :
  heap w1 !! r = Some df → heap w2 !! r = Some df →
  (∀ s, p = Some s → is_Some (heap w1 !! s) ∧ heap w1 !! s = heap w2 !! s) →
  (∀ s, cal = Some s → is_Some (heap w1 !! s) ∧ heap w1 !! s = heap w2 !! s) →
  (run_check sqrtQ c r p cal w1).1 = (run_check sqrtQ c r p cal w2).1.
Proof.
  intros H1 H2 Hp Hc.
  assert (∀ {A B} (m : M A) (f : A → B) (w w' : world),
    (m w).1 = (m w').1 → ((x ← m; mret (f x)) w).1 = ((x ← m; mret (f x)) w').1)
    as Hmap.
  { intros A B m f w w'. unfold mbind, M_bind, mret, M_ret.
    destruct (m w) as [[?|?] ?], (m w') as [[?|?] ?]; cbn; congruence. }
  destruct c; cbn [run_check]; apply Hmap.
  - by eapply check_schema_indep.
  - by eapply detect_schema_versioning_indep.
  - by eapply check_duplicates_indep.
  - by eapply check_date_continuity_indep.
  - by eapply detect_level_shift_indep.
  - by eapply detect_unit_price_mixup_indep.
  - by eapply detect_partial_backfill_indep.
  - by eapply detect_timezone_shift_indep.
  - by eapply detect_seasonality_break_indep.
  - by eapply promo_calendar_diagnostics_indep.
Qed.

Lemma extends_lookup w w' i df :
  extends w w' → heap w !! i = Some df → heap w' !! i = Some df.
Proof. intros [Hpre _] Hi. by eapply prefix_lookup_Some. Qed.

(** C9. A check changes no object that existed before it ran (the table
    passed in, the side tables) and writes no file; hence a check returns
    the same result whether or not another check has run before it. *)
Theorem checks_leave_tables_unchanged sqrtQ c r p cal w :
  is_Some (heap w !! r) → side_valid w p → side_valid w cal →
  let w' := (run_check sqrtQ c r p cal w).2 in
  (∀ i df, heap w !! i = Some df → heap w' !! i = Some df)
  ∧ written w' = written w
  ∧ ∀ c', (run_check sqrtQ c' r p cal w').1 = (run_check sqrtQ c' r p cal w).1.
Proof.
  intros [df Hr] Hp Hc w'.
  assert (extends w w') as Hext.
  { eapply preserves_extends, run_check_frame. }
  split; [intros i d; by apply extends_lookup|]. split; [apply Hext|].
  intros c'. eapply run_check_indep.
  - by eapply extends_lookup.
  - done.
  - intros s Hs. destruct (Hp s Hs) as [ds E].
    pose proof (extends_lookup _ _ _ _ Hext E) as E'.
    split; [by eexists|]. etrans; [exact E'|by symmetry].
  - intros s Hs. destruct (Hc s Hs) as [ds E].
    pose proof (extends_lookup _ _ _ _ Hext E) as E'.
    split; [by eexists|]. etrans; [exact E'|by symmetry].
Qed.

(** * Checks that return a record *)

Lemma returns_of_ok {A} (m : M A) w d :
  preserves (length (heap w)) m (λ _, True) → (m w).1 = Ok d →
  ∃ w', m w = (Ok d, w') ∧ extends w w'.
Proof.
  intros Hm Hd. exists (m w).2. split; [|by eapply preserves_extends].
  destruct (m w); cbn in *. by subst.
Qed.

Lemma groupby_sku_store_ok df :
  "sku_id" ∈ columns df → "store_id" ∈ columns df →
  ∃ g, groupby_sku_store df = Ok g.
Proof.
  intros Hs Ht. unfold groupby_sku_store.
  assert (first_missing df ["sku_id"; "store_id"] = None) as ->; [|by eexists].
  apply first_missing_None. by repeat constructor.
Qed.

Lemma sort_values_rows_ok df :
  "sku_id" ∈ columns df → "store_id" ∈ columns df → "week_start" ∈ columns df →
  sort_values_rows df
  = Ok (mkDF (columns df)
          (sort_by (λ a b, sort_key_leb (sort_key_of a) (sort_key_of b)) (rows df))
          (tz df)).
Proof.
  intros Hs Ht Hw. unfold sort_values_rows.
  assert (first_missing df ["sku_id"; "store_id"; "week_start"] = None) as ->; [|done].
  apply first_missing_None. by repeat constructor.
Qed.

Section Returns.
Context (sqrtQ : Q → Q) (w : world) (r : ref) (df : DataFrame).
Context (Hr : heap w !! r = Some df).

Lemma check_schema_ok expected : ∃ d, (check_schema r expected w).1 = Ok d.
Proof using Hr. unfold check_schema. run_with Hr. by eexists. Qed.

Lemma detect_schema_versioning_ok expected :
  ∃ d, (detect_schema_versioning r expected w).1 = Ok d.
Proof using Hr. unfold detect_schema_versioning. run_with Hr. by eexists. Qed.

Lemma check_duplicates_ok : ∃ d, (check_duplicates r w).1 = Ok d.
Proof using Hr. unfold check_duplicates. run_with Hr. case_match; by eexists. Qed.

Lemma detect_unit_price_mixup_ok : ∃ d, (detect_unit_price_mixup r w).1 = Ok d.
Proof using Hr.
  unfold detect_unit_price_mixup. run_with Hr. repeat case_match; by eexists.
Qed.

Lemma detect_timezone_shift_ok : ∃ d, (detect_timezone_shift r w).1 = Ok d.
Proof using Hr.
  unfold detect_timezone_shift. run_with Hr. repeat case_match; by eexists.
Qed.

Lemma detect_seasonality_break_ok :
  ∃ d, (detect_seasonality_break sqrtQ r w).1 = Ok d.
Proof using Hr.
  unfold detect_seasonality_break. run_with Hr. repeat case_match; by eexists.
Qed.

Lemma detect_partial_backfill_ok t :
  ("week_start" ∈ columns df → "load_ts_parsed" ∈ columns df →
   same_awareness (load_ts_parsed_tz (tz df)) (week_start_tz (tz df)) = true) →
  ∃ d, (detect_partial_backfill r t w).1 = Ok d.
Proof using Hr.
  intros Hzone. unfold detect_partial_backfill. run_with Hr.
  destruct (negb _ || negb _) eqn:E; [by eexists|]. run_with Hr.
  apply orb_false_iff in E as [Hw Hl].
  apply negb_false_iff, bool_decide_eq_true in Hw, Hl.
  rewrite (Hzone Hw Hl). cbn [negb]. run_with Hr.
  destruct (bool_decide _); by eexists.
Qed.

(** The subtraction of a tz-aware column and a column without time zone
    raises. *)
Lemma detect_partial_backfill_raises t :
  "week_start" ∈ columns df → "load_ts_parsed" ∈ columns df →
  same_awareness (load_ts_parsed_tz (tz df)) (week_start_tz (tz df)) = false →
  (detect_partial_backfill r t w).1 = Raise TypeError.
Proof using Hr.
  intros Hw Hl Hzone. unfold detect_partial_backfill. run_with Hr.
  unfold has_col. rewrite !bool_decide_true by done. cbn [negb orb].
  run_with Hr. by rewrite Hzone.
Qed.

Context (Hgroup : "week_start" ∈ columns df →
                  "sku_id" ∈ columns df ∧ "store_id" ∈ columns df).

Lemma check_date_continuity_ok f a :
  ∃ d, (check_date_continuity r f a w).1 = Ok d.
Proof using Hr Hgroup.
  unfold check_date_continuity. run_with Hr. unfold has_col.
  destruct (decide ("week_start" ∈ columns df)) as [Hw|Hw].
  - rewrite bool_decide_true by done. cbn [negb].
    destruct (Hgroup Hw) as [Hs Ht].
    destruct (groupby_sku_store_ok df Hs Ht) as [g ->].
    destruct (foldl _ _ _) as [[??]?]. by eexists.
  - rewrite bool_decide_false by done. by eexists.
Qed.

Lemma detect_level_shift_ok win z :
  ∃ d, (detect_level_shift sqrtQ r win z w).1 = Ok d.
Proof using Hr Hgroup.
  unfold detect_level_shift. run_with Hr.
  destruct (negb (has_col df "units") || negb (has_col df "week_start")) eqn:E;
    [by eexists|].
  apply orb_false_iff in E as [_ Hw]. apply negb_false_iff in Hw.
  apply bool_decide_eq_true in Hw. destruct (Hgroup Hw) as [Hs Ht].
  run_with Hr. rewrite (sort_values_rows_ok df Hs Ht Hw). run_with Hr.
  match goal with
  | |- context [groupby_sku_store ?sorted] =>
    destruct (groupby_sku_store_ok sorted Hs Ht) as [g ->]
  end.
  destruct (foldl _ _ _) as [[??]?]. by eexists.
Qed.
End Returns.

(** A side table that can be read gives its hint, or none. *)
Lemma side_hints_run z w side big mk hints :
  side_valid w side → side_readable w side →
  ∃ v l,
    side_hints z side big mk hints w = (Ok v, mkWorld (heap w ++ l) (written w))
    ∧ (v = hints ∨ ∃ overlaps, overlaps ≠ [] ∧ v = hints ++ [mk overlaps]).
Proof.
  intros Hside Hread. destruct side as [s|]; cbn [side_hints].
  - destruct (Hside s eq_refl) as [ds H1]. run_with H1.
    destruct (has_col ds "week_start") eqn:Hcol.
    + unfold side_overlaps. run_with H1.
      unfold getitem. rewrite Hcol. run_with H1.
      rewrite (Hread s ds eq_refl H1) by (by apply bool_decide_eq_true in Hcol).
      run_with H1.
      eexists _, [_]. split; [reflexivity|].
      case_bool_decide as E; [by left|right]. by eexists.
    + exists hints, []. rewrite world_app_nil. split; [done|by left].
  - exists hints, []. rewrite world_app_nil. split; [done|by left].
Qed.

Lemma side_valid_app w l wr side :
  side_valid w side → side_valid (mkWorld (heap w ++ l) wr) side.
Proof.
  intros Hside s Hs. destruct (Hside s Hs) as [ds E]. exists ds. cbn [heap].
  by apply lookup_app_l_Some.
Qed.

Lemma side_readable_app w l wr side :
  side_valid w side → side_readable w side →
  side_readable (mkWorld (heap w ++ l) wr) side.
Proof.
  intros Hside Hread s df Hs Hdf. destruct (Hside s Hs) as [ds E].
  cbn [heap] in Hdf. pose proof (lookup_app_l_Some _ l _ _ E) as E'.
  assert (Some df = Some ds) as [= ->]
    by (etrans; [symmetry; exact Hdf|exact E']).
  by apply (Hread s).
Qed.

Lemma promo_calendar_diagnostics_ok w r df p cal :
  heap w !! r = Some df → side_valid w p → side_valid w cal →
  side_readable w p → side_readable w cal →
  ∃ d, (promo_calendar_diagnostics r p cal w).1 = Ok d.
Proof.
  intros Hr Hp Hc Hrp Hrc. unfold promo_calendar_diagnostics.
  destruct (bool_decide (p = None) && bool_decide (cal = None)); [by eexists|].
  run_with Hr.
  destruct (negb _ || negb _); [by eexists|].
  destruct (_ <? 4)%nat; [by eexists|].
  destruct (bool_decide _); [by eexists|].
  destruct (side_hints_run (week_start_tz (tz df)) w p
              (big_changes (weekly_units (rows df)))
              HintPromoOverlap [] Hp Hrp) as (v & l1 & -> & _).
  destruct (side_hints_run (week_start_tz (tz df))
              (mkWorld (heap w ++ l1) (written w)) cal
              (big_changes (weekly_units (rows df)))
              HintCalendarOverlap v) as (v' & l1' & -> & _);
    [by apply side_valid_app|by apply side_readable_app|].
  by eexists.
Qed.

(** * The normalizer *)

Lemma zip_with_proj {A} (upd : Row → A → Row) (proj : Row → A) (l : list Row) :
  zip_with upd l (proj <$> l) = (λ x, upd x (proj x)) <$> l.
Proof. induction l as [|x l IH]; [done|]. cbn. by rewrite IH. Qed.

Lemma setitem_same {A} df label (upd : Row → A → Row) (proj : Row → A) :
  has_col df label = true → (∀ x, upd x (proj x) = x) →
  mkDF (if has_col df label then columns df else columns df ++ [label])
       (zip_with upd (rows df) (proj <$> rows df)) (tz df) = df.
Proof.
  intros -> Hid. rewrite zip_with_proj.
  rewrite (list_fmap_ext _ id (rows df)) by (intros; apply Hid).
  rewrite list_fmap_id. by destruct df.
Qed.

Lemma bind_run {A B} (m : M A) (f : A → M B) w a w' :
  m w = (Ok a, w') → (m ≫= f) w = f a w'.
Proof. intros E. unfold mbind, M_bind. by rewrite E. Qed.

Lemma bind_raise {A B} (m : M A) (f : A → M B) w e w' :
  m w = (Raise e, w') → (m ≫= f) w = (Raise e, w').
Proof. intros E. unfold mbind, M_bind. by rewrite E. Qed.

(** A coercion of [normalize_df] that is not refused writes back what the
    column holds. *)
Lemma coerce_run {A B} h wr df label (upd : Row → A → Row) (proj : Row → A)
    (refuses : bool) (e : exn) (k : M B) :
  (∀ x, upd x (proj x) = x) →
  has_col df label && refuses = false →
  ((if has_col df label then
      if refuses then raise e else setitem (length h) label upd (proj <$> rows df)
    else mret ());; k) (mkWorld (h ++ [df]) wr)
  = k (mkWorld (h ++ [df]) wr).
Proof.
  intros Hid Href. destruct (has_col df label) eqn:E.
  - cbn in Href. subst refuses.
    erewrite bind_run; [done|]. rewrite setitem_fresh.
    by rewrite setitem_same.
  - by erewrite bind_run.
Qed.

(** A coercion that is refused ends the run. *)
Lemma coerce_raise {A B} h wr df label (upd : Row → A → Row) (proj : Row → A)
    (refuses : bool) (e : exn) (k : M B) :
  has_col df label && refuses = true →
  ((if has_col df label then
      if refuses then raise e else setitem (length h) label upd (proj <$> rows df)
    else mret ());; k) (mkWorld (h ++ [df]) wr)
  = (Raise e, mkWorld (h ++ [df]) wr).
Proof.
  intros [-> ->]%andb_true_iff. by erewrite bind_raise.
Qed.

Lemma repeated_label_has_col df label :
  repeated_label df label = true → has_col df label = true.
Proof.
  unfold repeated_label, has_col. intros H%bool_decide_eq_true.
  apply bool_decide_eq_true.
  destruct (filter _ _) as [|c l] eqn:E; [cbn in H; lia|].
  assert (c ∈ filter (λ c, c = label) (columns df)) as Hc by (rewrite E; left).
  by apply list_elem_of_filter in Hc as [-> ?].
Qed.

Lemma set_load_ts_parsed_tz_fresh h wr df z :
  set_load_ts_parsed_tz (length h) z (mkWorld (h ++ [df]) wr)
  = (Ok (), mkWorld (h ++ [mkDF (columns df) (rows df)
                             (mkZones (week_start_tz (tz df)) (load_ts_tz (tz df)) z)])
              wr).
Proof.
  unfold set_load_ts_parsed_tz, mbind, M_bind. by rewrite deref_fresh, store_fresh.
Qed.

(** On a table whose coercions are not refused, [normalize_df] returns a
    new object, the normalized table. *)
Lemma normalize_df_run w r df :
  heap w !! r = Some df → normalize_raises df = None →
  normalize_df r w
  = (Ok (length (heap w)), mkWorld (heap w ++ [normalized df]) (written w)).
Proof.
  intros Hr Hn. unfold normalize_raises in Hn.
  destruct (repeated_label _ "units") eqn:Eu; [done|].
  destruct (repeated_label _ "price") eqn:Ep; [done|].
  destruct (has_col _ "week_start" && _) eqn:Ew; [done|].
  destruct (has_col _ "load_ts" && _) eqn:El; [done|]. clear Hn.
  unfold normalize_df.
  erewrite bind_run by (by apply copy_lookup).
  erewrite bind_run by apply deref_fresh.
  erewrite bind_run by apply store_fresh.
  erewrite bind_run by apply deref_fresh.
  rewrite coerce_run; [|by intros []|by rewrite Eu, andb_false_r].
  erewrite bind_run by apply deref_fresh.
  rewrite coerce_run; [|by intros []|by rewrite Ep, andb_false_r].
  erewrite bind_run by apply deref_fresh.
  rewrite coerce_run; [|by intros []|exact Ew].
  erewrite bind_run by apply deref_fresh.
  unfold normalized. unfold has_col in El |- *. cbn [columns rows tz] in El |- *.
  destruct (bool_decide ("load_ts" ∈ strip <$> columns df)).
  - cbn [andb] in El. rewrite El.
    erewrite bind_run.
    2:{ erewrite bind_run by apply setitem_fresh.
        apply set_load_ts_parsed_tz_fresh. }
    cbn [columns rows tz week_start_tz load_ts_tz].
    unfold mret, M_ret, has_col. cbn [columns].
    by rewrite zip_with_proj.
  - by erewrite bind_run.
Qed.

(** On a table with a coercion that is refused, [normalize_df] raises,
    after it has made its copy. *)
Lemma normalize_df_raise w r df e :
  heap w !! r = Some df → normalize_raises df = Some e →
  normalize_df r w
  = (Raise e, mkWorld (heap w ++ [mkDF (strip <$> columns df) (rows df) (tz df)])
                (written w)).
Proof.
  intros Hr Hn. unfold normalize_raises in Hn.
  destruct (repeated_label _ "units") eqn:Eu.
  { injection Hn as <-. unfold normalize_df.
    erewrite bind_run by (by apply copy_lookup).
    erewrite bind_run by apply deref_fresh.
    erewrite bind_run by apply store_fresh.
    erewrite bind_run by apply deref_fresh.
    apply coerce_raise. by rewrite Eu, (repeated_label_has_col _ _ Eu). }
  destruct (repeated_label _ "price") eqn:Ep.
  { injection Hn as <-. unfold normalize_df.
    erewrite bind_run by (by apply copy_lookup).
    erewrite bind_run by apply deref_fresh.
    erewrite bind_run by apply store_fresh.
    erewrite bind_run by apply deref_fresh.
    rewrite coerce_run; [|by intros []|by rewrite Eu, andb_false_r].
    erewrite bind_run by apply deref_fresh.
    apply coerce_raise. by rewrite Ep, (repeated_label_has_col _ _ Ep). }
  destruct (has_col _ "week_start" && _) eqn:Ew.
  { injection Hn as <-. unfold normalize_df.
    erewrite bind_run by (by apply copy_lookup).
    erewrite bind_run by apply deref_fresh.
    erewrite bind_run by apply store_fresh.
    erewrite bind_run by apply deref_fresh.
    rewrite coerce_run; [|by intros []|by rewrite Eu, andb_false_r].
    erewrite bind_run by apply deref_fresh.
    rewrite coerce_run; [|by intros []|by rewrite Ep, andb_false_r].
    erewrite bind_run by apply deref_fresh.
    by apply coerce_raise. }
  destruct (has_col _ "load_ts" && _) eqn:El; [|done].
  injection Hn as <-. unfold normalize_df.
  erewrite bind_run by (by apply copy_lookup).
  erewrite bind_run by apply deref_fresh.
  erewrite bind_run by apply store_fresh.
  erewrite bind_run by apply deref_fresh.
  rewrite coerce_run; [|by intros []|by rewrite Eu, andb_false_r].
  erewrite bind_run by apply deref_fresh.
  rewrite coerce_run; [|by intros []|by rewrite Ep, andb_false_r].
  erewrite bind_run by apply deref_fresh.
  rewrite coerce_run; [|by intros []|exact Ew].
  erewrite bind_run by apply deref_fresh.
  apply andb_true_iff in El as [E1 E2].
  rewrite E1. cbn [tz] in E2 |- *. rewrite E2. by erewrite bind_raise.
Qed.

(** * The analyzer on a readable file *)

Lemma extends_trans w1 w2 w3 : extends w1 w2 → extends w2 w3 → extends w1 w3.
Proof. intros [H1 E1] [H2 E2]. split; [by etrans|congruence]. Qed.

Lemma side_valid_extends w w' side :
  extends w w' → side_valid w side → side_valid w' side.
Proof.
  intros Hext Hv s Hs. destruct (Hv s Hs) as [ds E].
  exists ds. by eapply extends_lookup.
Qed.

Lemma side_readable_extends w w' side :
  extends w w' → side_valid w side → side_readable w side → side_readable w' side.
Proof.
  intros Hext Hv Hread s df Hs Hdf. destruct (Hv s Hs) as [ds E].
  pose proof (extends_lookup _ _ _ _ Hext E) as E'.
  assert (Some df = Some ds) as [= ->]
    by (etrans; [symmetry; exact Hdf|exact E']).
  by apply (Hread s).
Qed.

Lemma normalized_keeps table c :
  c ∈ strip <$> columns table → c ∈ columns (normalized table).
Proof.
  intros Hc. unfold normalized. repeat case_bool_decide; cbn; [done| |done].
  apply elem_of_app. by left.
Qed.

Lemma repeated_label_NoDup df label :
  NoDup (columns df) → repeated_label df label = false.
Proof.
  intros Hnd. apply bool_decide_eq_false.
  pose proof (occurrences_NoDup label (columns df) Hnd) as Hle.
  unfold occurrences in Hle. lia.
Qed.

(** A table that goes through is normalized without an exception. *)
Lemma goes_through_normalizes table :
  goes_through table → normalize_raises table = None.
Proof.
  intros (Hnd & Hw & Hl & _). unfold normalize_raises.
  rewrite !repeated_label_NoDup by done.
  unfold to_datetime_refuses. rewrite !repeated_label_NoDup by done.
  cbn [orb]. unfold has_col. cbn [columns].
  case_bool_decide as Ew.
  { destruct (Hw (normalized_keeps _ _ Ew)) as [-> _]. cbn [andb].
    case_bool_decide as El; [|done].
    by rewrite (Hl (normalized_keeps _ _ El)). }
  cbn [andb]. case_bool_decide as El; [|done].
  by rewrite (Hl (normalized_keeps _ _ El)).
Qed.

(** One check of the analyzer: it returns a record, the one it returns on
    the table alone, and the objects known so far stay. *)
Ltac check_step ok frame indep :=
  let d := fresh "d" in
  let Hd := fresh "Hd" in
  let w' := fresh "w" in
  let E := fresh "E" in
  let Hext := fresh "Hext" in
  match goal with
  | Hlk : heap ?w0 !! ?r = Some ?df, Hall : extends _ ?w0,
    H0 : heap (world_of ?df) !! 0%nat = Some ?df |- _ =>
    destruct (ok w0 r df Hlk) as [d Hd];
    destruct (returns_of_ok _ _ _ (frame (length (heap w0)) r) Hd)
      as (w' & E & Hext);
    erewrite bind_run by exact E;
    rewrite (indep w0 (world_of df) r 0%nat df Hlk H0) in Hd;
    pose proof (extends_lookup _ _ _ _ Hext Hlk);
    pose proof (extends_trans _ _ _ Hall Hext);
    clear Hlk Hall E Hext
  end.

Lemma analyze_file_report sqrtQ e path out p cal w_in table :
  read_csv e path = inr table → goes_through table →
  side_valid w_in p → side_valid w_in cal →
  side_readable w_in p → side_readable w_in cal →
  ∃ schema schema_versioning duplicates continuity level_shift unit_price_mixup
    partial_backfill tz_shift seasonality promo_calendar w',
    let df := world_of (normalized table) in
    let reasons :=
      blocking_logic schema duplicates partial_backfill unit_price_mixup
        level_shift tz_shift in
    let rep :=
      Report.mk (path_name path) (utcnow e +:+ "Z") None
        (Some schema) (Some schema_versioning) (Some duplicates)
        (Some continuity) (Some level_shift) (Some unit_price_mixup)
        (Some partial_backfill) (Some tz_shift) (Some seasonality)
        (Some promo_calendar) (verdict reasons) reasons in
    analyze_file sqrtQ e path out p cal w_in = (Ok rep, w')
    ∧ (check_schema 0%nat (Some expected_schema_v1) df).1 = Ok schema
    ∧ (detect_schema_versioning 0%nat (Some expected_schema_v1) df).1
      = Ok schema_versioning
    ∧ (check_duplicates 0%nat df).1 = Ok duplicates
    ∧ (check_date_continuity 0%nat 7 1 df).1 = Ok continuity
    ∧ (detect_level_shift sqrtQ 0%nat 8 3 df).1 = Ok level_shift
    ∧ (detect_unit_price_mixup 0%nat df).1 = Ok unit_price_mixup
    ∧ (detect_partial_backfill 0%nat 30 df).1 = Ok partial_backfill
    ∧ (detect_timezone_shift 0%nat df).1 = Ok tz_shift
    ∧ (detect_seasonality_break sqrtQ 0%nat df).1 = Ok seasonality
    ∧ heap w_in `prefix_of` heap w'
    ∧ written w'
      = written w_in
        ++ [JsonReport (out +:+ "/" +:+ path_stem path +:+ "_dq_report.json") rep].
Proof.
  intros Hread Hgo Hp Hc Hrp Hrc. unfold analyze_file. rewrite Hread.
  erewrite bind_run by reflexivity.
  erewrite bind_run;
    [|apply normalize_df_run;
      [apply list_lookup_middle; done|by apply goes_through_normalizes]].
  cbn [heap written].
  assert ("week_start" ∈ columns (normalized table) →
          "sku_id" ∈ columns (normalized table)
          ∧ "store_id" ∈ columns (normalized table)) as Hgroup.
  { intros Hw. by apply Hgo. }
  assert ("week_start" ∈ columns (normalized table) →
          "load_ts_parsed" ∈ columns (normalized table) →
          same_awareness (load_ts_parsed_tz (tz (normalized table)))
            (week_start_tz (tz (normalized table))) = true) as Hzone.
  { apply Hgo. }
  clear Hgo.
  set (df := normalized table) in *.
  set (r_df := length (heap w_in ++ [table])).
  set (w0 := mkWorld ((heap w_in ++ [table]) ++ [df]) (written w_in)).
  assert (heap w0 !! r_df = Some df) as Hlk by (by apply list_lookup_middle).
  assert (extends w_in w0) as Hall.
  { split; [|done]. cbn. rewrite <- app_assoc. by apply prefix_app_r. }
  assert (heap (world_of df) !! 0%nat = Some df) as H0 by done.
  check_step (λ w' r' df' H, check_schema_ok w' r' df' H (Some expected_schema_v1))
    (λ n r', check_schema_frame n r' (Some expected_schema_v1))
    (λ w1 w2 r1 r2 df' H1 H2,
       check_schema_indep w1 w2 r1 r2 df' H1 H2 (Some expected_schema_v1)).
  check_step
    (λ w' r' df' H, detect_schema_versioning_ok w' r' df' H (Some expected_schema_v1))
    (λ n r', detect_schema_versioning_frame n r' (Some expected_schema_v1))
    (λ w1 w2 r1 r2 df' H1 H2,
       detect_schema_versioning_indep w1 w2 r1 r2 df' H1 H2 (Some expected_schema_v1)).
  check_step check_duplicates_ok check_duplicates_frame check_duplicates_indep.
  check_step (λ w' r' (df' : DataFrame) (H : heap w' !! r' = Some df),
       check_date_continuity_ok w' r' df H Hgroup 7%Z 1%Z)
    (λ n r', check_date_continuity_frame n r' 7%Z 1%Z)
    (λ w1 w2 r1 r2 df' H1 H2, check_date_continuity_indep w1 w2 r1 r2 df' H1 H2 7%Z 1%Z).
  check_step (λ w' r' (df' : DataFrame) (H : heap w' !! r' = Some df),
       detect_level_shift_ok sqrtQ w' r' df H Hgroup 8%nat 3%Q)
    (λ n r', detect_level_shift_frame n sqrtQ r' 8%nat 3%Q)
    (λ w1 w2 r1 r2 df' H1 H2,
       detect_level_shift_indep sqrtQ w1 w2 r1 r2 df' H1 H2 8%nat 3%Q).
  check_step detect_unit_price_mixup_ok detect_unit_price_mixup_frame
    detect_unit_price_mixup_indep.
  check_step (λ w' r' (df' : DataFrame) (H : heap w' !! r' = Some df),
       detect_partial_backfill_ok w' r' df H 30%Z Hzone)
    (λ n r', detect_partial_backfill_frame n r' 30%Z)
    (λ w1 w2 r1 r2 df' H1 H2, detect_partial_backfill_indep w1 w2 r1 r2 df' H1 H2 30%Z).
  check_step detect_timezone_shift_ok detect_timezone_shift_frame
    detect_timezone_shift_indep.
  check_step (detect_seasonality_break_ok sqrtQ)
    (λ n r', detect_seasonality_break_frame n sqrtQ r')
    (detect_seasonality_break_indep sqrtQ).
  match goal with
  | Hlk : heap ?w0 !! r_df = Some df, Hall : extends w_in ?w0 |- _ =>
    destruct (promo_calendar_diagnostics_ok w0 r_df df p cal Hlk
                (side_valid_extends _ _ _ Hall Hp) (side_valid_extends _ _ _ Hall Hc)
                (side_readable_extends _ _ _ Hall Hp Hrp)
                (side_readable_extends _ _ _ Hall Hc Hrc))
      as [promo Hpromo];
    destruct (returns_of_ok _ _ _
                (promo_calendar_diagnostics_frame (length (heap w0)) r_df p cal) Hpromo)
      as (wp & E & Hext);
    erewrite bind_run by exact E;
    pose proof (extends_trans _ _ _ Hall Hext) as [Hpre Hwr]
  end.
  erewrite bind_run by reflexivity.
  eexists _, _, _, _, _, _, _, _, _, _, _.
  cbn zeta. split; [reflexivity|]. cbn [heap written].
  rewrite Hwr. by repeat split.
Qed.

(** * Sorting *)

Section Sort.
Context {A : Type} (le : A → A → bool).

Lemma insert_by_Permutation x l : insert_by le x l ≡ₚ x :: l.
Proof.
  induction l as [|y l IH]; [done|]. cbn.
  destruct (le x y); [done|]. rewrite IH. apply Permutation_swap.
Qed.

Lemma sort_by_Permutation l : sort_by le l ≡ₚ l.
Proof.
  induction l as [|x l IH]; [done|]. cbn.
  by rewrite insert_by_Permutation, IH.
Qed.

Lemma sort_by_length l : length (sort_by le l) = length l.
Proof. by rewrite sort_by_Permutation. Qed.

Lemma sort_by_Forall (P : A → Prop) l : Forall P l → Forall P (sort_by le l).
Proof. by rewrite sort_by_Permutation. Qed.
End Sort.

(** * The median of equal values *)

Lemma median_constant (c : Q) xs :
  xs ≠ [] → Forall (λ x, x == c) xs → ∃ m, median xs = Some m ∧ m == c.
Proof.
  intros Hne Hall. unfold median.
  pose proof (sort_by_Forall Qle_bool _ _ Hall) as Hs.
  pose proof (sort_by_length Qle_bool xs) as Hlen.
  set (s := sort_by Qle_bool xs) in *.
  assert (0 < length s)%nat as Hpos by (rewrite Hlen; destruct xs; cbn; [done|lia]).
  destruct (length s) as [|n] eqn:En; [lia|]. rewrite <- En.
  assert (∀ i, (i < length s)%nat → ∃ a, s !! i = Some a ∧ a == c) as Hget.
  { intros i Hi. destruct (lookup_lt_is_Some_2 s i Hi) as [a Ha].
    exists a. split; [done|]. by eapply (Forall_lookup_1 _ _ _ _ Hs). }
  destruct (Nat.odd (length s)).
  - apply Hget. apply Nat.div_lt; lia.
  - destruct (Hget (length s / 2 - 1)%nat) as (a & -> & Ha).
    { pose proof (Nat.div_lt (length s) 2). lia. }
    destruct (Hget (length s / 2)%nat) as (b & -> & Hb).
    { apply Nat.div_lt; lia. }
    eexists. split; [done|]. rewrite Ha, Hb. field.
Qed.

Lemma is_integer_valued_inject x v : x == inject_Z v → is_integer_valued x = true.
Proof.
  intros Hx. unfold is_integer_valued. apply Qeq_bool_iff.
  rewrite Hx at 1. by rewrite Hx, Qfloor_Z.
Qed.

Lemma dropna_all {A} (f : Row → option A) (P : A → Prop) (l : list Row) :
  (∀ x, x ∈ l → ∃ q, f x = Some q ∧ P q) →
  Forall P (dropna (f <$> l)) ∧ length (dropna (f <$> l)) = length l.
Proof.
  induction l as [|x l IH]; intros Hall; [by split|].
  destruct (Hall x) as (q & Hq & HP); [left|].
  destruct IH as [IH1 IH2]; [intros y Hy; apply Hall; by right|].
  unfold dropna in *. cbn. rewrite Hq. cbn. split; [by constructor|by f_equal].
Qed.

Lemma mixup_reason_blocks schema duplicates partial_backfill unit_price_mixup
    level_shift tz_shift :
  Mixup.suspected_unit_price_mixup unit_price_mixup = Some true →
  let reasons :=
    blocking_logic schema duplicates partial_backfill unit_price_mixup
      level_shift tz_shift in
  UnitPriceMixupSuspected ∈ reasons ∧ verdict reasons = "FAIL".
Proof.
  intros Hs reasons.
  assert (UnitPriceMixupSuspected ∈ reasons) as Hin.
  { subst reasons. rewrite blocking_logic_table. unfold policy_reasons.
    change UnitPriceMixupSuspected with (snd (true, UnitPriceMixupSuspected)).
    apply list_elem_of_fmap_2, list_elem_of_filter. split; [done|].
    unfold policy_table. rewrite Hs.
    rewrite (bool_decide_true (Some true = Some true)) by done.
    do 3 right. left. }
  split; [done|]. apply verdict_fail. intros E. rewrite E in Hin.
  by apply elem_of_nil in Hin.
Qed.

Lemma integer_prices_heuristics df v :
  (∀ x, x ∈ rows df → ∃ q, price x = Some q ∧ q == inject_Z v) →
  (5 < v)%Z →
  (∃ u, median (units_values df) = Some u ∧ u == 1) →
  ¬ heuristic_medians df ∧ heuristic_integer_like df.
Proof.
  intros Hprice Hv (u & Hu & Hu1).
  destruct (dropna_all price (λ q, q == inject_Z v) (rows df) Hprice) as [Hall Hlen].
  fold (price_values df) in Hall, Hlen.
  assert (rows df ≠ []) as Hrows.
  { intros E. unfold units_values in Hu. by rewrite E in Hu. }
  assert (price_values df ≠ []) as Hne.
  { intros E. rewrite E in Hlen. destruct (rows df); [done|discriminate]. }
  destruct (median_constant _ _ Hne Hall) as (m & Hm & Hmv).
  assert (5 < m)%Q as Hm5.
  { rewrite Hmv. unfold Qlt. cbn. lia. }
  split.
  - intros [(m' & Hm' & Hlt) _]. rewrite Hm in Hm'. injection Hm' as <-.
    apply (Qlt_irrefl m), (Qlt_trans _ (3 # 2)); [exact Hlt|].
    by apply (Qlt_trans _ 5).
  - split; [|split].
    + unfold integer_valued_count. rewrite filter_all.
      * destruct (price_values df); [done|cbn; lia].
      * eapply Forall_impl; [exact Hall|]. intros q. apply is_integer_valued_inject.
    + by exists m.
    + exists u. split; [done|]. by rewrite Hu1.
Qed.

(** C1, as the code has it. When every price of the normalized table is
    one integer above 5 and the units median is 1, the mixup check sets
    [suspected_unit_price_mixup] on it; and when the analysis of the file
    returns (its table goes through every step, the side tables can be
    read), the report has this record and the verdict FAIL with the reason
    [unit_price_mixup_suspected]. *)
Theorem analyze_file_integer_prices sqrtQ e path out p cal w table v :
  read_csv e path = inr table →
  "price" ∈ columns (normalized table) → "units" ∈ columns (normalized table) →
  (∀ x, x ∈ rows (normalized table) → ∃ q, price x = Some q ∧ q == inject_Z v) →
  (5 < v)%Z →
  (∃ u, median (units_values (normalized table)) = Some u ∧ u == 1) →
  ∃ d,
    (detect_unit_price_mixup 0%nat (world_of (normalized table))).1 = Ok d
    ∧ Mixup.suspected_unit_price_mixup d = Some true
    ∧ (goes_through table →
       side_valid w p → side_valid w cal →
       side_readable w p → side_readable w cal →
       ∃ rep w',
         analyze_file sqrtQ e path out p cal w = (Ok rep, w')
         ∧ Report.unit_price_mixup rep = Some d
         ∧ Report.blocking rep = "FAIL"
         ∧ UnitPriceMixupSuspected ∈ Report.blocking_reasons rep).
Proof.
  intros Hread Hpc Huc Hprice Hv Hunits.
  destruct (mixup_flag_run (world_of (normalized table)) 0%nat
              (normalized table) eq_refl Hpc Huc)
    as (d & Hd & _ & Hs & _).
  destruct (integer_prices_heuristics _ v Hprice Hv Hunits) as [_ Hb].
  apply heuristic_integer_like_reflect in Hb.
  cbv zeta in Hs. rewrite Hb, orb_true_r in Hs.
  exists d. split; [by rewrite Hd|]. split; [done|].
  intros Hgo Hp Hc Hrp Hrc.
  destruct (analyze_file_report sqrtQ e path out p cal w table Hread Hgo Hp Hc Hrp Hrc)
    as (schema & sv & dups & cont & ls & upm & pb & tz & seas & promo & w'
        & Hrun & _ & _ & _ & _ & _ & Hupm & _).
  rewrite Hd in Hupm. injection Hupm as <-.
  destruct (mixup_reason_blocks schema dups pb d ls tz Hs) as [Hin Hfail].
  eexists _, w'. split; [exact Hrun|]. by cbn.
Qed.

(** * The runner *)

Section RunnerProofs.
Context (sqrtQ : Q → Q) (e : env).


Lemma load_optional_csv_run path w :
  ∃ o w', load_optional_csv e path w = (Ok o, w')
    ∧ heap w `prefix_of` heap w' ∧ written w' = written w
    ∧ side_valid w' o
    ∧ (side_file_readable e path → side_readable w' o).
Proof.
  unfold load_optional_csv.
  destruct path as [p|]; [|by exists None, w].
  destruct (path_exists e p); cbn [negb]; [|by exists None, w].
  destruct (read_csv e p) as [?|table] eqn:Hread; [by exists None, w|].
  eexists (Some _), _. split; [reflexivity|]. cbn.
  split; [by apply prefix_app_r|]. split; [done|]. split.
  - intros s [= <-]. exists table. by apply list_lookup_middle.
  - intros Hfile s df [= <-] Hdf.
    pose proof (list_lookup_middle (heap w) [] table (length (heap w)) eq_refl) as E.
    assert (Some df = Some table) as [= ->]
      by (etrans; [symmetry; exact Hdf|exact E]).
    by apply (Hfile p).
Qed.


Lemma sorted_glob_run dir pattern w :
  pattern ≠ "" → is_absolute pattern = false →
  sorted_glob e dir pattern w = (Ok (sort_by path_leb (glob e dir pattern)), w).
Proof.
  intros Hne Habs. unfold sorted_glob.
  by rewrite bool_decide_false, Habs by done.
Qed.
End RunnerProofs.


(** * The order of the sort keys *)

Lemma ascii_compare_lt_trans a b c :
  Ascii.compare a b = Lt → Ascii.compare b c = Lt → Ascii.compare a c = Lt.
Proof.
  unfold Ascii.compare. rewrite !N.compare_lt_iff. apply N.lt_trans.
Qed.

Lemma string_compare_le_trans a b c :
  String.compare a b ≠ Gt → String.compare b c ≠ Gt → String.compare a c ≠ Gt.
Proof.
  revert b c. induction a as [|x a IH]; intros [|y b] [|z c]; cbn; try done.
  destruct (Ascii.compare x y) eqn:Exy; [| |done].
  - apply Ascii.compare_eq_iff in Exy as ->.
    destruct (Ascii.compare y z); [apply IH|done..].
  - destruct (Ascii.compare y z) eqn:Eyz; [| |done].
    + apply Ascii.compare_eq_iff in Eyz as ->. by rewrite Exy.
    + by rewrite (ascii_compare_lt_trans _ _ _ Exy Eyz).
Qed.

Lemma string_leb_trans a b c :
  String.leb a b = true → String.leb b c = true → String.leb a c = true.
Proof.
  unfold String.leb. intros Hab Hbc.
  pose proof (string_compare_le_trans a b c).
  destruct (String.compare a b), (String.compare b c), (String.compare a c);
    naive_solver.
Qed.

Lemma string_leb_order : total_order String.leb.
Proof.
  split; [apply String.leb_total|apply string_leb_trans|apply String.leb_antisym].
Qed.

Lemma Z_leb_order : total_order Z.leb.
Proof. split; intros *; rewrite ?Z.leb_le; lia. Qed.

Lemma opt_leb_order {A} (le : A → A → bool) :
  total_order le → total_order (opt_leb le).
Proof.
  intros [Htot Htrans Hanti]. split.
  - intros [a|] [b|]; cbn; auto.
  - intros [a|] [b|] [c|]; cbn; eauto; done.
  - intros [a|] [b|]; cbn; try done. intros. f_equal. auto.
Qed.

Lemma sort_key_leb_order : total_order sort_key_leb.
Proof.
  pose proof (opt_leb_order _ string_leb_order) as [Stot Strans Santi].
  pose proof (opt_leb_order _ Z_leb_order) as [Wtot Wtrans Wanti].
  split.
  - intros [[s1 t1] w1] [[s2 t2] w2]. cbn.
    repeat case_bool_decide; subst; auto; try congruence.
  - intros [[s1 t1] w1] [[s2 t2] w2] [[s3 t3] w3]. cbn.
    repeat case_bool_decide; subst; eauto; congruence.
  - intros [[s1 t1] w1] [[s2 t2] w2]. cbn.
    repeat case_bool_decide; subst; try congruence.
    + intros. f_equal. auto.
    + intros H12 H21. by pose proof (Santi _ _ H12 H21).
    + intros H12 H21. by pose proof (Santi _ _ H12 H21).
Qed.

(** * Sorted lists *)

Section Sorted.
Context {A : Type} (le : A → A → bool).
Context (Htotal : ∀ a b, le a b = true ∨ le b a = true).
Context (Htrans : ∀ a b c, le a b = true → le b c = true → le a c = true).

Let R (a b : A) : Prop := le a b = true.

Lemma insert_by_sorted x l :
  StronglySorted R l → StronglySorted R (insert_by le x l).
Proof using Htotal Htrans.
  induction 1 as [|y l Hl IH Hy]; cbn; [by repeat constructor|].
  destruct (le x y) eqn:Exy.
  - constructor; [by constructor|]. constructor; [done|].
    eapply Forall_impl; [exact Hy|]. intros z Hz. by eapply Htrans.
  - constructor; [done|].
    rewrite insert_by_Permutation. constructor; [|done].
    destruct (Htotal x y) as [E|E]; [congruence|done].
Qed.

Lemma sort_by_sorted l : StronglySorted R (sort_by le l).
Proof using Htotal Htrans.
  induction l as [|x l IH]; cbn; [constructor|by apply insert_by_sorted].
Qed.

(** Two orderings of the same elements sort to the same list when the
    order puts no two of them level. *)
Lemma sort_by_unique l1 l2 :
  l1 ≡ₚ l2 →
  (∀ x y, x ∈ l1 → y ∈ l1 → le x y = true → le y x = true → x = y) →
  sort_by le l1 = sort_by le l2.
Proof using Htotal Htrans.
  intros Hperm Hlevel.
  apply (StronglySorted_unique_strong R); [|apply sort_by_sorted..|].
  - intros x y Hx Hy. apply Hlevel.
    + by rewrite sort_by_Permutation in Hx.
    + by rewrite sort_by_Permutation, <- Hperm in Hy.
  - by rewrite !sort_by_Permutation.
Qed.
End Sorted.

Lemma NoDup_fmap_inj {A B} (f : A → B) (l : list A) x y :
  NoDup (f <$> l) → x ∈ l → y ∈ l → f x = f y → x = y.
Proof.
  induction l as [|a l IH]; intros Hnd Hx Hy Hxy; [by apply elem_of_nil in Hx|].
  cbn in Hnd. apply NoDup_cons in Hnd as [Ha Hnd].
  apply elem_of_cons in Hx as [->|Hx], Hy as [->|Hy]; [done| | |by apply IH].
  - destruct Ha. rewrite Hxy. by apply list_elem_of_fmap_2.
  - destruct Ha. rewrite <- Hxy. by apply list_elem_of_fmap_2.
Qed.

Lemma sorted_rows_permutation rows1 rows2 :
  rows1 ≡ₚ rows2 → NoDup (sort_key_of <$> rows1) →
  sort_by (λ a b, sort_key_leb (sort_key_of a) (sort_key_of b)) rows1
  = sort_by (λ a b, sort_key_leb (sort_key_of a) (sort_key_of b)) rows2.
Proof.
  intros Hperm Hnd. destruct sort_key_leb_order as [Htot Htrans Hanti].
  apply sort_by_unique; [by intros; apply Htot|by intros; eapply Htrans|done|].
  intros x y Hx Hy Hxy Hyx.
  by apply (NoDup_fmap_inj sort_key_of rows1), Hanti.
Qed.

(** C7, as the code has it. When no two rows share
    (sku_id, store_id, week_start), [detect_level_shift] returns the same
    result on every reordering of the rows of the table. *)
Theorem detect_level_shift_permutation sqrtQ w1 w2 r1 r2 df1 df2 window z_threshold :
  heap w1 !! r1 = Some df1 → heap w2 !! r2 = Some df2 →
  columns df1 = columns df2 →
  rows df1 ≡ₚ rows df2 →
  NoDup (sort_key_of <$> rows df1) →
  (detect_level_shift sqrtQ r1 window z_threshold w1).1
  = (detect_level_shift sqrtQ r2 window z_threshold w2).1.
Proof.
  intros H1 H2 Hcols Hperm Hnd. unfold detect_level_shift.
  run_with H1. run_with H2. unfold has_col. rewrite Hcols.
  destruct (negb _ || negb _); [done|].
  run_with H1. run_with H2. unfold sort_values_rows, first_missing.
  rewrite Hcols, (sorted_rows_permutation _ _ Hperm Hnd).
  destruct (head _); [done|].
  run_with H1. run_with H2.
  destruct (groupby_sku_store _); [|done].
  by destruct (foldl _ _ _) as [[??]?].
Qed.

(** * The properties at concrete tables *)

Ltac by_computation :=
  match goal with
  | |- ?P => apply (bool_decide_unpack P); vm_compute; exact I
  end.

(** C1 fails at the price 5: every price is the integer 5 and the units
    median is 1, yet the flag is not set and the verdict of the file is
    PASS. *)
Lemma price_five_is_not_suspected :
  Forall (λ x, price x = Some 5%Q) (rows (table_priced 5))
  ∧ median (units_values (table_priced 5)) = Some 1%Q
  ∧ (∃ d, (detect_unit_price_mixup 0%nat (world_of (table_priced 5))).1 = Ok d
        ∧ Mixup.suspected_unit_price_mixup d = Some false)
  ∧ goes_through (table_priced 5)
  ∧ (∃ rep, (analyze_file sqrt_down (env_of [(file_a, table_priced 5)]) file_a
               "reports" None None empty_world).1 = Ok rep
        ∧ Report.blocking rep = "PASS").
Proof.
  split; [by repeat constructor|]. split; [by vm_compute|].
  split; [eexists; (split; [by vm_compute|done])|].
  split; [by_computation|].
  eexists; (split; [by vm_compute|done]).
Qed.

Lemma analyze_file_integer_prices_witness :
  ∃ d rep w',
    (detect_unit_price_mixup 0%nat (world_of (normalized (table_priced 6)))).1 = Ok d
    ∧ Mixup.suspected_unit_price_mixup d = Some true
    ∧ analyze_file sqrt_down (env_of [(file_a, table_priced 6)]) file_a "reports"
        None None empty_world = (Ok rep, w')
    ∧ Report.unit_price_mixup rep = Some d
    ∧ Report.blocking rep = "FAIL"
    ∧ UnitPriceMixupSuspected ∈ Report.blocking_reasons rep.
Proof.
  destruct (analyze_file_integer_prices sqrt_down
              (env_of [(file_a, table_priced 6)])
              file_a "reports" None None empty_world (table_priced 6) 6)
    as (d & Hd & Hs & Hrun).
  - reflexivity.
  - by_computation.
  - by_computation.
  - intros x Hx. apply list_elem_of_In in Hx. vm_compute in Hx.
    destruct Hx as [<-|[<-|[<-|[]]]]; eexists; split; reflexivity.
  - lia.
  - eexists. split; [by vm_compute|reflexivity].
  - destruct Hrun as (rep & w' & Hrep).
    + by_computation.
    + intros s E. discriminate E.
    + intros s E. discriminate E.
    + intros s df E. discriminate E.
    + intros s df E. discriminate E.
    + by exists d, rep, w'.
Defined.

(** C4 fails at exactly 90%: nine of the ten prices are integer-valued, the
    price median is 10 and the units median 1, so the second heuristic as
    specified holds; the flag is not set. *)
Lemma ninety_percent_is_not_suspected :
  ¬ heuristic_medians table_ninety_percent
  ∧ heuristic_integer_like_at_least table_ninety_percent
  ∧ ∃ d, detect_unit_price_mixup 0%nat (world_of table_ninety_percent)
         = (Ok d, world_of table_ninety_percent)
       ∧ Mixup.suspected_unit_price_mixup d = Some false.
Proof.
  split; [|split].
  - intros [(m & Hm & Hlt) _]. vm_compute in Hm. injection Hm as <-.
    vm_compute in Hlt. discriminate Hlt.
  - split; [vm_compute; lia|].
    split; eexists; (split; [by vm_compute|done]).
  - eexists. split; by vm_compute.
Qed.

Lemma detect_unit_price_mixup_heuristics_witness :
  ∃ d s, detect_unit_price_mixup 0%nat (world_of (table_priced 6))
         = (Ok d, world_of (table_priced 6))
    ∧ Mixup.suspected_unit_price_mixup d = Some s
    ∧ (s = true ↔
       heuristic_medians (table_priced 6)
       ∨ (¬ heuristic_medians (table_priced 6)
          ∧ heuristic_integer_like (table_priced 6))).
Proof.
  destruct (detect_unit_price_mixup_heuristics (world_of (table_priced 6)) 0%nat
              (table_priced 6))
    as (d & s & h & Hrun & _ & Hs & _ & Hiff & _).
  - reflexivity.
  - by_computation.
  - by_computation.
  - by exists d, s.
Defined.

Lemma check_duplicates_count_shape_witness :
  ∃ d n, check_duplicates 0%nat (world_of table_dup) = (Ok d, world_of table_dup)
    ∧ Duplicates.duplicate_count d = Some n
    ∧ (n = 0 ∨ 2 ≤ n)%nat.
Proof.
  destruct (check_duplicates_count_shape (world_of table_dup) 0%nat table_dup)
    as (d & n & Hrun & Hn & Hshape & _).
  - reflexivity.
  - repeat constructor; by_computation.
  - by exists d, n.
Defined.

Lemma analyze_file_read_error_witness :
  ∃ rep, analyze_file sqrt_down (env_of []) file_a "reports" None None empty_world
         = (Ok rep, empty_world)
    ∧ Report.blocking rep = "FAIL"
    ∧ Report.blocking_reasons rep = [ReadError].
Proof.
  destruct (analyze_file_read_error sqrt_down (env_of []) file_a "reports" None None
              empty_world "No such file or directory")
    as (rep & Hrun & Hrest).
  - reflexivity.
  - exists rep. split; [exact Hrun|]. split; apply Hrest.
Defined.

Lemma swap_ends_Permutation {A} (a b : A) l : a :: l ++ [b] ≡ₚ b :: l ++ [a].
Proof.
  rewrite <- !Permutation_cons_append. apply Permutation_swap.
Qed.

(** C7 fails when rows of a group share their week: exchanging two tied
    rows of the one group changes the number of groups with a shift. *)
Lemma tied_rows_order_changes_level_shift :
  columns table_tied_swapped = columns table_tied
  ∧ rows table_tied_swapped ≡ₚ rows table_tied
  ∧ Forall (λ x, group_key x = Some ("S1", "C1")) (rows table_tied)
  ∧ (detect_level_shift sqrt_down 0%nat 8 3 (world_of table_tied_swapped)).1
    ≠ (detect_level_shift sqrt_down 0%nat 8 3 (world_of table_tied)).1.
Proof.
  split; [done|]. split; [apply swap_ends_Permutation|].
  split; [by_computation|].
  intros E.
  apply (f_equal (λ x, match x with
                       | Ok d => LevelShift.groups_with_level_shift d
                       | Raise _ => None
                       end)) in E.
  vm_compute in E. discriminate E.
Qed.

Lemma detect_level_shift_permutation_witness :
  (detect_level_shift sqrt_down 0%nat 8 3 (world_of table_two_weeks)).1
  = (detect_level_shift sqrt_down 0%nat 8 3 (world_of table_two_weeks_reversed)).1.
Proof.
  apply (detect_level_shift_permutation sqrt_down _ _ _ _
           table_two_weeks table_two_weeks_reversed).
  - reflexivity.
  - reflexivity.
  - reflexivity.
  - apply Permutation_swap.
  - by_computation.
Defined.

Lemma checks_leave_tables_unchanged_witness :
  let w := world_of (table_priced 5) in
  let w' := (run_check sqrt_down DetectPartialBackfill 0%nat None None w).2 in
  (∀ i df, heap w !! i = Some df → heap w' !! i = Some df)
  ∧ written w' = written w
  ∧ ∀ c', (run_check sqrt_down c' 0%nat None None w').1
          = (run_check sqrt_down c' 0%nat None None w).1.
Proof.
  apply (checks_leave_tables_unchanged sqrt_down DetectPartialBackfill 0%nat None None
           (world_of (table_priced 5))).
  - by eexists.
  - intros s Hs. discriminate Hs.
  - intros s Hs. discriminate Hs.
Defined.



(** The four exit statuses, on runs. *)
Lemma main_exit_status_runs :
  exit_status (main sqrt_down (env_of [(file_a, table_priced 5)])
                 args_of_run empty_world).1 = 0%Z
  ∧ exit_status (main sqrt_down (env_of [(file_a, table_priced 5);
                                         (file_b, table_priced 6)])
                   args_of_run empty_world).1 = 1%Z
  ∧ exit_status (main sqrt_down (env_of [])
                   (mkArgs "elsewhere" "reports" None None "*.csv") empty_world).1 = 2%Z
  ∧ main sqrt_down (env_of []) args_of_run empty_world
    = (Raise (SystemExit 3), empty_world).
Proof. repeat split; by vm_compute. Qed.

(** * The schema checks *)

Lemma filter_nil_iff {A} (P : A → Prop) `{∀ x, Decision (P x)} (l : list A) :
  filter P l = [] ↔ Forall (λ x, ¬ P x) l.
Proof.
  split; [|apply filter_none].
  induction l as [|x l IH]; [by constructor|].
  rewrite filter_cons. destruct (decide (P x)); [done|].
  intros E. constructor; auto.
Qed.

Lemma filter_Permutation_pred {A} (P Q : A → Prop)
    `{∀ x, Decision (P x)} `{∀ x, Decision (Q x)} (l : list A) :
  (∀ x, P x ↔ Q x) → filter P l = filter Q l.
Proof. apply list_filter_iff. Qed.

(** X1. The schema check looks at the set of labels only: [schema_ok]
    holds exactly when every expected label is present, whatever else the
    table has; the missing labels come in the order of the schema, the
    extra ones in the order of the table. *)
Theorem check_schema_presence w r df expected :
  heap w !! r = Some df →
  ∃ d, check_schema r (Some expected) w = (Ok d, w)
    ∧ (Schema.schema_ok d = true ↔ ∀ c, c ∈ expected → c ∈ columns df)
    ∧ (∀ c, c ∈ Schema.missing_columns d ↔ c ∈ expected ∧ c ∉ columns df)
    ∧ (∀ c, c ∈ Schema.extra_columns d ↔ c ∈ columns df ∧ c ∉ expected)
    ∧ Schema.missing_columns d `sublist_of` expected
    ∧ Schema.extra_columns d `sublist_of` columns df.
Proof.
  intros Hr. unfold check_schema. run_with Hr. cbn [default from_option id].
  eexists. split; [reflexivity|]. cbn.
  split; [|split; [|split; [|split]]].
  - rewrite bool_decide_eq_true, length_zero_iff_nil, filter_nil_iff, Forall_forall.
    split; intros Hall c Hc; [|by intros Hn; apply Hn, Hall].
    by destruct (decide (c ∈ columns df)); [|destruct (Hall c Hc)].
  - intros c. rewrite list_elem_of_filter. tauto.
  - intros c. rewrite list_elem_of_filter. tauto.
  - apply sublist_filter.
  - apply sublist_filter.
Qed.

(** X2. The order of the columns does not matter to the schema check: two
    tables with the same labels in different orders get the same missing
    labels and the same [schema_ok]; a table with exactly the expected
    labels, in any order, has no missing and no extra label. *)
Theorem check_schema_column_order w1 w2 r1 r2 df1 df2 expected :
  heap w1 !! r1 = Some df1 → heap w2 !! r2 = Some df2 →
  columns df1 ≡ₚ columns df2 →
  ∃ d1 d2, check_schema r1 (Some expected) w1 = (Ok d1, w1)
    ∧ check_schema r2 (Some expected) w2 = (Ok d2, w2)
    ∧ Schema.missing_columns d1 = Schema.missing_columns d2
    ∧ Schema.schema_ok d1 = Schema.schema_ok d2
    ∧ Schema.extra_columns d1 ≡ₚ Schema.extra_columns d2
    ∧ (columns df1 ≡ₚ expected →
       Schema.missing_columns d2 = [] ∧ Schema.extra_columns d2 = []
       ∧ Schema.schema_ok d2 = true).
Proof.
  intros H1 H2 Hperm. unfold check_schema. run_with H1. run_with H2.
  cbn [default from_option id]. eexists _, _.
  split; [reflexivity|]. split; [reflexivity|]. cbn.
  assert (filter (λ c, c ∉ columns df1) expected
          = filter (λ c, c ∉ columns df2) expected) as Hmiss.
  { apply list_filter_iff. intros c. by rewrite Hperm. }
  split; [done|]. split; [by rewrite Hmiss|]. split; [by rewrite Hperm|].
  intros Hexp.
  assert (filter (λ c, c ∉ columns df2) expected = []) as ->.
  { apply filter_none, Forall_forall. intros c Hc Hn. apply Hn.
    by rewrite <- Hperm, Hexp. }
  assert (filter (λ c, c ∉ expected) (columns df2) = []) as ->; [|done].
  apply filter_none, Forall_forall. intros c Hc Hn. apply Hn.
  by rewrite <- Hexp, Hperm.
Qed.

(** X3. Schema versioning computes the same two lists as the schema check
    on the same table, and reports a change exactly when one of them is
    non-empty: an unchanged schema implies [schema_ok]. *)
Theorem detect_schema_versioning_agrees w r df expected :
  heap w !! r = Some df →
  ∃ d v, check_schema r expected w = (Ok d, w)
    ∧ detect_schema_versioning r expected w = (Ok v, w)
    ∧ SchemaVersioning.status v = "ok"
    ∧ SchemaVersioning.missing v = Schema.missing_columns d
    ∧ SchemaVersioning.extra v = Schema.extra_columns d
    ∧ (SchemaVersioning.schema_changed v = false
       ↔ Schema.missing_columns d = [] ∧ Schema.extra_columns d = [])
    ∧ (SchemaVersioning.schema_changed v = false → Schema.schema_ok d = true)
    ∧ (SchemaVersioning.schema_changed v = false
       ↔ SchemaVersioning.hint v = NoHint).
Proof.
  intros Hr. unfold check_schema, detect_schema_versioning. run_with Hr.
  eexists _, _. split; [reflexivity|]. split; [reflexivity|]. cbn.
  split; [done|]. split; [done|]. split; [done|].
  destruct (filter _ (default _ _)) as [|m ms], (filter _ (columns df)) as [|x xs];
    cbn; by repeat split; try intros [??].
Qed.

(** * The normalizer *)

Lemma check_schema_run w r df expected :
  heap w !! r = Some df →
  check_schema r (Some expected) w
  = (Ok (Schema.mk (filter (λ c, c ∉ columns df) expected)
                   (filter (λ c, c ∉ expected) (columns df))
                   (bool_decide (length (filter (λ c, c ∉ columns df) expected) = 0%nat))),
     w).
Proof. intros Hr. unfold check_schema. by run_with Hr. Qed.

Lemma detect_schema_versioning_run w r df expected :
  heap w !! r = Some df →
  ∃ v, detect_schema_versioning r (Some expected) w = (Ok v, w)
    ∧ SchemaVersioning.missing v = filter (λ c, c ∉ columns df) expected
    ∧ SchemaVersioning.extra v = filter (λ c, c ∉ expected) (columns df)
    ∧ SchemaVersioning.schema_changed v
      = (0 <? length (filter (λ c, c ∉ columns df) expected))%nat
        || (0 <? length (filter (λ c, c ∉ expected) (columns df)))%nat.
Proof.
  intros Hr. unfold detect_schema_versioning. run_with Hr. by eexists.
Qed.

Lemma normalized_has_parsed table :
  "load_ts" ∈ strip <$> columns table →
  "load_ts_parsed" ∈ columns (normalized table).
Proof.
  intros Hts. unfold normalized. rewrite bool_decide_true by done. cbn.
  case_bool_decide; [done|]. apply elem_of_app. right. by left.
Qed.

(** X4. The analyzer checks the schema of the normalized table, which has
    the helper column [load_ts_parsed] whenever the file has [load_ts]:
    for every such file whose analysis returns (its table goes through
    every step, the side tables can be read) the reports list
    [load_ts_parsed] as an extra column and say that the schema changed,
    also when the file has exactly the expected columns. *)
Theorem analyze_file_schema_changed sqrtQ e path out p cal w table :
  read_csv e path = inr table → goes_through table →
  side_valid w p → side_valid w cal →
  side_readable w p → side_readable w cal →
  "load_ts" ∈ strip <$> columns table →
  ∃ rep w' s v,
    analyze_file sqrtQ e path out p cal w = (Ok rep, w')
    ∧ Report.schema rep = Some s
    ∧ Report.schema_versioning rep = Some v
    ∧ "load_ts_parsed" ∈ Schema.extra_columns s
    ∧ "load_ts_parsed" ∈ SchemaVersioning.extra v
    ∧ SchemaVersioning.schema_changed v = true.
Proof.
  intros Hread Hgo Hp Hc Hrp Hrc Hts.
  destruct (analyze_file_report sqrtQ e path out p cal w table Hread Hgo Hp Hc
              Hrp Hrc)
    as (s & v & ? & ? & ? & ? & ? & ? & ? & ? & w' & Hrun & Hs & Hv & _).
  rewrite (check_schema_run _ _ (normalized table)) in Hs by done.
  destruct (detect_schema_versioning_run (world_of (normalized table)) 0%nat
              (normalized table) expected_schema_v1 eq_refl)
    as (v' & Hv' & _ & Hextra & Hchanged).
  rewrite Hv' in Hv. cbn in Hs, Hv. injection Hs as <-. injection Hv as <-.
  assert ("load_ts_parsed" ∈ filter (λ c, c ∉ expected_schema_v1)
                               (columns (normalized table))) as Hin.
  { apply list_elem_of_filter. split; [|by apply normalized_has_parsed].
    intros Hin. by apply (bool_decide_pack _) in Hin. }
  eexists _, w', _, v'. split; [exact Hrun|]. cbn.
  split; [done|]. split; [done|]. split; [done|].
  split; [by rewrite Hextra|]. rewrite Hchanged.
  destruct (filter (λ c, c ∉ expected_schema_v1) (columns (normalized table)));
    [by apply elem_of_nil in Hin|]. cbn. apply orb_true_r.
Qed.

(** ** Stripping a label *)

Lemma lstrip_no_leading_space l : no_leading_space (lstrip l).
Proof.
  induction l as [|c l IH]; [done|]. cbn.
  by destruct (is_space c) eqn:E.
Qed.

Lemma lstrip_id l : no_leading_space l → lstrip l = l.
Proof. destruct l as [|c l]; [done|]. cbn. by intros ->. Qed.

Lemma lstrip_suffix l : ∃ k, l = k ++ lstrip l.
Proof.
  induction l as [|c l [k IH]]; [by exists []|]. cbn.
  destruct (is_space c); [|by exists []].
  exists (c :: k). cbn. by f_equal.
Qed.

(** Removing the trailing spaces keeps the first character. *)
Lemma rstrip_no_leading_space l :
  no_leading_space l → no_leading_space (reverse (lstrip (reverse l))).
Proof.
  intros Hl. destruct (lstrip_suffix (reverse l)) as [k Hk].
  apply (f_equal reverse) in Hk. rewrite reverse_involutive, reverse_app in Hk.
  destruct (reverse (lstrip (reverse l))) as [|c t]; [done|].
  rewrite Hk in Hl. done.
Qed.

Lemma strip_idempotent s : strip (strip s) = strip s.
Proof.
  unfold strip. rewrite String.list_ascii_of_string_of_list_ascii.
  set (l := String.list_ascii_of_string s).
  rewrite (lstrip_id (reverse (lstrip (reverse (lstrip l))))).
  - rewrite reverse_involutive.
    by rewrite (lstrip_id (lstrip (reverse (lstrip l))))
      by apply lstrip_no_leading_space.
  - apply rstrip_no_leading_space, lstrip_no_leading_space.
Qed.

Lemma strip_fmap_idempotent (cols : list string) :
  strip <$> (strip <$> cols) = strip <$> cols.
Proof.
  rewrite <- list_fmap_compose. apply list_fmap_ext.
  intros _ c _. apply strip_idempotent.
Qed.

Lemma normalized_idempotent df : normalized (normalized df) = normalized df.
Proof.
  unfold normalized at 2.
  set (cols := strip <$> columns df).
  assert (strip <$> cols = cols) as Hcols by apply strip_fmap_idempotent.
  destruct (decide ("load_ts" ∈ cols)) as [Hts|Hts].
  - rewrite bool_decide_true by done.
    destruct (decide ("load_ts_parsed" ∈ cols)) as [Hp|Hp].
    + rewrite (bool_decide_true _ Hp). unfold normalized. cbn [columns rows tz].
      fold cols. rewrite Hcols, !bool_decide_true by done. f_equal.
      rewrite <- list_fmap_compose. apply list_fmap_ext. by intros _ [] _.
    + rewrite (bool_decide_false _ Hp). unfold normalized. cbn [columns rows tz].
      fold cols. rewrite fmap_app, Hcols. cbn [fmap list_fmap].
      change (strip "load_ts_parsed") with "load_ts_parsed".
      rewrite (bool_decide_true ("load_ts" ∈ cols ++ _))
        by (apply elem_of_app; by left).
      rewrite (bool_decide_true ("load_ts_parsed" ∈ cols ++ _))
        by (apply elem_of_app; right; by left).
      rewrite (bool_decide_true ("load_ts" ∈ cols)) by done.
      rewrite (bool_decide_false ("load_ts_parsed" ∈ cols)) by done.
      f_equal. rewrite <- list_fmap_compose. apply list_fmap_ext. by intros _ [] _.
  - rewrite bool_decide_false by done. unfold normalized. cbn [columns rows tz].
    fold cols. by rewrite Hcols, !bool_decide_false.
Qed.

(** The labels of the normalized table, stripped again: the stripped
    labels of the table, and [load_ts_parsed] when it is new. *)
Lemma normalized_columns df :
  ∃ more, strip <$> columns (normalized df) = (strip <$> columns df) ++ more
    ∧ (more = [] ∨ more = ["load_ts_parsed"]).
Proof.
  unfold normalized. repeat case_bool_decide; cbn [columns].
  - exists []. rewrite app_nil_r, strip_fmap_idempotent. by split; [|left].
  - exists ["load_ts_parsed"]. rewrite fmap_app, strip_fmap_idempotent.
    by split; [|right].
  - exists []. rewrite app_nil_r, strip_fmap_idempotent. by split; [|left].
Qed.

Lemma normalized_zones df :
  week_start_tz (tz (normalized df)) = week_start_tz (tz df)
  ∧ load_ts_tz (tz (normalized df)) = load_ts_tz (tz df).
Proof. unfold normalized. by case_bool_decide. Qed.

(** The table [normalize_df] returns is normalized again without an
    exception. *)
Lemma normalize_raises_normalized df :
  normalize_raises df = None → normalize_raises (normalized df) = None.
Proof.
  unfold normalize_raises, to_datetime_refuses, repeated_label, has_col.
  cbn [columns tz].
  destruct (normalized_columns df) as (more & -> & Hmore).
  destruct (normalized_zones df) as [-> ->].
  assert (∀ c, c ≠ "load_ts_parsed" →
            filter (λ c', c' = c) ((strip <$> columns df) ++ more)
            = filter (λ c', c' = c) (strip <$> columns df)) as Hcount.
  { intros c Hc. rewrite filter_app.
    destruct Hmore as [-> | ->]; [by rewrite app_nil_r|].
    rewrite filter_cons, decide_False by done. by rewrite app_nil_r. }
  assert (∀ c, c ≠ "load_ts_parsed" →
            bool_decide (c ∈ (strip <$> columns df) ++ more)
            = bool_decide (c ∈ strip <$> columns df)) as Hin.
  { intros c Hc. apply bool_decide_ext. rewrite elem_of_app.
    destruct Hmore as [-> | ->]; [rewrite elem_of_nil; tauto|].
    rewrite list_elem_of_singleton. tauto. }
  by rewrite !Hcount, !Hin.
Qed.

(** Labels that stay distinct and timestamps that are read: nothing is
    refused. *)
Lemma normalize_raises_None df :
  NoDup (strip <$> columns df) →
  is_mixed (week_start_tz (tz df)) = false →
  is_mixed (load_ts_tz (tz df)) = false →
  normalize_raises df = None.
Proof.
  intros Hnd Hw Hl. unfold normalize_raises, to_datetime_refuses.
  rewrite !repeated_label_NoDup, Hw, Hl by done.
  by rewrite !andb_false_r.
Qed.

(** X5. [normalize_df] works on a copy and leaves the table it was given
    and every other object as they were, also when it raises.  It raises
    when a coercion is refused: [TypeError] when two labels are [units],
    or [price], after stripping.  Else it returns a new table, the
    normalized one: the rows keep their number, every label is kept,
    stripped; and normalizing the result again gives the same table.
    Nothing is refused when the stripped labels are distinct and the
    timestamps have one UTC offset or none. *)
Theorem normalize_df_copies w r df :
  heap w !! r = Some df →
  (∀ i d, heap w !! i = Some d → heap (normalize_df r w).2 !! i = Some d)
  ∧ written (normalize_df r w).2 = written w
  ∧ (∀ e, normalize_raises df = Some e → (normalize_df r w).1 = Raise e)
  ∧ (repeated_label (mkDF (strip <$> columns df) (rows df) (tz df)) "units" = true
     ∨ repeated_label (mkDF (strip <$> columns df) (rows df) (tz df)) "price" = true →
     (normalize_df r w).1 = Raise TypeError)
  ∧ (NoDup (strip <$> columns df) →
     is_mixed (week_start_tz (tz df)) = false →
     is_mixed (load_ts_tz (tz df)) = false →
     normalize_raises df = None)
  ∧ (normalize_raises df = None →
     ∃ r1 w1 r2 w2,
       normalize_df r w = (Ok r1, w1)
       ∧ r1 ≠ r
       ∧ heap w1 !! r1 = Some (normalized df)
       ∧ length (rows (normalized df)) = length (rows df)
       ∧ (∀ c, c ∈ columns df → strip c ∈ columns (normalized df))
       ∧ normalize_df r1 w1 = (Ok r2, w2)
       ∧ heap w2 !! r2 = Some (normalized df)).
Proof.
  intros Hr.
  assert (∀ e, normalize_raises df = Some e → (normalize_df r w).1 = Raise e)
    as Hraise.
  { intros e He. by rewrite (normalize_df_raise _ _ _ _ Hr He). }
  split; [|split; [|split; [exact Hraise|split; [|split]]]].
  - intros i d Hi. destruct (normalize_raises df) as [e|] eqn:En.
    + rewrite (normalize_df_raise _ _ _ _ Hr En). by apply lookup_app_l_Some.
    + rewrite (normalize_df_run _ _ _ Hr En). by apply lookup_app_l_Some.
  - destruct (normalize_raises df) as [e|] eqn:En.
    + by rewrite (normalize_df_raise _ _ _ _ Hr En).
    + by rewrite (normalize_df_run _ _ _ Hr En).
  - intros Hrep. apply Hraise. unfold normalize_raises.
    destruct (repeated_label _ "units"); [done|].
    destruct Hrep as [?| ->]; done.
  - apply normalize_raises_None.
  - intros En.
    assert (heap (mkWorld (heap w ++ [normalized df]) (written w)) !! length (heap w)
            = Some (normalized df)) as Hr1 by (by apply list_lookup_middle).
    eexists _, _, _, _. split; [by apply normalize_df_run|].
    split; [apply lookup_lt_Some in Hr; lia|].
    split; [exact Hr1|].
    split; [unfold normalized; case_bool_decide; cbn; by rewrite ?length_fmap|].
    split; [intros c Hc; by apply normalized_keeps, list_elem_of_fmap_2|].
    split; [apply normalize_df_run; [done|by apply normalize_raises_normalized]|].
    cbn [heap]. rewrite normalized_idempotent. by apply list_lookup_middle.
Qed.

(** * Date continuity *)

Section Unique.
Context `{EqDecision A}.

Lemma elem_of_unique (x : A) l : x ∈ unique l ↔ x ∈ l.
Proof.
  induction l as [|y l IH]; [done|]. cbn.
  rewrite !elem_of_cons, list_elem_of_filter, IH.
  destruct (decide (x = y)); tauto.
Qed.

Lemma unique_NoDup (l : list A) : NoDup (unique l).
Proof.
  induction l as [|y l IH]; cbn; [constructor|].
  apply NoDup_cons. split; [|by apply NoDup_filter].
  rewrite list_elem_of_filter. by intros [? _].
Qed.

Lemma unique_Permutation (l1 l2 : list A) : l1 ≡ₚ l2 → unique l1 ≡ₚ unique l2.
Proof.
  intros Hperm. apply NoDup_Permutation; [apply unique_NoDup..|].
  intros x. by rewrite !elem_of_unique, Hperm.
Qed.
End Unique.

Lemma group_key_leb_order : total_order group_key_leb.
Proof.
  destruct string_leb_order as [Stot Strans Santi].
  split.
  - intros [s1 t1] [s2 t2]. unfold group_key_leb. cbn.
    repeat case_bool_decide; subst; auto; congruence.
  - intros [s1 t1] [s2 t2] [s3 t3]. unfold group_key_leb. cbn.
    repeat case_bool_decide; subst; eauto; try congruence.
    all: intros H12 H21; by pose proof (Santi _ _ H12 H21).
  - intros [s1 t1] [s2 t2]. unfold group_key_leb. cbn.
    repeat case_bool_decide; subst; try congruence.
    + intros. f_equal. auto.
    + intros H12 H21. by pose proof (Santi _ _ H12 H21).
Qed.

(** The group keys of a table do not depend on the order of its rows. *)
Lemma group_keys_Permutation rows1 rows2 :
  rows1 ≡ₚ rows2 →
  sort_by group_key_leb (unique (omap group_key rows1))
  = sort_by group_key_leb (unique (omap group_key rows2)).
Proof.
  intros Hperm. destruct group_key_leb_order as [Htot Htrans Hanti].
  apply sort_by_unique; [done|done| |by intros; apply Hanti].
  by apply unique_Permutation, omap_Permutation.
Qed.

Lemma sort_by_Z_Permutation (l1 l2 : list Z) :
  l1 ≡ₚ l2 → sort_by Z.leb l1 = sort_by Z.leb l2.
Proof.
  intros Hperm. destruct Z_leb_order as [Htot Htrans Hanti].
  apply sort_by_unique; [done|done|done|by intros; apply Hanti].
Qed.

(** The counters after one group depend on the rows of the group, not on
    their order. *)
Lemma continuity_step_Permutation f a acc k sub1 sub2 :
  sub1 ≡ₚ sub2 →
  continuity_step f a acc (k, sub1) = continuity_step f a acc (k, sub2).
Proof.
  intros Hperm. unfold continuity_step.
  destruct acc as [[gt gwg] ex], k as [sku store].
  assert (sort_by Z.leb (dropna (week_start <$> sub1))
          = sort_by Z.leb (dropna (week_start <$> sub2))) as ->; [|done].
  apply sort_by_Z_Permutation. unfold dropna. by rewrite Hperm.
Qed.

Lemma foldl_fmap_ext {A B K} (step : A → B → A) (g1 g2 : K → B) keys acc :
  (∀ acc k, k ∈ keys → step acc (g1 k) = step acc (g2 k)) →
  foldl step acc (g1 <$> keys) = foldl step acc (g2 <$> keys).
Proof.
  revert acc. induction keys as [|k keys IH]; intros acc Hext; [done|]. cbn.
  rewrite Hext by left. apply IH. intros acc' k' Hk'. apply Hext. by right.
Qed.

(** The invariant of the loop: the groups with gaps are among the groups
    seen, and each one has its example. *)
Lemma continuity_fold_counts f a groups gt gwg ex :
  (gwg ≤ gt)%nat → length ex = gwg →
  ∃ gwg' ex',
    foldl (continuity_step f a) (gt, gwg, ex) groups
    = ((gt + length groups)%nat, gwg', ex')
    ∧ (gwg' ≤ gt + length groups)%nat ∧ length ex' = gwg'
    ∧ (gwg ≤ gwg')%nat.
Proof.
  revert gt gwg ex. induction groups as [|[[sku store] sub] groups IH];
    intros gt gwg ex Hle Hlen.
  { eexists _, _. cbn. rewrite Nat.add_0_r. by repeat split. }
  cbn [foldl length]. unfold continuity_step at 2.
  destruct (_ <? 2)%nat.
  { destruct (IH (S gt) gwg ex) as (gwg' & ex' & -> & ? & ? & ?); [lia|done|].
    eexists _, _. split; [f_equal; f_equal; lia|]. repeat split; [lia|done|lia]. }
  destruct (a <? _)%Z.
  - destruct (IH (S gt) (S gwg) (ex ++ [Continuity.mkExample sku store
        (take 5 (days <$> diff (unique (sort_by Z.leb (dropna (week_start <$> sub))))))]))
      as (gwg' & ex' & -> & ? & ? & ?); [lia|rewrite length_app; cbn; lia|].
    eexists _, _. split; [f_equal; f_equal; lia|]. repeat split; [lia|done|lia].
  - destruct (IH (S gt) gwg ex) as (gwg' & ex' & -> & ? & ? & ?); [lia|done|].
    eexists _, _. split; [f_equal; f_equal; lia|]. repeat split; [lia|done|lia].
Qed.

Lemma check_date_continuity_run w r df f a :
  heap w !! r = Some df →
  "week_start" ∈ columns df → "sku_id" ∈ columns df → "store_id" ∈ columns df →
  check_date_continuity r f a w
  = (let '(gt, gwg, ex) :=
       foldl (continuity_step f a) (0%nat, 0%nat, [])
         ((λ k, (k, filter (λ x, group_key x = Some k) (rows df)))
            <$> sort_by group_key_leb (unique (omap group_key (rows df)))) in
     Ok (Continuity.mk "ok" (Some gt) (Some gwg) (Some (take 10 ex))), w).
Proof.
  intros Hr Hw Hs Ht. unfold check_date_continuity. run_with Hr.
  rewrite (has_col_true _ _ Hw). cbn [negb].
  unfold groupby_sku_store.
  rewrite (proj2 (first_missing_None df ["sku_id"; "store_id"])).
  - by destruct (foldl _ _ _) as [[??]?].
  - by repeat constructor.
Qed.

(** X6. On a table with the key columns the continuity check returns, with
    counters that fit together: [groups_total] is the number of distinct
    (sku_id, store_id) pairs without a null, the groups with gaps are
    among them, and there is one example per such group up to ten.  An
    empty table has no group. *)
Theorem check_date_continuity_counts w r df f a :
  heap w !! r = Some df →
  "week_start" ∈ columns df → "sku_id" ∈ columns df → "store_id" ∈ columns df →
  ∃ gaps examples,
    check_date_continuity r f a w
    = (Ok (Continuity.mk "ok"
             (Some (length (unique (omap group_key (rows df)))))
             (Some gaps) (Some examples)), w)
    ∧ (gaps ≤ length (unique (omap group_key (rows df))))%nat
    ∧ length examples = (gaps `min` 10)%nat
    ∧ (rows df = [] → gaps = 0%nat).
Proof.
  intros Hr Hw Hs Ht. rewrite (check_date_continuity_run _ _ _ _ _ Hr Hw Hs Ht).
  destruct (continuity_fold_counts f a
    ((λ k, (k, filter (λ x, group_key x = Some k) (rows df)))
       <$> sort_by group_key_leb (unique (omap group_key (rows df))))
    0 0 []) as (gwg & ex & -> & Hle & Hlen & _); [done..|].
  rewrite length_fmap, sort_by_length in Hle |- *. cbn [Nat.add] in Hle |- *.
  eexists _, _. split; [reflexivity|]. split; [done|].
  split; [rewrite length_take; lia|].
  intros Hrows. rewrite Hrows in Hle. cbn in Hle. lia.
Qed.

(** X7. The continuity check does not depend on the order of the rows: a
    table and any reordering of its rows get the same result, a
    [KeyError] included.  (The weeks of a group are sorted and made
    distinct before they are compared.) *)
Theorem check_date_continuity_permutation w1 w2 r1 r2 df1 df2 f a :
  heap w1 !! r1 = Some df1 → heap w2 !! r2 = Some df2 →
  columns df1 = columns df2 →
  rows df1 ≡ₚ rows df2 →
  (check_date_continuity r1 f a w1).1 = (check_date_continuity r2 f a w2).1.
Proof.
  intros H1 H2 Hcols Hperm. unfold check_date_continuity.
  run_with H1. run_with H2. unfold has_col. rewrite Hcols.
  destruct (negb _); [done|].
  unfold groupby_sku_store, first_missing. rewrite Hcols.
  destruct (head _); [done|].
  rewrite (group_keys_Permutation _ _ Hperm).
  rewrite (foldl_fmap_ext (continuity_step f a)
             (λ k, (k, filter (λ x, group_key x = Some k) (rows df1)))
             (λ k, (k, filter (λ x, group_key x = Some k) (rows df2)))).
  - by destruct (foldl _ _ _) as [[??]?].
  - intros acc k _. apply continuity_step_Permutation. by rewrite Hperm.
Qed.

(** * Level shifts *)

Lemma detect_level_shift_run sqrtQ w r df window z :
  heap w !! r = Some df →
  "units" ∈ columns df → "week_start" ∈ columns df →
  "sku_id" ∈ columns df → "store_id" ∈ columns df →
  (detect_level_shift sqrtQ r window z w).1
  = (let '(tested, shifts, examples) :=
       foldl (level_shift_step sqrtQ window z) (0%nat, 0%nat, [])
         (groups_of (sorted_rows (rows df))) in
     Ok (LevelShift.mk "ok" (Some tested) (Some shifts) (Some (take 10 examples)))).
Proof.
  intros Hr Hu Hw Hs Ht. unfold detect_level_shift. run_with Hr.
  rewrite (has_col_true _ _ Hu), (has_col_true _ _ Hw). cbn [negb orb].
  run_with Hr. rewrite (sort_values_rows_ok df Hs Ht Hw). run_with Hr.
  unfold groupby_sku_store.
  rewrite (proj2 (first_missing_None _ ["sku_id"; "store_id"]))
    by (by repeat constructor).
  cbn [rows]. unfold groups_of, sorted_rows.
  by destruct (foldl _ _ _) as [[??]?].
Qed.

(** The invariant of the loop: the groups with a shift are among the
    groups tested, these among the groups seen, and each shift has its
    example. *)
Lemma level_shift_fold_counts sqrtQ window z groups tested shifts examples :
  (shifts ≤ tested)%nat → length examples = shifts →
  ∃ tested' shifts' examples',
    foldl (level_shift_step sqrtQ window z) (tested, shifts, examples) groups
    = (tested', shifts', examples')
    ∧ (shifts' ≤ tested')%nat ∧ (tested' ≤ tested + length groups)%nat
    ∧ length examples' = shifts'.
Proof.
  revert tested shifts examples.
  induction groups as [|[[sku store] sub] groups IH]; intros t s ex Hle Hlen.
  { eexists _, _, _. split; [done|]. cbn. repeat split; [done|lia|done]. }
  cbn [foldl length].
  assert (∃ t1 s1 ex1,
    level_shift_step sqrtQ window z (t, s, ex) (sku, store, sub) = (t1, s1, ex1)
    ∧ (s1 ≤ t1)%nat ∧ (t1 ≤ S t)%nat ∧ length ex1 = s1)
    as (t1 & s1 & ex1 & -> & ? & ? & ?).
  { unfold level_shift_step.
    repeat case_match; eexists _, _, _; (split; [reflexivity|]);
      rewrite ?length_app; cbn; repeat split; lia. }
  destruct (IH t1 s1 ex1) as (t' & s' & ex' & -> & ? & ? & ?); [done..|].
  eexists _, _, _. split; [done|]. repeat split; [done|lia|done].
Qed.

(** Groups with fewer than two windows of values are passed over. *)
Lemma level_shift_fold_short sqrtQ window z groups acc :
  Forall (λ g, length (dropna (units <$> g.2)) < window * 2)%nat groups →
  foldl (level_shift_step sqrtQ window z) acc groups = acc.
Proof.
  revert acc. induction groups as [|[[sku store] sub] groups IH];
    intros [[t s] ex] Hall; [done|].
  apply Forall_cons in Hall as [Hg Hall]. cbn [foldl snd] in *.
  unfold level_shift_step at 2. apply Nat.ltb_lt in Hg. rewrite Hg. by apply IH.
Qed.

Lemma dropna_length_le {A} (l : list (option A)) : (length (dropna l) ≤ length l)%nat.
Proof. unfold dropna. induction l as [|[x|] l IH]; cbn in *; lia. Qed.

Lemma groups_of_rows rs g : g ∈ groups_of rs → g.2 ⊆ rs.
Proof.
  unfold groups_of. intros (k & -> & _)%list_elem_of_fmap. cbn.
  intros x Hx. by apply list_elem_of_filter in Hx as [_ ?].
Qed.

Lemma groups_of_length rs : length (groups_of rs) = length (unique (omap group_key rs)).
Proof. unfold groups_of. by rewrite length_fmap, sort_by_length. Qed.

Lemma sorted_rows_Permutation rs : sorted_rows rs ≡ₚ rs.
Proof. apply sort_by_Permutation. Qed.

(** X8. On a table with the columns it reads, the level-shift check
    returns counters that fit together: the groups with a shift are among
    the groups tested, these among the (sku_id, store_id) groups of the
    table, and there is one example per shift up to ten.  A table with
    fewer rows than two windows has no group to test. *)
Theorem detect_level_shift_counts sqrtQ w r df window z :
  heap w !! r = Some df →
  "units" ∈ columns df → "week_start" ∈ columns df →
  "sku_id" ∈ columns df → "store_id" ∈ columns df →
  ∃ tested shifts examples,
    (detect_level_shift sqrtQ r window z w).1
    = Ok (LevelShift.mk "ok" (Some tested) (Some shifts) (Some examples))
    ∧ (shifts ≤ tested)%nat
    ∧ (tested ≤ length (unique (omap group_key (rows df))))%nat
    ∧ length examples = (shifts `min` 10)%nat
    ∧ ((length (rows df) < window * 2)%nat → tested = 0%nat).
Proof.
  intros Hr Hu Hw Hs Ht.
  rewrite (detect_level_shift_run _ _ _ _ _ _ Hr Hu Hw Hs Ht).
  destruct (level_shift_fold_counts sqrtQ window z
              (groups_of (sorted_rows (rows df))) 0 0 [])
    as (t & s & ex & E & Hle & Hgroups & Hlen); [done..|].
  rewrite E. eexists _, _, _. split; [reflexivity|]. split; [done|].
  split.
  { rewrite groups_of_length in Hgroups. cbn in Hgroups.
    by rewrite (Permutation_length
      (unique_Permutation _ _ (omap_Permutation group_key _ _
         (sorted_rows_Permutation (rows df))))) in Hgroups. }
  split; [rewrite length_take; lia|].
  intros Hshort. rewrite level_shift_fold_short in E; [by injection E|].
  apply Forall_forall. intros g Hg.
  pose proof (dropna_length_le (units <$> g.2)) as Hd. rewrite length_fmap in Hd.
  pose proof (groups_of_rows _ _ Hg) as Hsub.
  assert (length g.2 ≤ length (sorted_rows (rows df)))%nat.
  { destruct g as [k sub]. unfold groups_of in Hg.
    apply list_elem_of_fmap in Hg as (k' & [= -> ->] & _). cbn.
    apply length_filter. }
  rewrite (Permutation_length (sorted_rows_Permutation (rows df))) in *. lia.
Qed.

(** ** Flat series *)

Lemma Qlen_cons x l : Qlen (x :: l) == 1 + Qlen l.
Proof.
  unfold Qlen. cbn [length]. rewrite Nat2Z.inj_succ. unfold Z.succ.
  rewrite inject_Z_plus. ring.
Qed.

Lemma Qsum_flat c l : Forall (λ u, u == c) l → Qsum l == c * Qlen l.
Proof.
  induction 1 as [|x l Hx _ IH]; [unfold Qlen; cbn; ring|].
  rewrite Qlen_cons. cbn. rewrite IH, Hx. ring.
Qed.

Lemma mean_flat c l m : Forall (λ u, u == c) l → mean l = Some m → m == c.
Proof.
  intros Hall. destruct l as [|x l]; [done|]. intros [= <-].
  rewrite (Qsum_flat c (x :: l) Hall). field.
  unfold Qlen. cbn [length]. rewrite Nat2Z.inj_succ.
  unfold Qeq. cbn. lia.
Qed.

Lemma last_n_Forall {A} (P : A → Prop) n l : Forall P l → Forall P (last_n n l).
Proof. intros Hl. destruct n; cbn; [done|by apply Forall_drop]. Qed.

(** A group whose values are all equal is not flagged. *)
Lemma level_shift_step_flat sqrtQ window z c t s ex k sub :
  (0 < z)%Q → flat_units c sub →
  ∃ t', level_shift_step sqrtQ window z (t, s, ex) (k, sub) = (t', s, ex).
Proof.
  intros Hz Hflat. unfold level_shift_step. destruct k as [sku store].
  assert (Forall (λ u, u == c) (dropna (units <$> sub))) as Hall.
  { unfold flat_units in Hflat. induction Hflat as [|x l Hx _ IH]; [constructor|].
    unfold dropna in *. cbn. destruct (units x) as [u|] eqn:E; cbn; [|done].
    constructor; [by apply Hx|done]. }
  destruct (_ <? _)%nat; [by eexists|].
  destruct (std _ _) as [sd|]; [|by eexists].
  destruct (Qeq_bool sd 0); [by eexists|].
  destruct (mean (take _ _)) as [fm|] eqn:Efm; [|by eexists].
  destruct (mean (last_n _ _)) as [lm|] eqn:Elm; [|by eexists].
  apply (mean_flat c) in Efm; [|by apply Forall_take].
  apply (mean_flat c) in Elm; [|by apply last_n_Forall].
  destruct (Qle_bool z _) eqn:E; [|by eexists].
  apply Qle_bool_iff in E. exfalso.
  assert (Qabs (lm - fm) / sd == 0)%Q as Hzero.
  { assert (lm - fm == 0)%Q as -> by (rewrite Efm, Elm; ring).
    change (Qabs 0) with 0%Q. unfold Qdiv. ring. }
  rewrite Hzero in E. by apply Qle_not_lt in E.
Qed.

Lemma level_shift_fold_flat sqrtQ window z c groups t s ex :
  (0 < z)%Q → Forall (λ g, flat_units c g.2) groups →
  ∃ t', foldl (level_shift_step sqrtQ window z) (t, s, ex) groups = (t', s, ex).
Proof.
  intros Hz. revert t. induction groups as [|[k sub] groups IH]; intros t Hall;
    [by eexists|].
  apply Forall_cons in Hall as [Hg Hall]. cbn [foldl].
  destruct (level_shift_step_flat sqrtQ window z c t s ex k sub Hz Hg) as [t1 ->].
  by apply IH.
Qed.

(** X9. A table whose units all have one value has no level shift,
    whatever the window, the positive threshold and the square root: no
    group is counted and no example given. *)
Theorem detect_level_shift_flat sqrtQ w r df window z c :
  heap w !! r = Some df →
  "units" ∈ columns df → "week_start" ∈ columns df →
  "sku_id" ∈ columns df → "store_id" ∈ columns df →
  (0 < z)%Q → flat_units c (rows df) →
  ∃ tested,
    (detect_level_shift sqrtQ r window z w).1
    = Ok (LevelShift.mk "ok" (Some tested) (Some 0%nat) (Some [])).
Proof.
  intros Hr Hu Hw Hs Ht Hz Hflat.
  rewrite (detect_level_shift_run _ _ _ _ _ _ Hr Hu Hw Hs Ht).
  destruct (level_shift_fold_flat sqrtQ window z c
              (groups_of (sorted_rows (rows df))) 0 0 [] Hz) as [t ->].
  - apply Forall_forall. intros g Hg. apply Forall_forall. intros x Hx.
    apply (groups_of_rows _ _ Hg) in Hx. rewrite sorted_rows_Permutation in Hx.
    unfold flat_units in Hflat. by apply (proj1 (Forall_forall _ _) Hflat).
  - by eexists.
Qed.

(** * Partial backfill *)

Lemma delta_days_zip (f : Row → option Z) l :
  delta_days <$> zip_with set_delta_days l (f <$> l) = f <$> l.
Proof. induction l as [|x l IH]; [done|]. cbn. by f_equal. Qed.

Lemma days_lower_bound t ns : (t < days ns ↔ (t + 1) * NS_PER_DAY ≤ ns)%Z.
Proof.
  unfold days, NS_PER_DAY.
  pose proof (Z.div_mod ns 86400000000000 ltac:(done)).
  pose proof (Z.mod_pos_bound ns 86400000000000 ltac:(done)).
  change (ns `div` 86400000000000)%Z with (Z.div ns 86400000000000) in *.
  change (ns `mod` 86400000000000)%Z with (Z.modulo ns 86400000000000) in *.
  lia.
Qed.

Lemma backfill_valid_length rs :
  length (dropna ((λ x, match load_ts_parsed x, week_start x with
                        | Some a, Some b => Some (days (a - b))
                        | _, _ => None
                        end) <$> rs))
  = length (filter (λ x, is_Some (load_lag x)) rs).
Proof.
  unfold dropna, load_lag. induction rs as [|x rs IH]; [done|].
  rewrite fmap_cons, filter_cons.
  destruct (load_ts_parsed x), (week_start x); cbn;
    destruct (decide _) as [H|H]; cbn; try (by f_equal);
    try (by destruct H); try (by destruct H as [? [=]]); by destruct H; eexists.
Qed.

Lemma backfill_late_length t rs :
  length (filter (λ d, (t < d)%Z)
            (dropna ((λ x, match load_ts_parsed x, week_start x with
                           | Some a, Some b => Some (days (a - b))
                           | _, _ => None
                           end) <$> rs)))
  = length (filter (loaded_after (t + 1)) rs).
Proof.
  unfold dropna. induction rs as [|x rs IH]; [done|].
  rewrite fmap_cons, (filter_cons (loaded_after _)).
  destruct (decide (loaded_after (t + 1) x)) as [Hle|Hno];
    unfold loaded_after, load_lag in *;
    destruct (load_ts_parsed x) as [a|], (week_start x) as [b|];
    cbn [omap list_omap id]; try done.
  - rewrite filter_cons.
    rewrite decide_True by (by apply days_lower_bound). cbn. by f_equal.
  - rewrite filter_cons. rewrite decide_False; [done|].
    intros Hlt. apply Hno. by apply days_lower_bound.
Qed.

Lemma detect_partial_backfill_run w r df t :
  heap w !! r = Some df →
  "week_start" ∈ columns df → "load_ts_parsed" ∈ columns df →
  same_awareness (load_ts_parsed_tz (tz df)) (week_start_tz (tz df)) = true →
  (detect_partial_backfill r t w).1
  = (let checked := length (filter (λ x, is_Some (load_lag x)) (rows df)) in
     let late := length (filter (loaded_after (t + 1)) (rows df)) in
     let pct := (inject_Z (Z.of_nat late) / inject_Z (Z.of_nat checked))%Q in
     if bool_decide (checked = 0%nat)
     then Ok (Backfill.mk "no_load_ts_parsed" None None None None)
     else Ok (Backfill.mk "ok" (Some checked) (Some late) (Some pct)
                (Some (if Qltb (5 # 100) pct then HintBackfill pct t else NoHint)))).
Proof.
  intros Hr Hw Hp Hz. unfold detect_partial_backfill. run_with Hr.
  rewrite (has_col_true _ _ Hw), (has_col_true _ _ Hp). cbn [negb orb].
  run_with Hr. rewrite Hz. cbn [negb]. run_with Hr.
  cbn [rows]. rewrite delta_days_zip.
  rewrite backfill_valid_length, backfill_late_length. cbn zeta.
  by destruct (bool_decide _).
Qed.

Lemma filter_length_impl {A} (P Q : A → Prop)
    `{∀ x, Decision (P x)} `{∀ x, Decision (Q x)} (l : list A) :
  (∀ x, P x → Q x) → (length (filter P l) ≤ length (filter Q l))%nat.
Proof.
  intros HPQ. induction l as [|x l IH]; [done|]. rewrite !filter_cons.
  destruct (decide (P x)) as [HP|HP].
  - rewrite decide_True by auto. cbn. lia.
  - destruct (decide (Q x)); cbn; lia.
Qed.

(** X10. On a table with both columns of timestamps, the backfill check
    raises [TypeError] when one of them is tz-aware and the other without
    time zone.  Else it counts the rows that have both instants, and among
    them the rows loaded at least [threshold_days + 1] whole days after
    the start of their week: a load 30 days and 23 hours after it is not
    late at the threshold 30.  The late rows are among the counted ones,
    their share lies between 0 and 1, and a hint is given exactly above
    5%.  Without any row with both instants the status is
    [no_load_ts_parsed]. *)
Theorem detect_partial_backfill_counts w r df t :
  heap w !! r = Some df →
  "week_start" ∈ columns df → "load_ts_parsed" ∈ columns df →
  let checked := length (filter (λ x, is_Some (load_lag x)) (rows df)) in
  let late := length (filter (loaded_after (t + 1)) (rows df)) in
  let subtracts :=
    same_awareness (load_ts_parsed_tz (tz df)) (week_start_tz (tz df)) in
  (late ≤ checked)%nat
  ∧ (subtracts = false → (detect_partial_backfill r t w).1 = Raise TypeError)
  ∧ (subtracts = true → checked = 0%nat →
     (detect_partial_backfill r t w).1
     = Ok (Backfill.mk "no_load_ts_parsed" None None None None))
  ∧ (subtracts = true → (0 < checked)%nat →
     ∃ pct h,
       (detect_partial_backfill r t w).1
       = Ok (Backfill.mk "ok" (Some checked) (Some late) (Some pct) (Some h))
       ∧ (pct == inject_Z (Z.of_nat late) / inject_Z (Z.of_nat checked))%Q
       ∧ (0 <= pct)%Q ∧ (pct <= 1)%Q
       ∧ (h = NoHint ↔ (20 * late ≤ checked)%nat)).
Proof.
  intros Hr Hw Hp checked late subtracts.
  assert (late ≤ checked)%nat as Hle.
  { apply filter_length_impl. intros x. unfold loaded_after.
    by destruct (load_lag x). }
  split; [done|]. split.
  { intros Hz. by apply (detect_partial_backfill_raises w r df Hr). }
  assert (subtracts = true →
    (late ≤ checked)%nat
    ∧ (checked = 0%nat →
       (detect_partial_backfill r t w).1
       = Ok (Backfill.mk "no_load_ts_parsed" None None None None))
    ∧ ((0 < checked)%nat →
       ∃ pct h,
         (detect_partial_backfill r t w).1
         = Ok (Backfill.mk "ok" (Some checked) (Some late) (Some pct) (Some h))
         ∧ (pct == inject_Z (Z.of_nat late) / inject_Z (Z.of_nat checked))%Q
         ∧ (0 <= pct)%Q ∧ (pct <= 1)%Q
         ∧ (h = NoHint ↔ (20 * late ≤ checked)%nat))) as Hok;
    [|split; intros Hz; by apply Hok].
  intros Hz.
  rewrite (detect_partial_backfill_run _ _ _ _ Hr Hw Hp Hz). fold checked late.
  cbn zeta. split; [done|]. split.
  { intros ->. done. }
  intros Hpos. rewrite bool_decide_false by lia.
  eexists _, _. split; [reflexivity|]. split; [reflexivity|].
  assert (0 < inject_Z (Z.of_nat checked))%Q as Hc.
  { rewrite <- (Zlt_Qlt 0). lia. }
  split; [|split].
  - apply Qle_shift_div_l; [done|]. rewrite Qmult_0_l.
    rewrite <- (Zle_Qle 0). lia.
  - apply Qle_shift_div_r; [done|]. rewrite Qmult_1_l.
    rewrite <- Zle_Qle. lia.
  - destruct (Qltb _ _) eqn:E.
    + split; [done|]. intros Hsmall. exfalso.
      apply Qltb_lt in E. apply Qlt_not_le in E. apply E.
      apply Qle_shift_div_r; [done|].
      unfold Qle. cbn. lia.
    + split; [|done]. intros _.
      destruct (decide (20 * late ≤ checked)%nat) as [|Hbig]; [done|]. exfalso.
      assert (Qltb (5 # 100)
                (inject_Z (Z.of_nat late) / inject_Z (Z.of_nat checked)) = true);
        [|congruence].
      apply Qltb_lt. apply Qlt_shift_div_l; [done|].
      unfold Qlt. cbn. lia.
Qed.

(** * Time-zone marks and duplicated keys *)

Lemma detect_timezone_shift_run w r df :
  heap w !! r = Some df → "load_ts" ∈ columns df →
  detect_timezone_shift r w
  = (let variants := unique (tz_marks (rows df)) in
     let dup :=
       match first_missing df ["week_start"; "sku_id"; "store_id"] with
       | None => length (repeated_rows (rows df))
       | Some _ => 0%nat
       end in
     let suspicious := (1 <? length variants)%nat || (0 <? dup)%nat in
     (Ok (TzShift.mk "ok" (Some variants) (Some dup) (Some suspicious)
            (Some (if suspicious
                   then HintTz (if (1 <? length variants)%nat
                                then Some variants else None) (0 <? dup)%nat
                   else NoHint))), w)).
Proof.
  intros Hr Hts. unfold detect_timezone_shift. run_with Hr.
  rewrite (has_col_true _ _ Hts). cbn [negb].
  by rewrite mask_sum_duplicated.
Qed.

(** X11. On a table with a [load_ts] column the time-zone check returns the
    distinct marks found in the [load_ts] texts, each once, and the
    number of rows with a repeated primary key: the number the duplicate
    check reports on the same table when the key columns are there, 0 when
    one of them is missing.  The table is suspicious exactly when there
    are two marks or more, or a repeated key, and exactly then there is a
    hint. *)
Theorem detect_timezone_shift_consistent w r df :
  heap w !! r = Some df → "load_ts" ∈ columns df →
  ∃ variants dup suspicious h,
    detect_timezone_shift r w
    = (Ok (TzShift.mk "ok" (Some variants) (Some dup) (Some suspicious) (Some h)), w)
    ∧ NoDup variants
    ∧ (∀ v, v ∈ variants
            ↔ ∃ x, x ∈ rows df ∧ tz_search (load_ts_str (load_ts x)) = Some v)
    ∧ (suspicious = true ↔ (2 ≤ length variants)%nat ∨ (0 < dup)%nat)
    ∧ (h = NoHint ↔ suspicious = false)
    ∧ (Forall (λ c, c ∈ columns df) ["week_start"; "sku_id"; "store_id"] →
       ∃ d, check_duplicates r w = (Ok d, w)
            ∧ Duplicates.duplicate_count d = Some dup)
    ∧ (¬ Forall (λ c, c ∈ columns df) ["week_start"; "sku_id"; "store_id"] →
       dup = 0%nat).
Proof.
  intros Hr Hts. rewrite (detect_timezone_shift_run _ _ _ Hr Hts). cbn zeta.
  eexists _, _, _, _. split; [reflexivity|].
  split; [apply unique_NoDup|]. split.
  { intros v. rewrite elem_of_unique. unfold tz_marks.
    rewrite list_elem_of_omap. done. }
  split.
  { rewrite orb_true_iff, !Nat.ltb_lt. lia. }
  split.
  { destruct (_ || _); by split. }
  split.
  - intros Hpk. rewrite (check_duplicates_run _ _ _ Hr Hpk).
    eexists. split; [reflexivity|]. cbn.
    by rewrite (proj2 (first_missing_None _ _) Hpk).
  - intros Hpk. destruct (first_missing _ _) eqn:E; [done|].
    by apply first_missing_None in E.
Qed.

(** * The reasons of a report *)

Lemma elem_of_policy_reasons table r :
  r ∈ policy_reasons table ↔ (true, r) ∈ table.
Proof.
  unfold policy_reasons. rewrite list_elem_of_fmap. split.
  - intros ([b r'] & -> & Hin). apply list_elem_of_filter in Hin as [Hb Hin].
    cbn in *. by subst.
  - intros Hin. exists (true, r). split; [done|].
    by apply list_elem_of_filter.
Qed.

Lemma elem_of_blocking_logic schema duplicates partial_backfill unit_price_mixup
    level_shift tz_shift r :
  r ∈ blocking_logic schema duplicates partial_backfill unit_price_mixup
        level_shift tz_shift
  ↔ (true, r) ∈ policy_table schema duplicates partial_backfill unit_price_mixup
                  level_shift tz_shift.
Proof. by rewrite blocking_logic_table, elem_of_policy_reasons. Qed.

Lemma duplicates_reason_count schema duplicates partial_backfill unit_price_mixup
    level_shift tz_shift n :
  DuplicatesReason n
    ∈ blocking_logic schema duplicates partial_backfill unit_price_mixup
        level_shift tz_shift →
  Duplicates.duplicate_count duplicates = Some n ∧ (1 ≤ n)%nat.
Proof.
  rewrite elem_of_blocking_logic. unfold policy_table.
  rewrite !elem_of_cons, elem_of_nil.
  intros [H|[H|[H|[H|[H|[H|[]]]]]]]; try discriminate H.
  injection H as Hle Hn.
  destruct (Duplicates.duplicate_count duplicates) as [m|]; cbn in *.
  - subst. split; [done|]. destruct m; [done|lia].
  - by subst.
Qed.

Lemma timezone_reason_suspicious schema duplicates partial_backfill unit_price_mixup
    level_shift tz_shift :
  TzShift.suspicious tz_shift = Some true →
  TimezoneAnomalyOrDupPk
    ∈ blocking_logic schema duplicates partial_backfill unit_price_mixup
        level_shift tz_shift.
Proof.
  intros Hs. rewrite elem_of_blocking_logic. unfold policy_table. rewrite Hs.
  rewrite (bool_decide_true (Some true = Some true)) by done.
  do 5 right. left.
Qed.

Lemma normalized_has_load_ts table :
  "load_ts" ∈ strip <$> columns table → "load_ts" ∈ columns (normalized table).
Proof. apply normalized_keeps. Qed.

Lemma check_duplicates_count_Some w r df d n :
  heap w !! r = Some df →
  (check_duplicates r w).1 = Ok d → Duplicates.duplicate_count d = Some n →
  Forall (λ c, c ∈ columns df) ["week_start"; "sku_id"; "store_id"]
  ∧ n = length (repeated_rows (rows df)).
Proof.
  intros Hr. unfold check_duplicates. run_with Hr.
  destruct (first_missing _ _) eqn:E; cbn; intros [= <-]; [done|].
  cbn. intros [= <-]. split; [by apply first_missing_None|].
  by rewrite mask_sum_duplicated.
Qed.

(** X12. In the verdict of a file with a [load_ts] column whose analysis
    returns (its table goes through every step, the side tables can be
    read) the reason [duplicates] never comes alone: whenever the
    duplicate count blocks, the time-zone check counts the same repeated
    keys and [timezone_anomaly_or_dup_pk] is a reason too. *)
Theorem analyze_file_duplicates_with_timezone sqrtQ e path out p cal w table n :
  read_csv e path = inr table → goes_through table →
  side_valid w p → side_valid w cal →
  side_readable w p → side_readable w cal →
  "load_ts" ∈ strip <$> columns table →
  ∃ rep w',
    analyze_file sqrtQ e path out p cal w = (Ok rep, w')
    ∧ (DuplicatesReason n ∈ Report.blocking_reasons rep →
       TimezoneAnomalyOrDupPk ∈ Report.blocking_reasons rep
       ∧ (2 ≤ n)%nat
       ∧ ∃ tz, Report.tz_shift rep = Some tz
               ∧ TzShift.duplicate_pk_count tz = Some n).
Proof.
  intros Hread Hgo Hp Hc Hrp Hrc Hts.
  destruct (analyze_file_report sqrtQ e path out p cal w table Hread Hgo Hp Hc
              Hrp Hrc)
    as (s & v & d & c & l & m & b & tz & sn & pc & w' & Hrun & _ & _ & Hd
        & _ & _ & _ & _ & Htz & _).
  eexists _, w'. split; [exact Hrun|]. cbn [Report.blocking_reasons Report.tz_shift].
  intros Hin. apply duplicates_reason_count in Hin as [Hn Hpos].
  assert (heap (world_of (normalized table)) !! 0%nat = Some (normalized table))
    as H0 by done.
  destruct (check_duplicates_count_Some _ _ _ _ _ H0 Hd Hn) as [Hpk ->].
  rewrite (detect_timezone_shift_run _ _ _ H0 (normalized_has_load_ts _ Hts)) in Htz.
  rewrite (proj2 (first_missing_None _ _) Hpk) in Htz.
  cbn in Htz. injection Htz as <-.
  split; [|split].
  - apply timezone_reason_suspicious. cbn. f_equal.
    apply orb_true_iff. right.
    destruct (length (repeated_rows (rows (normalized table)))); [lia|done].
  - destruct (repeated_rows_length (rows (normalized table))) as [E|?]; [|done].
    rewrite E in Hpos. cbn in Hpos. lia.
  - by eexists.
Qed.

(** * Paths *)

Lemma list_ascii_of_string_app a b :
  String.list_ascii_of_string (a +:+ b)
  = String.list_ascii_of_string a ++ String.list_ascii_of_string b.
Proof. induction a as [|c a IH]; [done|]. cbn. rewrite <- IH. reflexivity. Qed.

Lemma path_name_from_no_slash acc l :
  "/"%char ∉ l → path_name_from acc l = acc ++ l.
Proof.
  revert acc. induction l as [|c l IH]; intros acc Hl; cbn.
  - by rewrite app_nil_r.
  - apply not_elem_of_cons in Hl as [Hc Hl].
    rewrite bool_decide_false by done. rewrite IH by done.
    by rewrite <- app_assoc.
Qed.

Lemma path_name_from_slash acc d n :
  path_name_from acc (d ++ "/"%char :: n) = path_name_from [] n.
Proof.
  revert acc. induction d as [|c d IH]; intros acc; cbn.
  - done.
  - destruct (bool_decide (c = "/"%char)); apply IH.
Qed.

Lemma path_name_join d n : lacks "/" n → path_name (d +:+ "/" +:+ n) = n.
Proof.
  intros Hn. unfold path_name. rewrite !list_ascii_of_string_app.
  cbn [String.list_ascii_of_string app].
  rewrite path_name_from_slash, path_name_from_no_slash by done.
  cbn [app].
  apply String.string_of_list_ascii_of_string.
Qed.

Lemma before_last_dot_None l : "."%char ∉ l → before_last_dot l = None.
Proof.
  induction l as [|c l IH]; [done|]. intros [Hc Hl]%not_elem_of_cons. cbn.
  rewrite IH by done. by rewrite bool_decide_false.
Qed.

Lemma before_last_dot_split pre suf :
  "."%char ∉ suf → before_last_dot (pre ++ "."%char :: suf) = Some pre.
Proof.
  intros Hsuf. induction pre as [|c pre IH]; cbn.
  - by rewrite before_last_dot_None.
  - by rewrite IH.
Qed.

(** The stem of [dir/name.ext]. *)
Lemma path_stem_join d n x :
  lacks "/" n → lacks "/" x → lacks "." x → n ≠ "" → x ≠ "" →
  path_stem (d +:+ "/" +:+ n +:+ "." +:+ x) = n.
Proof.
  intros Hn Hx Hdot Hne Hxe. unfold path_stem.
  rewrite path_name_join.
  2:{ unfold lacks. rewrite !list_ascii_of_string_app. cbn.
      rewrite elem_of_app, elem_of_cons. intros [?|[?|?]]; done. }
  rewrite !list_ascii_of_string_app. cbn [String.list_ascii_of_string app].
  rewrite before_last_dot_split by done.
  assert (String.list_ascii_of_string n ≠ []) as Hn'.
  { intros E. apply Hne. by destruct n. }
  assert (String.list_ascii_of_string x ≠ []) as Hx'.
  { intros E. apply Hxe. by destruct x. }
  rewrite bool_decide_false by done.
  rewrite bool_decide_false.
  - apply String.string_of_list_ascii_of_string.
  - rewrite length_app. cbn.
    destruct (String.list_ascii_of_string x); [done|]. cbn. lia.
Qed.

(** * The analyzer on a readable file *)

Lemma read_error_not_in_policy schema duplicates partial_backfill unit_price_mixup
    level_shift tz_shift :
  ReadError ∉ blocking_logic schema duplicates partial_backfill unit_price_mixup
                level_shift tz_shift.
Proof.
  rewrite elem_of_blocking_logic. unfold policy_table.
  rewrite !elem_of_cons, elem_of_nil.
  intros [H|[H|[H|[H|[H|[H|[]]]]]]]; discriminate H.
Qed.

(** X13. The analyzer on a readable file [dir/name.ext].  When a coercion
    of the normalizer is refused, its exception escapes and nothing is
    written.  When the analysis returns (the table goes through every
    step, the side tables can be read), it returns a report for
    [name.ext] without an error, whose reasons never include [read_error]
    and whose verdict is FAIL exactly when there is a reason; it writes
    one file, [out/name_dq_report.json], which holds the report it
    returns, and keeps the objects it was given. *)
Theorem analyze_file_writes_report sqrtQ e d n x out p cal w table :
  let path := d +:+ "/" +:+ n +:+ "." +:+ x in
  lacks "/" n → lacks "/" x → lacks "." x → n ≠ "" → x ≠ "" →
  read_csv e path = inr table →
  (∀ ex, normalize_raises table = Some ex →
     (analyze_file sqrtQ e path out p cal w).1 = Raise ex
     ∧ written (analyze_file sqrtQ e path out p cal w).2 = written w)
  ∧ (goes_through table →
     side_valid w p → side_valid w cal →
     side_readable w p → side_readable w cal →
     ∃ rep w',
       analyze_file sqrtQ e path out p cal w = (Ok rep, w')
       ∧ Report.file rep = (n +:+ "." +:+ x)
       ∧ Report.error rep = None
       ∧ (ReadError ∉ Report.blocking_reasons rep)
       ∧ (Report.blocking rep = "FAIL" ↔ Report.blocking_reasons rep ≠ [])
       ∧ written w'
         = written w ++ [JsonReport (out +:+ "/" +:+ n +:+ "_dq_report.json") rep]
       ∧ heap w `prefix_of` heap w').
Proof.
  intros path Hn Hx Hdot Hne Hxe Hread. split.
  { intros ex Hex. unfold analyze_file. rewrite Hread.
    erewrite bind_run by reflexivity.
    assert (heap (mkWorld (heap w ++ [table]) (written w)) !! length (heap w)
            = Some table) as Hlk by (by apply list_lookup_middle).
    by rewrite (bind_raise _ _ _ _ _ (normalize_df_raise _ _ _ _ Hlk Hex)). }
  intros Hgo Hp Hc Hrp Hrc.
  destruct (analyze_file_report sqrtQ e path out p cal w table Hread Hgo Hp Hc
              Hrp Hrc)
    as (s & v & du & c & l & m & b & tz & sn & pc & w' & Hrun & Hrest).
  destruct Hrest as (_ & _ & _ & _ & _ & _ & _ & _ & _ & Hpre & Hwr).
  eexists _, w'. split; [exact Hrun|].
  cbn [Report.file Report.error Report.blocking_reasons Report.blocking].
  split.
  { subst path. apply path_name_join. unfold lacks.
    rewrite !list_ascii_of_string_app. cbn.
    rewrite elem_of_app, elem_of_cons. intros [?|[?|?]]; done. }
  split; [done|]. split; [apply read_error_not_in_policy|].
  split; [apply verdict_fail|]. split; [|done].
  rewrite Hwr. subst path. by rewrite (path_stem_join d n x).
Qed.

(** * The summary of a run *)

Lemma blocking_logic_row_policy file schema duplicates partial_backfill
    unit_price_mixup level_shift tz_shift :
  let reasons :=
    blocking_logic schema duplicates partial_backfill unit_price_mixup
      level_shift tz_shift in
  row_policy
    (SummaryRow.mk file (verdict reasons) reasons
       (Duplicates.duplicate_count duplicates)
       (Backfill.pct_backfilled partial_backfill)
       (Mixup.suspected_unit_price_mixup unit_price_mixup)
       (LevelShift.groups_with_level_shift level_shift)).
Proof.
  intros reasons. unfold row_policy. cbn.
  split; [apply verdict_fail|]. split; [apply verdict_pass|].
  intros Hnil%verdict_pass.
  assert (∀ r, (true, r) ∈ policy_table schema duplicates partial_backfill
                 unit_price_mixup level_shift tz_shift → False) as Hno.
  { intros r Hr. apply elem_of_blocking_logic in Hr. fold reasons in Hr.
    rewrite Hnil in Hr. by apply elem_of_nil in Hr. }
  unfold policy_table in Hno. cbv zeta in Hno. split; [|split; [|split]].
  - destruct (Duplicates.duplicate_count duplicates) as [[|n]|]; cbn; try done.
    exfalso. eapply Hno. right. left.
  - destruct (Qltb DEFAULT_partial_backfill_pct_threshold
                (default 0%Q (Backfill.pct_backfilled partial_backfill))) eqn:E.
    + exfalso. eapply Hno. do 2 right. left.
    + apply Qnot_lt_le. intros Hlt. apply Qltb_lt in Hlt.
      unfold DEFAULT_partial_backfill_pct_threshold in E. congruence.
  - intros E. eapply Hno. do 3 right. rewrite E.
    rewrite (bool_decide_true (Some true = Some true)) by done. left.
  - destruct (LevelShift.groups_with_level_shift level_shift) as [[|n]|]; cbn;
      try done.
    exfalso. eapply Hno. do 4 right. left.
Qed.

Section Summary.
Context (sqrtQ : Q → Q) (e : env).

Lemma analyze_file_outcome path out p cal w :
  analyzable e path → side_valid w p → side_valid w cal →
  side_readable w p → side_readable w cal →
  ∃ rep w',
    analyze_file sqrtQ e path out p cal w = (Ok rep, w')
    ∧ Report.file rep = path_name path
    ∧ row_policy (summary_row rep)
    ∧ heap w `prefix_of` heap w'
    ∧ written w'
      = written w ++ (if readable e path
                      then [JsonReport (report_path out path) rep] else []).
Proof.
  unfold analyzable, readable. intros Hpath Hp Hc Hrp Hrc.
  destruct (read_csv e path) as [msg|table] eqn:Hread.
  - unfold analyze_file. rewrite Hread.
    eexists _, w. rewrite app_nil_r. split; [done|]. split; [done|].
    split; [|done]. unfold row_policy. cbn. by repeat split.
  - destruct (analyze_file_report sqrtQ e path out p cal w table Hread Hpath
                Hp Hc Hrp Hrc)
      as (? & ? & ? & ? & ? & ? & ? & ? & ? & ? & w' & Hrun & Hrest).
    destruct Hrest as (_ & _ & _ & _ & _ & _ & _ & _ & _ & Hpre & Hwr).
    eexists _, w'. split; [exact Hrun|]. split; [done|].
    split; [apply blocking_logic_row_policy|]. by split.
Qed.

Lemma main_loop_summary out p cal files :
  ∀ w rows any_fail,
  (∀ f, f ∈ files → analyzable e f) → side_valid w p → side_valid w cal →
  side_readable w p → side_readable w cal →
  ∃ reps w' l,
    main_loop sqrtQ e files out p cal rows any_fail w
    = (Ok (rows ++ (summary_row <$> reps),
           any_fail || existsb (λ rep, bool_decide (Report.blocking rep = "FAIL")) reps),
       w')
    ∧ Report.file <$> reps = path_name <$> files
    ∧ Forall row_policy (summary_row <$> reps)
    ∧ heap w `prefix_of` heap w'
    ∧ written w' = written w ++ l
    ∧ artifact_path <$> l = report_path out <$> filter (λ f, readable e f = true) files
    ∧ Forall is_json_report l.
Proof using Type.
  induction files as [|f files IH]; intros w rows any_fail Hall Hp Hc Hrp Hrc.
  - exists [], w, []. cbn. rewrite !app_nil_r, orb_false_r. by repeat split.
  - cbn [main_loop].
    assert (analyzable e f) as Hf by (apply Hall; by left).
    destruct (analyze_file_outcome f out p cal w Hf Hp Hc Hrp Hrc)
      as (rep & w1 & Hrun & Hfile & Hpol & Hpre & Hwr).
    erewrite bind_run by exact Hrun.
    assert (extends w (mkWorld (heap w1) (written w))) as Hext by done.
    assert (∀ f', f' ∈ files → analyzable e f') as Hall'
      by (intros f' Hf'; apply Hall; by right).
    destruct (IH w1 (rows ++ [summary_row rep])
                (if bool_decide (Report.blocking rep = "FAIL") then true else any_fail)
                Hall' (side_valid_extends _ _ _ Hext Hp)
                (side_valid_extends _ _ _ Hext Hc)
                (side_readable_extends _ _ _ Hext Hp Hrp)
                (side_readable_extends _ _ _ Hext Hc Hrc))
      as (reps & w' & l & Hloop & Hfiles & Hpols & Hpre' & Hwr' & Hpaths & Hl).
    exists (rep :: reps), w',
      ((if readable e f then [JsonReport (report_path out f) rep] else []) ++ l).
    rewrite Hloop. split; [|split; [|split; [|split; [|split; [|split]]]]].
    + rewrite <- app_assoc. cbn [app existsb fmap list_fmap].
      by destruct (bool_decide _), any_fail.
    + cbn. by rewrite Hfile, Hfiles.
    + by constructor.
    + by etrans.
    + by rewrite Hwr', Hwr, app_assoc.
    + rewrite fmap_app, Hpaths, filter_cons.
      destruct (readable e f); [rewrite decide_True by done|
                                rewrite decide_False by done]; done.
    + apply Forall_app. split; [|done].
      destruct (readable e f); by repeat constructor.
Qed.
End Summary.

(** ** The order of paths *)

Lemma parts_leb_order : total_order parts_leb.
Proof.
  destruct string_leb_order as [Stot Strans Santi].
  split.
  - intros a. induction a as [|x a IH]; intros [|y b]; cbn; auto.
    repeat case_bool_decide; subst; try congruence; [apply IH|apply Stot].
  - intros a. induction a as [|x a IH]; intros [|y b] [|z c]; cbn; try done.
    repeat case_bool_decide; subst; try congruence; eauto.
    all: intros H1 H2; by pose proof (Santi _ _ H1 H2).
  - intros a. induction a as [|x a IH]; intros [|y b]; cbn; try done.
    repeat case_bool_decide; subst; try congruence.
    + intros H1 H2. f_equal. by apply IH.
    + intros H1 H2. by pose proof (Santi _ _ H1 H2).
Qed.

Lemma split_slash_cons l : ∃ part parts, split_slash l = part :: parts.
Proof.
  induction l as [|c l (part & parts & IH)]; cbn; [by eexists _, _|].
  case_bool_decide; [by eexists _, _|]. rewrite IH. by eexists _, _.
Qed.

Lemma split_slash_inj l1 l2 : split_slash l1 = split_slash l2 → l1 = l2.
Proof.
  revert l2. induction l1 as [|c1 l1 IH]; intros [|c2 l2]; cbn; [done|..].
  - destruct (split_slash_cons l2) as (part & parts & ->).
    by case_bool_decide.
  - destruct (split_slash_cons l1) as (part & parts & ->).
    by case_bool_decide.
  - destruct (split_slash_cons l1) as (p1 & ps1 & E1).
    destruct (split_slash_cons l2) as (p2 & ps2 & E2).
    repeat case_bool_decide; subst.
    + intros [= E]. f_equal. by apply IH.
    + rewrite E2. done.
    + rewrite E1. done.
    + rewrite E1, E2. intros [= -> -> ->]. f_equal. apply IH. by rewrite E1, E2.
Qed.

Lemma string_of_list_ascii_inj l1 l2 :
  String.string_of_list_ascii l1 = String.string_of_list_ascii l2 → l1 = l2.
Proof.
  intros E. apply (f_equal String.list_ascii_of_string) in E.
  by rewrite !String.list_ascii_of_string_of_list_ascii in E.
Qed.

Lemma path_parts_inj p q : path_parts p = path_parts q → p = q.
Proof.
  unfold path_parts. intros E.
  assert (∀ a b : list (list ascii),
            String.string_of_list_ascii <$> a = String.string_of_list_ascii <$> b →
            a = b) as Hinj.
  { induction a as [|x a IH]; intros [|y b]; cbn; try done.
    intros [= Exy Eab]. f_equal; [by apply string_of_list_ascii_inj|by apply IH]. }
  apply Hinj, split_slash_inj in E.
  rewrite <- (String.string_of_list_ascii_of_string p),
          <- (String.string_of_list_ascii_of_string q). by rewrite E.
Qed.

(** Paths are totally ordered by their components. *)
Lemma path_leb_order : total_order path_leb.
Proof.
  destruct parts_leb_order as [Ptot Ptrans Panti]. unfold path_leb. split.
  - intros p q. apply Ptot.
  - intros p q r. apply Ptrans.
  - intros p q H1 H2. apply path_parts_inj. by apply Panti.
Qed.

(** X14. A run over a data directory with matching files whose analysis
    returns for each (the side tables can be read, every file cannot be
    read or has a table that goes through every step): the files are
    taken in the order of [Path] objects, component by component, the
    summary has one row per file in this order, named after the file, one
    report is written per readable file, in the same order and before the
    summary, and the exit status is 1 exactly when a report is
    blocking. *)
Theorem main_summary sqrtQ e a w :
  let files := sort_by path_leb (glob e (data_dir a) (pattern a)) in
  path_exists e (data_dir a) = true →
  pattern a ≠ "" → is_absolute (pattern a) = false → files ≠ [] →
  side_file_readable e (promos a) → side_file_readable e (calendar a) →
  (∀ f, f ∈ files → analyzable e f) →
  ∃ reps l w',
    main sqrtQ e a w
    = (Raise (SystemExit
                (if existsb (λ rep, bool_decide (Report.blocking rep = "FAIL")) reps
                 then 1 else 0)), w')
    ∧ StronglySorted (λ f g, path_leb f g = true) files
    ∧ files ≡ₚ glob e (data_dir a) (pattern a)
    ∧ Report.file <$> reps = path_name <$> files
    ∧ written w'
      = written w ++ l
        ++ [SummaryCsv (out_dir a +:+ "/summary_report.csv") (summary_row <$> reps)]
    ∧ artifact_path <$> l
      = report_path (out_dir a) <$> filter (λ f, readable e f = true) files
    ∧ Forall is_json_report l.
Proof.
  intros files Hdir Hne Habs Hfiles Hsp Hsc Hall. unfold main. rewrite Hdir.
  cbn [negb].
  destruct (load_optional_csv_run e (promos a) w)
    as (p & w1 & E1 & Hp1 & Hw1 & Hp & Hrp).
  erewrite bind_run by exact E1.
  destruct (load_optional_csv_run e (calendar a) w1)
    as (c & w2 & E2 & Hp2 & Hw2 & Hc & Hrc).
  erewrite bind_run by exact E2.
  erewrite bind_run by (by apply sorted_glob_run).
  fold files.
  assert (extends w1 w2) as Hext by (by split).
  destruct (main_loop_summary sqrtQ e (out_dir a) p c files w2 [] false Hall
              (side_valid_extends _ _ _ Hext Hp) Hc
              (side_readable_extends _ _ _ Hext Hp (Hrp Hsp)) (Hrc Hsc))
    as (reps & w3 & l & Hloop & Hnames & _ & _ & Hw3 & Hpaths & Hl).
  destruct path_leb_order as [Htot Htrans _].
  pose proof (sort_by_sorted path_leb Htot Htrans
                (glob e (data_dir a) (pattern a))) as Hsorted.
  pose proof (sort_by_Permutation path_leb (glob e (data_dir a) (pattern a)))
    as Hperm.
  fold files in Hsorted, Hperm.
  destruct files as [|f files'] eqn:Ef; [done|].
  erewrite bind_run by exact Hloop. cbv beta iota.
  erewrite bind_run by reflexivity.
  exists reps, l. cbn [orb app].
  destruct (existsb _ reps); eexists; (split; [reflexivity|]);
    cbn [written]; rewrite Hw3, Hw2, Hw1, <- app_assoc; by repeat split.
Qed.

(** * The order of the directory listing *)

Section Listing.
Context (sqrtQ : Q → Q) (e1 e2 : env).
Context (Hnow : utcnow e1 = utcnow e2).
Context (Hexists : ∀ p, path_exists e1 p = path_exists e2 p).
Context (Hread : ∀ p, read_csv e1 p = read_csv e2 p).

Lemma analyze_file_env path out p cal w :
  analyze_file sqrtQ e1 path out p cal w = analyze_file sqrtQ e2 path out p cal w.
Proof using Hnow Hread. unfold analyze_file. by rewrite Hnow, Hread. Qed.

Lemma load_optional_csv_env path w :
  load_optional_csv e1 path w = load_optional_csv e2 path w.
Proof using Hexists Hread.
  unfold load_optional_csv. destruct path as [p|]; [|done].
  by rewrite Hexists, Hread.
Qed.

Lemma main_loop_env files out p cal rows any_fail w :
  main_loop sqrtQ e1 files out p cal rows any_fail w
  = main_loop sqrtQ e2 files out p cal rows any_fail w.
Proof using Hnow Hread.
  revert rows any_fail w. induction files as [|f files IH]; intros rows any_fail w;
    [done|].
  cbn [main_loop]. unfold mbind, M_bind. rewrite analyze_file_env.
  destruct (analyze_file sqrtQ e2 f out p cal w) as [[rep|err] w1]; [|done].
  apply IH.
Qed.
End Listing.

(** X15. The order in which the directory lists the files does not
    matter: two runs that see the same clock and the same files, listed in
    different orders, write the same files and end with the same status,
    since the files are sorted before they are analyzed. *)
Theorem main_listing_order sqrtQ e1 e2 a w :
  utcnow e1 = utcnow e2 →
  (∀ p, path_exists e1 p = path_exists e2 p) →
  (∀ p, read_csv e1 p = read_csv e2 p) →
  glob e1 (data_dir a) (pattern a) ≡ₚ glob e2 (data_dir a) (pattern a) →
  main sqrtQ e1 a w = main sqrtQ e2 a w.
Proof.
  intros Hnow Hexists Hread Hglob. unfold main. rewrite Hexists.
  destruct (negb _); [done|].
  unfold mbind, M_bind.
  rewrite (load_optional_csv_env e1 e2 Hexists Hread).
  destruct (load_optional_csv e2 (promos a) w) as [[p|err] w1]; [|done].
  rewrite (load_optional_csv_env e1 e2 Hexists Hread).
  destruct (load_optional_csv e2 (calendar a) w1) as [[c|err] w2]; [|done].
  unfold sorted_glob.
  destruct (bool_decide (pattern a = "")); [done|].
  destruct (is_absolute (pattern a)); [done|].
  unfold mret, M_ret.
  assert (sort_by path_leb (glob e1 (data_dir a) (pattern a))
          = sort_by path_leb (glob e2 (data_dir a) (pattern a))) as ->.
  { destruct path_leb_order as [Htot Htrans Hanti].
    apply sort_by_unique; [done|done|done|by intros; apply Hanti]. }
  destruct (sort_by _ _); [done|].
  by rewrite (main_loop_env sqrtQ e1 e2 Hnow Hread).
Qed.

(** * Seasonality *)

Lemma corr_bounded sqrtQ a b v :
  corr sqrtQ a b = Some v → (-1 <= v)%Q ∧ (v <= 1)%Q.
Proof.
  unfold corr. destruct (mean a), (mean b); try done.
  destruct (_ <? 2)%nat; [done|]. destruct (_ || _); [done|].
  intros [= <-].
  destruct (Qltb _ (-1)) eqn:E1; [done|].
  destruct (Qltb 1 _) eqn:E2; [done|].
  split.
  - apply Qnot_lt_le. intros H. apply Qltb_lt in H. congruence.
  - apply Qnot_lt_le. intros H. apply Qltb_lt in H. congruence.
Qed.

Lemma weekly_units_length rs :
  length (weekly_units rs) = length (unique (omap week_start rs)).
Proof. unfold weekly_units. by rewrite length_fmap, sort_by_length. Qed.

(** X16. The seasonality check on a table with [week_start] and [units]:
    with fewer than 24 distinct weeks the status is [not_enough_history]
    and no correlation is given; from 24 weeks on the status is [ok], the
    lag-1 autocorrelation is always given and the lag-52 one exactly when
    there are more than 52 weeks.  [n_weeks] is the number of distinct
    non-null weeks, and a correlation that is a number lies between -1
    and 1, whatever the square root. *)
Theorem detect_seasonality_break_weeks sqrtQ w r df :
  heap w !! r = Some df → "week_start" ∈ columns df → "units" ∈ columns df →
  let n := length (unique (omap week_start (rows df))) in
  ∃ a1 a52,
    detect_seasonality_break sqrtQ r w
    = (Ok (Seasonality.mk (if (n <? 24)%nat then "not_enough_history" else "ok")
             (Some n) a1 a52), w)
    ∧ (a1 = None ↔ (n < 24)%nat)
    ∧ (a52 = None ↔ (n ≤ 52)%nat)
    ∧ (∀ v, a1 = Some (Some v) ∨ a52 = Some (Some v) → (-1 <= v)%Q ∧ (v <= 1)%Q).
Proof.
  intros Hr Hw Hu n. unfold detect_seasonality_break. run_with Hr.
  rewrite (has_col_true _ _ Hw), (has_col_true _ _ Hu). cbn [negb orb].
  rewrite weekly_units_length. fold n.
  destruct (n <? 24)%nat eqn:E24.
  - apply Nat.ltb_lt in E24. eexists _, _. split; [reflexivity|].
    split; [done|]. split; [split; [lia|done]|]. by intros v [?|?].
  - apply Nat.ltb_ge in E24.
    assert ((1 <? n)%nat = true) as -> by (apply Nat.ltb_lt; lia).
    eexists _, _. split; [reflexivity|].
    split; [split; [done|lia]|].
    split.
    + destruct (52 <? n)%nat eqn:E52.
      * apply Nat.ltb_lt in E52. split; [done|lia].
      * apply Nat.ltb_ge in E52. done.
    + intros v [[= Hv]|Hv].
      * by apply corr_bounded in Hv.
      * destruct (52 <? n)%nat; [|done]. injection Hv as Hv.
        by apply corr_bounded in Hv.
Qed.

(** * Promotions and calendar events *)

(** A side table gives its hint, or none, or is refused. *)
Lemma side_hints_outcome z w side big mk hints :
  side_valid w side →
  ∃ x l,
    side_hints z side big mk hints w = (x, mkWorld (heap w ++ l) (written w))
    ∧ (x = Raise ValueError
       ∨ ∃ v, x = Ok v
           ∧ (v = hints ∨ ∃ overlaps, overlaps ≠ [] ∧ v = hints ++ [mk overlaps])).
Proof.
  intros Hside. destruct side as [s|]; cbn [side_hints].
  - destruct (Hside s eq_refl) as [ds H1]. run_with H1.
    destruct (has_col ds "week_start") eqn:Hcol.
    + unfold side_overlaps. run_with H1.
      unfold getitem. rewrite Hcol. run_with H1.
      destruct (to_datetime_refuses _ _ _).
      { eexists _, [_]. split; [reflexivity|by left]. }
      run_with H1.
      eexists _, [_]. split; [reflexivity|]. right. eexists. split; [done|].
      case_bool_decide as E; [by left|right]. by eexists.
    + exists (Ok hints), []. rewrite world_app_nil.
      split; [done|]. right. eexists. split; [done|by left].
  - exists (Ok hints), []. rewrite world_app_nil.
    split; [done|]. right. eexists. split; [done|by left].
Qed.

(** X17. The promotion and calendar diagnostics, with side tables that
    exist.  They return when the side tables can be read, and raise
    nothing but the [ValueError] of a side table that cannot.  When they
    return: without both side tables the status is [no_data]; the status
    is [ok] exactly when there is a hint, and then the big-change weeks
    are listed, at least one, with their number; the hint that nothing
    matched is given only alone. *)
Theorem promo_calendar_diagnostics_hints w r df p cal :
  heap w !! r = Some df → side_valid w p → side_valid w cal →
  (side_readable w p → side_readable w cal →
   ∃ d, (promo_calendar_diagnostics r p cal w).1 = Ok d)
  ∧ (∀ ex, (promo_calendar_diagnostics r p cal w).1 = Raise ex → ex = ValueError)
  ∧ (∀ d, (promo_calendar_diagnostics r p cal w).1 = Ok d →
     (p = None → cal = None → d = PromoCalendar.mk "no_data" None None [])
     ∧ (PromoCalendar.status d = "ok" ↔ PromoCalendar.hints d ≠ [])
     ∧ (PromoCalendar.status d = "ok" →
        ∃ weeks, weeks ≠ []
          ∧ PromoCalendar.big_change_weeks d = Some weeks
          ∧ PromoCalendar.n_big_changes d = Some (length weeks))
     ∧ (PromoCalendar.status d ≠ "ok" →
        PromoCalendar.big_change_weeks d = None
        ∧ PromoCalendar.n_big_changes d = None)
     ∧ (HintNoMatch ∈ PromoCalendar.hints d → PromoCalendar.hints d = [HintNoMatch])).
Proof.
  intros Hr Hp Hc.
  split; [intros Hrp Hrc; by eapply promo_calendar_diagnostics_ok|].
  unfold promo_calendar_diagnostics.
  destruct (bool_decide (p = None) && bool_decide (cal = None)) eqn:Enone.
  { split; [done|]. intros d [= <-]. cbn.
    repeat split; try done. by intros []%elem_of_nil. }
  assert (¬ (p = None ∧ cal = None)) as Hsome.
  { intros [-> ->]. done. }
  clear Enone. run_with Hr.
  destruct (negb _ || negb _).
  { split; [done|]. intros d [= <-]. cbn.
    repeat split; try done; try tauto. by intros []%elem_of_nil. }
  destruct (_ <? 4)%nat.
  { split; [done|]. intros d [= <-]. cbn.
    repeat split; try done; try tauto. by intros []%elem_of_nil. }
  case_bool_decide as Ebig.
  { split; [done|]. intros d [= <-]. cbn.
    repeat split; try done; try tauto. by intros []%elem_of_nil. }
  destruct (side_hints_outcome (week_start_tz (tz df)) w p
              (big_changes (weekly_units (rows df)))
              HintPromoOverlap [] Hp) as (x & l1 & -> & Hx).
  destruct Hx as [->|(v & -> & Hv)]; [by split; [intros ? [= <-]|]|].
  destruct (side_hints_outcome (week_start_tz (tz df))
              (mkWorld (heap w ++ l1) (written w)) cal
              (big_changes (weekly_units (rows df))) HintCalendarOverlap v)
    as (x' & l2 & -> & Hx'); [by apply side_valid_app|].
  destruct Hx' as [->|(v' & -> & Hv')]; [by split; [intros ? [= <-]|]|].
  split; [done|]. intros d [= <-]. cbn.
  split; [tauto|]. split.
  { split; [|done]. intros _. by destruct v'. }
  split.
  { intros _. eexists. split; [|split; [reflexivity|]].
    - intros E. apply Ebig. apply (f_equal length) in E.
      by rewrite length_fmap in E.
    - by rewrite length_fmap. }
  split; [done|].
  destruct Hv as [->|(ov & _ & ->)], Hv' as [->|(ov' & _ & ->)]; cbn;
    rewrite ?elem_of_cons, ?elem_of_nil; intros H; [done|..];
    repeat (destruct H as [H|H]; try discriminate H); done.
Qed.

(** * The rows of the summary *)

(** X18. On a run in which the analysis of every file returns (the side
    tables can be read, every file cannot be read or has a table that
    goes through every step), every row of the summary obeys the policy
    of the analyzer: its verdict is FAIL exactly when it has a reason and
    PASS exactly when it has none, and a passing row has no repeated key,
    no suspected mixup, no level shift and at most 20% of late rows.
    There is one row per file, and the exit status is 1 exactly when a
    row is blocking. *)
Theorem main_summary_policy sqrtQ e a w :
  let files := sort_by path_leb (glob e (data_dir a) (pattern a)) in
  path_exists e (data_dir a) = true →
  pattern a ≠ "" → is_absolute (pattern a) = false → files ≠ [] →
  side_file_readable e (promos a) → side_file_readable e (calendar a) →
  (∀ f, f ∈ files → analyzable e f) →
  ∃ rows earlier,
    written (main sqrtQ e a w).2
    = earlier ++ [SummaryCsv (out_dir a +:+ "/summary_report.csv") rows]
    ∧ length rows = length files
    ∧ Forall row_policy rows
    ∧ exit_status (main sqrtQ e a w).1 = (if existsb row_fails rows then 1 else 0)%Z.
Proof.
  intros files Hdir Hne Habs Hfiles Hsp Hsc Hall. unfold main. rewrite Hdir.
  cbn [negb].
  destruct (load_optional_csv_run e (promos a) w)
    as (p & w1 & E1 & Hp1 & Hw1 & Hp & Hrp).
  erewrite bind_run by exact E1.
  destruct (load_optional_csv_run e (calendar a) w1)
    as (c & w2 & E2 & Hp2 & Hw2 & Hc & Hrc).
  erewrite bind_run by exact E2.
  erewrite bind_run by (by apply sorted_glob_run).
  fold files.
  assert (extends w1 w2) as Hext by (by split).
  destruct (main_loop_summary sqrtQ e (out_dir a) p c files w2 [] false Hall
              (side_valid_extends _ _ _ Hext Hp) Hc
              (side_readable_extends _ _ _ Hext Hp (Hrp Hsp)) (Hrc Hsc))
    as (reps & w3 & l & Hloop & Hnames & Hpol & _ & Hw3 & _ & _).
  assert (length reps = length files) as Hlen.
  { apply (f_equal length) in Hnames. by rewrite !length_fmap in Hnames. }
  assert (existsb row_fails (summary_row <$> reps)
          = existsb (λ rep, bool_decide (Report.blocking rep = "FAIL")) reps) as Hfails.
  { clear. induction reps as [|rep reps IH]; [done|]. cbn. by rewrite IH. }
  destruct files as [|f files'] eqn:Ef; [done|].
  erewrite bind_run by exact Hloop. cbv beta iota.
  erewrite bind_run by reflexivity.
  exists (summary_row <$> reps), (written w ++ l). rewrite Hfails.
  cbn [orb app].
  destruct (existsb _ reps); cbn [written fst snd exit_status];
    rewrite Hw3, Hw2, Hw1, length_fmap; by repeat split.
Qed.

(** * The overall status *)

Lemma any_fmap_false {A} (f : A → bool) l :
  Forall (λ x, f x = false) l → any (f <$> l) = false.
Proof.
  induction 1 as [|x l Hx _ IH]; [done|]. unfold any in *. cbn.
  by rewrite Hx, IH.
Qed.

Lemma any_fmap_true {A} (f : A → bool) l :
  any (f <$> l) = true ↔ ∃ x, x ∈ l ∧ f x = true.
Proof.
  unfold any. induction l as [|x l IH]; cbn.
  - split; [done|]. by intros (x & []%elem_of_nil & _).
  - rewrite orb_true_iff, IH. split.
    + intros [Hx|(y & Hy & Hfy)]; [exists x; split; [left|done]|].
      exists y. split; [by right|done].
    + intros (y & [->|Hy]%elem_of_cons & Hfy); [by left|right; by exists y].
Qed.

Lemma row_policy_verdict row :
  row_policy row → SummaryRow.blocking row = "FAIL" ∨ SummaryRow.blocking row = "PASS".
Proof.
  intros (Hfail & Hpass & _).
  destruct (SummaryRow.blocking_reasons row); [right; by apply Hpass|].
  left. by apply Hfail.
Qed.

Lemma blocking_mask_policy rows :
  Forall row_policy rows →
  blocking_mask (mkSummary runner_columns rows) = row_fails <$> rows.
Proof.
  intros Hall. unfold blocking_mask. cbn [summary_rows].
  apply Forall_fmap_ext_1. eapply Forall_impl; [exact Hall|].
  intros row Hrow. unfold row_fails.
  by destruct (row_policy_verdict row Hrow) as [-> | ->].
Qed.

Lemma existsb_any {A} (f : A → bool) l : existsb f l = any (f <$> l).
Proof. unfold any. induction l as [|x l IH]; [done|]. cbn. by rewrite IH. Qed.

Lemma mask_sum_pos mask : (0 < mask_sum mask)%nat ↔ any mask = true.
Proof.
  unfold mask_sum, any. induction mask as [|[|] mask IH].
  - cbn. split; [lia|done].
  - rewrite filter_cons, decide_True by done. cbn. split; [done|lia].
  - rewrite filter_cons, decide_False by done. done.
Qed.

(** X19. The overall status of a summary whose rows obey the policy of
    the analyzer: it is [red] exactly when a row is blocking, which is
    when the count of red rows is positive; otherwise it is [amber]
    exactly when some row has late rows, and [green] when none has.  So
    [amber] always comes from a share of late rows above 0 and up to 20%:
    repeated keys, a suspected mixup and level shifts turn the status
    red before they can turn it amber. *)
Theorem write_summary_json_status rows :
  Forall row_policy rows →
  let s := write_summary_json (mkSummary runner_columns rows) in
  files_checked s = length rows
  ∧ (count_red s ≤ files_checked s)%nat
  ∧ (dq_status s = "red" ↔ existsb row_fails rows = true)
  ∧ (dq_status s = "red" ↔ (0 < count_red s)%nat)
  ∧ (dq_status s = "amber"
     ↔ existsb row_fails rows = false
       ∧ ∃ row q, row ∈ rows ∧ SummaryRow.pct_backfilled row = Some q
                  ∧ (0 < q)%Q ∧ (q <= 20 # 100)%Q)
  ∧ (dq_status s = "green"
     ↔ existsb row_fails rows = false
       ∧ Forall (λ row, (default 0%Q (SummaryRow.pct_backfilled row) <= 0)%Q) rows).
Proof.
  intros Hall s. subst s. unfold write_summary_json, compute_overall_status.
  cbn [summary_columns summary_rows dq_status files_checked count_red].
  rewrite !(bool_decide_true (_ ∈ runner_columns)) by by_computation.
  cbn [andb]. rewrite (blocking_mask_policy rows Hall), <- existsb_any.
  split; [done|]. split.
  { unfold mask_sum. etrans; [apply length_filter|]. by rewrite length_fmap. }
  destruct (existsb row_fails rows) eqn:Efail.
  { split; [done|]. split.
    - split; [|done]. intros _. apply mask_sum_pos. by rewrite <- existsb_any.
    - split; split; try done; by intros [? _]. }
  assert (Forall (λ row, SummaryRow.blocking row = "PASS") rows) as Hpass.
  { apply Forall_forall. intros row Hrow.
    destruct (row_policy_verdict row (proj1 (Forall_forall _ _) Hall row Hrow))
      as [Hf|Hp]; [|done].
    assert (existsb row_fails rows = true); [|congruence].
    apply existsb_exists. exists row. split; [by apply list_elem_of_In|].
    unfold row_fails. by rewrite Hf. }
  assert (Forall (λ row,
            default 0%nat (SummaryRow.duplicate_count row) = 0%nat
            ∧ (default 0%Q (SummaryRow.pct_backfilled row) <= 20 # 100)%Q
            ∧ SummaryRow.suspected_unit_price_mixup row ≠ Some true
            ∧ default 0%nat (SummaryRow.level_shift_groups row) = 0%nat) rows) as Hrows.
  { apply Forall_forall. intros row Hrow.
    apply (proj1 (Forall_forall _ _) Hall row Hrow).
    by apply (proj1 (Forall_forall _ _) Hpass row Hrow). }
  rewrite (any_fmap_false (λ r, (0 <? default 0 (SummaryRow.duplicate_count r))%nat)).
  2:{ eapply Forall_impl; [exact Hrows|]. by intros row (-> & _). }
  rewrite (any_fmap_false (λ r, bool_decide (upper (bool_cell_str _) = "TRUE"))).
  2:{ eapply Forall_impl; [exact Hrows|]. intros row (_ & _ & Hm & _).
      by destruct (SummaryRow.suspected_unit_price_mixup row) as [[|]|]. }
  rewrite (any_fmap_false (λ r, (0 <? default 0 (SummaryRow.level_shift_groups r))%nat)).
  2:{ eapply Forall_impl; [exact Hrows|]. by intros row (_ & _ & _ & ->). }
  assert (¬ (0 < mask_sum (row_fails <$> rows))%nat) as Hred.
  { intros Hpos%mask_sum_pos. rewrite <- existsb_any in Hpos. congruence. }
  destruct (any _) eqn:Elate.
  - split; [done|]. split; [done|]. split.
    + split; [|done]. intros _. split; [done|].
      apply any_fmap_true in Elate as (row & Hrow & Hq%Qltb_lt).
      destruct (proj1 (Forall_forall _ _) Hrows row Hrow) as (_ & Hle & _).
      destruct (SummaryRow.pct_backfilled row) as [q|] eqn:Eq; [|done].
      by exists row, q.
    + split; [done|]. intros [_ Hnone].
      apply any_fmap_true in Elate as (row & Hrow & Hq%Qltb_lt).
      pose proof (proj1 (Forall_forall _ _) Hnone row Hrow) as Hle.
      by apply Qlt_not_le in Hq.
  - split; [done|]. split; [done|]. split.
    + split; [done|]. intros [_ (row & q & Hrow & Eq & Hq & _)].
      assert (any ((λ r, Qltb 0 (default 0%Q (SummaryRow.pct_backfilled r))) <$> rows)
              = true); [|congruence].
      apply any_fmap_true. exists row. split; [done|]. rewrite Eq. by apply Qltb_lt.
    + split; [|done]. intros _. split; [done|].
      apply Forall_forall. intros row Hrow. apply Qnot_lt_le. intros Hq.
      assert (any ((λ r, Qltb 0 (default 0%Q (SummaryRow.pct_backfilled r))) <$> rows)
              = true); [|congruence].
      apply any_fmap_true. exists row. split; [done|]. by apply Qltb_lt.
Qed.

(** * The schema repair *)

Lemma filter_ext_in {A} (P Q : A → Prop)
    `{∀ x, Decision (P x)} `{∀ x, Decision (Q x)} (l : list A) :
  Forall (λ x, P x ↔ Q x) l → filter P l = filter Q l.
Proof.
  induction 1 as [|x l Hx _ IH]; [done|]. rewrite !filter_cons, IH.
  destruct (decide (P x)) as [HP|HP].
  - by rewrite decide_True by (by apply Hx).
  - by rewrite decide_False by (by rewrite <- Hx).
Qed.

Lemma add_missing_columns df l :
  NoDup l →
  columns (foldl add_missing_column df l)
  = columns df ++ filter (λ c, c ∉ columns df) l.
Proof.
  revert df. induction l as [|c l IH]; intros df Hnd; cbn [foldl].
  { by rewrite app_nil_r. }
  apply NoDup_cons in Hnd as [Hc Hnd]. rewrite IH by done.
  rewrite filter_cons. unfold add_missing_column.
  case_bool_decide as Hin.
  - by rewrite decide_False by (by intros ?).
  - rewrite decide_True by done. cbn [columns]. rewrite <- app_assoc. cbn [app].
    do 2 f_equal. apply filter_ext_in. apply Forall_forall. intros c' Hc'.
    rewrite elem_of_app, list_elem_of_singleton.
    split; [tauto|]. intros Hn [?| ->]; done.
Qed.

Lemma add_missing_rows_length df l :
  length (rows (foldl add_missing_column df l)) = length (rows df).
Proof.
  revert df. induction l as [|c l IH]; intros df; cbn [foldl]; [done|].
  rewrite IH. unfold add_missing_column. case_bool_decide; [done|].
  cbn. by rewrite length_fmap.
Qed.

Lemma add_missing_present df l :
  Forall (λ c, c ∈ columns df) l → foldl add_missing_column df l = df.
Proof.
  induction 1 as [|c l Hc _ IH]; cbn [foldl]; [done|].
  unfold add_missing_column at 2. by rewrite bool_decide_true.
Qed.

Lemma add_missing_column_other df c c' :
  c' ≠ c → c' ∉ columns df → c' ∉ columns (add_missing_column df c).
Proof.
  intros Hne Hc. unfold add_missing_column. case_bool_decide; [done|].
  cbn [columns]. rewrite elem_of_app, list_elem_of_singleton. by intros [?|?].
Qed.

Lemma default_cell_units c x : "units" ≠ c → units (default_cell c x) = units x.
Proof.
  intros Hc. unfold default_cell.
  destruct (bool_decide (c = "currency")); [done|].
  destruct (bool_decide (c ∈ _)).
  - rewrite (bool_decide_false (c = "units")) by done.
    by destruct (bool_decide _).
  - by repeat (destruct (bool_decide _); [done|]).
Qed.

Lemma fix_schema_frame_columns df :
  columns (fix_schema_frame df) = EXPECTED ++ filter (λ c, c ∉ EXPECTED) (columns df).
Proof.
  unfold fix_schema_frame. cbn [columns].
  rewrite add_missing_columns by by_computation.
  f_equal.
  - apply filter_all, Forall_forall. intros c Hc.
    rewrite elem_of_app, list_elem_of_filter.
    destruct (decide (c ∈ columns df)); [by left|by right].
  - rewrite filter_app.
    rewrite (filter_none (λ c, c ∉ EXPECTED) (filter _ EXPECTED)).
    + by rewrite app_nil_r.
    + apply Forall_forall. intros c [_ Hc]%list_elem_of_filter Hn. done.
Qed.

Lemma filter_filter_same {A} (P : A → Prop) `{∀ x, Decision (P x)} (l : list A) :
  filter P (filter P l) = filter P l.
Proof. apply filter_all, Forall_forall. by intros x [? _]%list_elem_of_filter. Qed.

Lemma fix_schema_frame_check w r df :
  heap w !! r = Some (fix_schema_frame df) →
  check_schema r None w
  = (Ok (Schema.mk [] (filter (λ c, c ∉ expected_schema_v1) (columns df)) true), w).
Proof.
  intros Hr. unfold check_schema. run_with Hr. cbn [default from_option id].
  rewrite fix_schema_frame_columns. change expected_schema_v1 with EXPECTED.
  rewrite (filter_none (λ c, c ∉ EXPECTED ++ _) EXPECTED).
  2:{ apply Forall_forall. intros c Hc Hn. apply Hn, elem_of_app. by left. }
  rewrite filter_app, (filter_none (λ c, c ∉ EXPECTED) EXPECTED).
  2:{ apply Forall_forall. by intros c Hc Hn. }
  by rewrite filter_filter_same.
Qed.

Lemma add_missing_keeps_null l :
  ∀ d, "units" ∉ l → Forall (λ x, units x = None) (rows d) →
       Forall (λ x, units x = None) (rows (foldl add_missing_column d l)).
Proof.
  induction l as [|c l IH]; intros d Hl Hd; cbn [foldl]; [done|].
  apply not_elem_of_cons in Hl as [Hc Hl]. apply IH; [done|].
  unfold add_missing_column. case_bool_decide; [done|]. cbn [rows].
  apply Forall_fmap. eapply Forall_impl; [exact Hd|]. intros x Hx. cbn.
  by rewrite default_cell_units.
Qed.

Lemma add_missing_units_null l df :
  "units" ∈ l → "units" ∉ columns df →
  Forall (λ x, units x = None) (rows (foldl add_missing_column df l)).
Proof.
  revert df. induction l as [|c l IH]; intros df Hl Hu; [by apply elem_of_nil in Hl|].
  cbn [foldl]. destruct (decide (c = "units")) as [->|Hc].
  - clear IH Hl.
    assert (Forall (λ x, units x = None) (rows (add_missing_column df "units")))
      as Hnone.
    { unfold add_missing_column. rewrite bool_decide_false by done. cbn [rows].
      apply Forall_fmap, Forall_forall. by intros x _. }
    revert Hnone. generalize (add_missing_column df "units"). clear.
    induction l as [|c l IH]; intros d Hd; cbn [foldl]; [done|].
    apply IH. unfold add_missing_column. case_bool_decide; [done|]. cbn [rows].
    apply Forall_fmap. eapply Forall_impl; [exact Hd|]. intros x Hx. cbn.
    unfold default_cell.
    destruct (bool_decide (c = "currency")); [done|].
    destruct (bool_decide (c ∈ _)).
    + by repeat (destruct (bool_decide _); [done|]).
    + by repeat (destruct (bool_decide _); [done|]).
  - apply elem_of_cons in Hl as [?|Hl]; [done|].
    apply IH; [done|]. by apply add_missing_column_other.
Qed.

Lemma fix_schema_frame_idempotent df :
  fix_schema_frame (fix_schema_frame df) = fix_schema_frame df.
Proof.
  pose proof (fix_schema_frame_columns df) as Hcols.
  unfold fix_schema_frame at 1.
  assert (Forall (λ c, c ∈ columns (fix_schema_frame df)) EXPECTED) as Hall.
  { rewrite Hcols. apply Forall_forall. intros c Hc. apply elem_of_app. by left. }
  rewrite (add_missing_present _ _ Hall).
  rewrite (filter_all (λ c, c ∈ columns (fix_schema_frame df)) EXPECTED) by done.
  rewrite Hcols at 1. rewrite filter_app.
  rewrite (filter_none (λ c, c ∉ EXPECTED) EXPECTED).
  2:{ apply Forall_forall. by intros c Hc Hn. }
  rewrite app_nil_l, filter_filter_same, <- Hcols.
  by destruct (fix_schema_frame df).
Qed.

Lemma rows_mkDF cols rs t : rows (mkDF cols rs t) = rs.
Proof. reflexivity. Qed.

Lemma fix_schema_frame_unfold df :
  fix_schema_frame df
  = mkDF (filter (λ c, c ∈ columns (foldl add_missing_column df EXPECTED)) EXPECTED
          ++ filter (λ c, c ∉ EXPECTED)
               (columns (foldl add_missing_column df EXPECTED)))
         (rows (foldl add_missing_column df EXPECTED))
         (tz (foldl add_missing_column df EXPECTED)).
Proof. reflexivity. Qed.

Lemma fix_schema_frame_rows df :
  rows (fix_schema_frame df) = rows (foldl add_missing_column df EXPECTED).
Proof. rewrite fix_schema_frame_unfold. apply rows_mkDF. Qed.

(** X20. The table the schema repair writes has the expected columns
    first, in the order of the schema, then the other columns of the
    input in their order: the schema check finds no missing column in it
    and the same extra columns as in the input.  The rows keep their
    number; a table that already has every expected column keeps its
    rows; a table without [units] gets nulls there; and repairing a
    repaired table changes nothing. *)
Theorem fix_schema_frame_repairs w r df :
  heap w !! r = Some (fix_schema_frame df) →
  columns (fix_schema_frame df)
  = EXPECTED ++ filter (λ c, c ∉ EXPECTED) (columns df)
  ∧ check_schema r None w
    = (Ok (Schema.mk [] (filter (λ c, c ∉ expected_schema_v1) (columns df)) true), w)
  ∧ length (rows (fix_schema_frame df)) = length (rows df)
  ∧ (Forall (λ c, c ∈ columns df) EXPECTED → rows (fix_schema_frame df) = rows df)
  ∧ ("units" ∉ columns df →
     Forall (λ x, units x = None) (rows (fix_schema_frame df)))
  ∧ fix_schema_frame (fix_schema_frame df) = fix_schema_frame df.
Proof.
  intros Hr.
  split; [apply fix_schema_frame_columns|].
  split; [by apply fix_schema_frame_check|].
  rewrite fix_schema_frame_rows.
  split; [apply add_missing_rows_length|].
  split; [intros Hall; by rewrite add_missing_present|].
  split; [|apply fix_schema_frame_idempotent].
  intros Hu. apply add_missing_units_null; [|done].
  do 3 right. left.
Qed.

(** * The further properties at concrete tables *)

Lemma check_schema_presence_witness :
  ∃ d, check_schema 0%nat (Some expected_schema_v1) (world_of (table_priced 5))
       = (Ok d, world_of (table_priced 5))
    ∧ (Schema.schema_ok d = true
       ↔ ∀ c, c ∈ expected_schema_v1 → c ∈ columns (table_priced 5))
    ∧ (∀ c, c ∈ Schema.missing_columns d
            ↔ c ∈ expected_schema_v1 ∧ c ∉ columns (table_priced 5))
    ∧ (∀ c, c ∈ Schema.extra_columns d
            ↔ c ∈ columns (table_priced 5) ∧ c ∉ expected_schema_v1)
    ∧ Schema.missing_columns d `sublist_of` expected_schema_v1
    ∧ Schema.extra_columns d `sublist_of` columns (table_priced 5).
Proof.
  apply (check_schema_presence (world_of (table_priced 5)) 0%nat (table_priced 5)).
  reflexivity.
Defined.

Lemma check_schema_column_order_witness :
  ∃ d1 d2,
    check_schema 0%nat (Some ["sku_id"; "week_start"])
      (world_of (mkDF ["week_start"; "sku_id"] [] naive))
    = (Ok d1, world_of (mkDF ["week_start"; "sku_id"] [] naive))
    ∧ check_schema 0%nat (Some ["sku_id"; "week_start"])
        (world_of (mkDF ["sku_id"; "week_start"] [] naive))
      = (Ok d2, world_of (mkDF ["sku_id"; "week_start"] [] naive))
    ∧ Schema.missing_columns d1 = Schema.missing_columns d2
    ∧ Schema.schema_ok d1 = Schema.schema_ok d2
    ∧ Schema.extra_columns d1 ≡ₚ Schema.extra_columns d2
    ∧ (["week_start"; "sku_id"] ≡ₚ ["sku_id"; "week_start"] →
       Schema.missing_columns d2 = [] ∧ Schema.extra_columns d2 = []
       ∧ Schema.schema_ok d2 = true).
Proof.
  apply (check_schema_column_order
           (world_of (mkDF ["week_start"; "sku_id"] [] naive))
           (world_of (mkDF ["sku_id"; "week_start"] [] naive)) 0%nat 0%nat
           (mkDF ["week_start"; "sku_id"] [] naive) (mkDF ["sku_id"; "week_start"] [] naive)).
  - reflexivity.
  - reflexivity.
  - apply perm_swap.
Defined.

Lemma detect_schema_versioning_agrees_witness :
  ∃ d v, check_schema 0%nat None (world_of (table_priced 5))
         = (Ok d, world_of (table_priced 5))
    ∧ detect_schema_versioning 0%nat None (world_of (table_priced 5))
      = (Ok v, world_of (table_priced 5))
    ∧ SchemaVersioning.status v = "ok"
    ∧ SchemaVersioning.missing v = Schema.missing_columns d
    ∧ SchemaVersioning.extra v = Schema.extra_columns d
    ∧ (SchemaVersioning.schema_changed v = false
       ↔ Schema.missing_columns d = [] ∧ Schema.extra_columns d = [])
    ∧ (SchemaVersioning.schema_changed v = false → Schema.schema_ok d = true)
    ∧ (SchemaVersioning.schema_changed v = false
       ↔ SchemaVersioning.hint v = NoHint).
Proof.
  apply (detect_schema_versioning_agrees (world_of (table_priced 5)) 0%nat
           (table_priced 5)).
  reflexivity.
Defined.

Lemma analyze_file_schema_changed_witness :
  ∃ rep w' s v,
    analyze_file sqrt_down (env_of [(file_a, table_priced 6)]) file_a "reports"
      None None empty_world = (Ok rep, w')
    ∧ Report.schema rep = Some s
    ∧ Report.schema_versioning rep = Some v
    ∧ "load_ts_parsed" ∈ Schema.extra_columns s
    ∧ "load_ts_parsed" ∈ SchemaVersioning.extra v
    ∧ SchemaVersioning.schema_changed v = true.
Proof.
  apply (analyze_file_schema_changed sqrt_down (env_of [(file_a, table_priced 6)])
           file_a "reports" None None empty_world (table_priced 6)).
  - reflexivity.
  - by_computation.
  - intros s Hs. discriminate Hs.
  - intros s Hs. discriminate Hs.
  - intros s df Hs. discriminate Hs.
  - intros s df Hs. discriminate Hs.
  - by_computation.
Defined.

Lemma normalize_df_copies_witness :
  (∃ r1 w1 r2 w2,
     normalize_df 0%nat (world_of (table_priced 5)) = (Ok r1, w1)
     ∧ r1 ≠ 0%nat
     ∧ heap w1 !! r1 = Some (normalized (table_priced 5))
     ∧ length (rows (normalized (table_priced 5))) = length (rows (table_priced 5))
     ∧ (∀ c, c ∈ columns (table_priced 5) →
          strip c ∈ columns (normalized (table_priced 5)))
     ∧ normalize_df r1 w1 = (Ok r2, w2)
     ∧ heap w2 !! r2 = Some (normalized (table_priced 5)))
  ∧ (normalize_df 0%nat (world_of table_two_units)).1 = Raise TypeError
  ∧ heap (normalize_df 0%nat (world_of table_two_units)).2 !! 0%nat
    = Some table_two_units.
Proof.
  destruct (normalize_df_copies (world_of (table_priced 5)) 0%nat (table_priced 5)
              eq_refl) as (_ & _ & _ & _ & Hnone & Hret).
  destruct (normalize_df_copies (world_of table_two_units) 0%nat table_two_units
              eq_refl) as (Hkeep & _ & _ & Hraise & _).
  split; [|split].
  - apply Hret, Hnone; [by_computation|reflexivity|reflexivity].
  - apply Hraise. left. reflexivity.
  - by apply Hkeep.
Defined.

Lemma check_date_continuity_counts_witness :
  ∃ gaps examples,
    check_date_continuity 0%nat 7 1 (world_of (table_priced 5))
    = (Ok (Continuity.mk "ok"
             (Some (length (unique (omap group_key (rows (table_priced 5))))))
             (Some gaps) (Some examples)), world_of (table_priced 5))
    ∧ (gaps ≤ length (unique (omap group_key (rows (table_priced 5)))))%nat
    ∧ length examples = (gaps `min` 10)%nat
    ∧ (rows (table_priced 5) = [] → gaps = 0%nat).
Proof.
  apply (check_date_continuity_counts (world_of (table_priced 5)) 0%nat
           (table_priced 5) 7 1).
  - reflexivity.
  - by_computation.
  - by_computation.
  - by_computation.
Defined.

Lemma check_date_continuity_permutation_witness :
  (check_date_continuity 0%nat 7 1 (world_of table_two_weeks)).1
  = (check_date_continuity 0%nat 7 1 (world_of table_two_weeks_reversed)).1.
Proof.
  apply (check_date_continuity_permutation (world_of table_two_weeks)
           (world_of table_two_weeks_reversed) 0%nat 0%nat
           table_two_weeks table_two_weeks_reversed).
  - reflexivity.
  - reflexivity.
  - reflexivity.
  - apply perm_swap.
Defined.

Lemma detect_level_shift_counts_witness :
  ∃ tested shifts examples,
    (detect_level_shift sqrt_down 0%nat 8 3 (world_of (table_priced 5))).1
    = Ok (LevelShift.mk "ok" (Some tested) (Some shifts) (Some examples))
    ∧ (shifts ≤ tested)%nat
    ∧ (tested ≤ length (unique (omap group_key (rows (table_priced 5)))))%nat
    ∧ length examples = (shifts `min` 10)%nat
    ∧ ((length (rows (table_priced 5)) < 8 * 2)%nat → tested = 0%nat).
Proof.
  apply (detect_level_shift_counts sqrt_down (world_of (table_priced 5)) 0%nat
           (table_priced 5) 8 3).
  - reflexivity.
  - by_computation.
  - by_computation.
  - by_computation.
  - by_computation.
Defined.

Lemma detect_level_shift_flat_witness :
  ∃ tested,
    (detect_level_shift sqrt_down 0%nat 1 3 (world_of (table_priced 5))).1
    = Ok (LevelShift.mk "ok" (Some tested) (Some 0%nat) (Some [])).
Proof.
  apply (detect_level_shift_flat sqrt_down (world_of (table_priced 5)) 0%nat
           (table_priced 5) 1 3 1).
  - reflexivity.
  - by_computation.
  - by_computation.
  - by_computation.
  - by_computation.
  - reflexivity.
  - repeat constructor; intros u [= <-]; reflexivity.
Defined.

Lemma detect_partial_backfill_counts_witness :
  (let df := normalized (table_priced 5) in
   let checked := length (filter (λ x, is_Some (load_lag x)) (rows df)) in
   let late := length (filter (loaded_after (30 + 1)) (rows df)) in
   ∃ pct h,
     (detect_partial_backfill 0%nat 30 (world_of df)).1
     = Ok (Backfill.mk "ok" (Some checked) (Some late) (Some pct) (Some h))
     ∧ (pct == inject_Z (Z.of_nat late) / inject_Z (Z.of_nat checked))%Q
     ∧ (0 <= pct)%Q ∧ (pct <= 1)%Q
     ∧ (h = NoHint ↔ (20 * late ≤ checked)%nat))
  ∧ (detect_partial_backfill 0%nat 30 (world_of (normalized (table_utc 5)))).1
    = Raise TypeError.
Proof.
  split.
  - intros df.
    destruct (detect_partial_backfill_counts (world_of df) 0%nat df 30)
      as (_ & _ & _ & Hok); [reflexivity|by_computation|by_computation|].
    apply Hok; [reflexivity|]. vm_compute. lia.
  - destruct (detect_partial_backfill_counts
                (world_of (normalized (table_utc 5))) 0%nat
                (normalized (table_utc 5)) 30)
      as (_ & Hraise & _); [reflexivity|by_computation|by_computation|].
    by apply Hraise.
Defined.

Lemma detect_timezone_shift_consistent_witness :
  ∃ variants dup suspicious h,
    detect_timezone_shift 0%nat (world_of (table_priced 5))
    = (Ok (TzShift.mk "ok" (Some variants) (Some dup) (Some suspicious) (Some h)),
       world_of (table_priced 5))
    ∧ NoDup variants
    ∧ (∀ v, v ∈ variants
            ↔ ∃ x, x ∈ rows (table_priced 5)
                   ∧ tz_search (load_ts_str (load_ts x)) = Some v)
    ∧ (suspicious = true ↔ (2 ≤ length variants)%nat ∨ (0 < dup)%nat)
    ∧ (h = NoHint ↔ suspicious = false)
    ∧ (Forall (λ c, c ∈ columns (table_priced 5)) ["week_start"; "sku_id"; "store_id"] →
       ∃ d, check_duplicates 0%nat (world_of (table_priced 5))
            = (Ok d, world_of (table_priced 5))
            ∧ Duplicates.duplicate_count d = Some dup)
    ∧ (¬ Forall (λ c, c ∈ columns (table_priced 5)) ["week_start"; "sku_id"; "store_id"] →
       dup = 0%nat).
Proof.
  apply (detect_timezone_shift_consistent (world_of (table_priced 5)) 0%nat
           (table_priced 5)).
  - reflexivity.
  - by_computation.
Defined.

Lemma analyze_file_duplicates_with_timezone_witness :
  ∃ rep w',
    analyze_file sqrt_down (env_of [(file_a, table_repeated)]) file_a "reports"
      None None empty_world = (Ok rep, w')
    ∧ DuplicatesReason 2 ∈ Report.blocking_reasons rep
    ∧ TimezoneAnomalyOrDupPk ∈ Report.blocking_reasons rep
    ∧ ∃ tz, Report.tz_shift rep = Some tz
            ∧ TzShift.duplicate_pk_count tz = Some 2%nat.
Proof.
  destruct (analyze_file_duplicates_with_timezone sqrt_down
              (env_of [(file_a, table_repeated)]) file_a "reports" None None
              empty_world table_repeated 2)
    as (rep & w' & Hrun & Himp).
  - reflexivity.
  - by_computation.
  - intros s Hs. discriminate Hs.
  - intros s Hs. discriminate Hs.
  - intros s df Hs. discriminate Hs.
  - intros s df Hs. discriminate Hs.
  - by_computation.
  - assert (DuplicatesReason 2 ∈ Report.blocking_reasons rep) as Hin.
    { assert ((analyze_file sqrt_down (env_of [(file_a, table_repeated)]) file_a
                 "reports" None None empty_world).1 = Ok rep) as E
        by (by rewrite Hrun).
      vm_compute in E. injection E as <-. cbn. left. }
    exists rep, w'. split; [exact Hrun|]. split; [exact Hin|].
    destruct (Himp Hin) as (Htz & _ & Hcount). by split.
Defined.

Lemma analyze_file_writes_report_witness :
  (∃ rep w',
     analyze_file sqrt_down (env_of [(file_a, table_priced 6)])
       ("data" +:+ "/" +:+ "sales_weekly_a" +:+ "." +:+ "csv") "reports"
       None None empty_world = (Ok rep, w')
     ∧ Report.file rep = ("sales_weekly_a" +:+ "." +:+ "csv")
     ∧ Report.error rep = None
     ∧ (ReadError ∉ Report.blocking_reasons rep)
     ∧ (Report.blocking rep = "FAIL" ↔ Report.blocking_reasons rep ≠ [])
     ∧ written w'
       = written empty_world
         ++ [JsonReport ("reports" +:+ "/" +:+ "sales_weekly_a" +:+ "_dq_report.json")
               rep]
     ∧ heap empty_world `prefix_of` heap w')
  ∧ (analyze_file sqrt_down (env_of [(file_a, table_two_units)])
       ("data" +:+ "/" +:+ "sales_weekly_a" +:+ "." +:+ "csv") "reports"
       None None empty_world).1 = Raise TypeError
  ∧ written (analyze_file sqrt_down (env_of [(file_a, table_two_units)])
               ("data" +:+ "/" +:+ "sales_weekly_a" +:+ "." +:+ "csv") "reports"
               None None empty_world).2 = written empty_world.
Proof.
  split.
  - destruct (analyze_file_writes_report sqrt_down
                (env_of [(file_a, table_priced 6)])
                "data" "sales_weekly_a" "csv" "reports" None None empty_world
                (table_priced 6)) as [_ Hret].
    + unfold lacks. by_computation.
    + unfold lacks. by_computation.
    + unfold lacks. by_computation.
    + discriminate.
    + discriminate.
    + reflexivity.
    + apply Hret.
      * by_computation.
      * intros s Hs. discriminate Hs.
      * intros s Hs. discriminate Hs.
      * intros s df Hs. discriminate Hs.
      * intros s df Hs. discriminate Hs.
  - destruct (analyze_file_writes_report sqrt_down
                (env_of [(file_a, table_two_units)])
                "data" "sales_weekly_a" "csv" "reports" None None empty_world
                table_two_units) as [Hraise _].
    + unfold lacks. by_computation.
    + unfold lacks. by_computation.
    + unfold lacks. by_computation.
    + discriminate.
    + discriminate.
    + reflexivity.
    + by apply Hraise.
Defined.

Lemma main_summary_witness :
  let e := env_of [(file_in_a_b, table_priced 5); (file_in_a, table_priced 6)] in
  ∃ reps l w',
    main sqrt_down e args_of_subdirs empty_world
    = (Raise (SystemExit
                (if existsb (λ rep, bool_decide (Report.blocking rep = "FAIL")) reps
                 then 1 else 0)), w')
    ∧ StronglySorted (λ f g, path_leb f g = true) [file_in_a; file_in_a_b]
    ∧ [file_in_a; file_in_a_b] ≡ₚ [file_in_a_b; file_in_a]
    ∧ Report.file <$> reps = path_name <$> [file_in_a; file_in_a_b]
    ∧ written w'
      = written empty_world ++ l
        ++ [SummaryCsv ("reports" +:+ "/summary_report.csv") (summary_row <$> reps)]
    ∧ artifact_path <$> l
      = report_path "reports"
          <$> filter (λ f, readable e f = true) [file_in_a; file_in_a_b]
    ∧ Forall is_json_report l.
Proof.
  intros e.
  apply (main_summary sqrt_down e args_of_subdirs empty_world).
  - reflexivity.
  - done.
  - reflexivity.
  - by vm_compute.
  - intros p table E. discriminate E.
  - intros p table E. discriminate E.
  - intros f Hf. apply list_elem_of_In in Hf. vm_compute in Hf.
    destruct Hf as [<-|[<-|[]]]; by_computation.
Defined.

Lemma main_listing_order_witness :
  main sqrt_down
    (mkEnv "2023-01-10T00:00:00" (λ p, bool_decide (p = "data"))
       (λ _ _, [file_a; file_b]) (λ _, inr (table_priced 5)))
    args_of_run empty_world
  = main sqrt_down
      (mkEnv "2023-01-10T00:00:00" (λ p, bool_decide (p = "data"))
         (λ _ _, [file_b; file_a]) (λ _, inr (table_priced 5)))
      args_of_run empty_world.
Proof.
  apply main_listing_order.
  - reflexivity.
  - intros p. reflexivity.
  - intros p. reflexivity.
  - apply perm_swap.
Defined.

Lemma detect_seasonality_break_weeks_witness :
  let n := length (unique (omap week_start (rows (table_priced 5)))) in
  ∃ a1 a52,
    detect_seasonality_break sqrt_down 0%nat (world_of (table_priced 5))
    = (Ok (Seasonality.mk (if (n <? 24)%nat then "not_enough_history" else "ok")
             (Some n) a1 a52), world_of (table_priced 5))
    ∧ (a1 = None ↔ (n < 24)%nat)
    ∧ (a52 = None ↔ (n ≤ 52)%nat)
    ∧ (∀ v, a1 = Some (Some v) ∨ a52 = Some (Some v) → (-1 <= v)%Q ∧ (v <= 1)%Q).
Proof.
  apply (detect_seasonality_break_weeks sqrt_down (world_of (table_priced 5)) 0%nat
           (table_priced 5)).
  - reflexivity.
  - by_computation.
  - by_computation.
Defined.

Lemma promo_calendar_diagnostics_hints_witness :
  let w := mkWorld [table_spike; table_promo; table_promo_mixed] [] in
  (∃ d, (promo_calendar_diagnostics 0%nat (Some 1%nat) None w).1 = Ok d
     ∧ PromoCalendar.status d = "ok"
     ∧ PromoCalendar.hints d = [HintPromoOverlap [21%Z]]
     ∧ (∃ weeks, weeks ≠ []
          ∧ PromoCalendar.big_change_weeks d = Some weeks
          ∧ PromoCalendar.n_big_changes d = Some (length weeks))
     ∧ (HintNoMatch ∈ PromoCalendar.hints d → PromoCalendar.hints d = [HintNoMatch]))
  ∧ (promo_calendar_diagnostics 0%nat (Some 2%nat) None w).1 = Raise ValueError.
Proof.
  intros w.
  destruct (promo_calendar_diagnostics_hints w 0%nat table_spike (Some 1%nat) None)
    as (Hret & _ & Hprops).
  - reflexivity.
  - intros s [= <-]. by eexists.
  - intros s Hs. discriminate Hs.
  - destruct Hret as [d Hd].
    + intros s df [= <-] [= <-] _. reflexivity.
    + intros s df Hs. discriminate Hs.
    + destruct (Hprops d Hd) as (_ & Hok & Hweeks & _ & Hno).
      assert (PromoCalendar.hints d = [HintPromoOverlap [21%Z]]) as Hh.
      { vm_compute in Hd. by injection Hd as <-. }
      assert (PromoCalendar.status d = "ok") as Hs.
      { apply Hok. by rewrite Hh. }
      split; [|reflexivity].
      exists d. split; [exact Hd|]. split; [exact Hs|]. split; [exact Hh|].
      split; [by apply Hweeks|exact Hno].
Defined.

Lemma main_summary_policy_witness :
  let e := env_of [(file_a, table_priced 5); (file_b, table_priced 6)] in
  ∃ rows earlier,
    written (main sqrt_down e args_of_run empty_world).2
    = earlier ++ [SummaryCsv ("reports" +:+ "/summary_report.csv") rows]
    ∧ length rows = length [file_a; file_b]
    ∧ Forall row_policy rows
    ∧ exit_status (main sqrt_down e args_of_run empty_world).1
      = (if existsb row_fails rows then 1 else 0)%Z.
Proof.
  intros e.
  apply (main_summary_policy sqrt_down e args_of_run empty_world).
  - reflexivity.
  - done.
  - reflexivity.
  - by vm_compute.
  - intros p table E. discriminate E.
  - intros p table E. discriminate E.
  - intros f Hf. apply list_elem_of_In in Hf. vm_compute in Hf.
    destruct Hf as [<-|[<-|[]]]; by_computation.
Defined.

Lemma write_summary_json_status_witness :
  let rows :=
    [SummaryRow.mk "sales_weekly_a.csv" "PASS" [] (Some 0%nat) (Some (1 # 10))
       (Some false) (Some 0%nat)] in
  let s := write_summary_json (mkSummary runner_columns rows) in
  files_checked s = length rows
  ∧ (count_red s ≤ files_checked s)%nat
  ∧ (dq_status s = "red" ↔ existsb row_fails rows = true)
  ∧ (dq_status s = "red" ↔ (0 < count_red s)%nat)
  ∧ (dq_status s = "amber"
     ↔ existsb row_fails rows = false
       ∧ ∃ row q, row ∈ rows ∧ SummaryRow.pct_backfilled row = Some q
                  ∧ (0 < q)%Q ∧ (q <= 20 # 100)%Q)
  ∧ (dq_status s = "green"
     ↔ existsb row_fails rows = false
       ∧ Forall (λ row, (default 0%Q (SummaryRow.pct_backfilled row) <= 0)%Q) rows).
Proof.
  intros rows.
  apply (write_summary_json_status rows).
  repeat constructor; cbn; done.
Defined.

Lemma fix_schema_frame_repairs_witness :
  let df := table_no_group_columns in
  let w := world_of (fix_schema_frame df) in
  columns (fix_schema_frame df)
  = EXPECTED ++ filter (λ c, c ∉ EXPECTED) (columns df)
  ∧ check_schema 0%nat None w
    = (Ok (Schema.mk [] (filter (λ c, c ∉ expected_schema_v1) (columns df)) true), w)
  ∧ length (rows (fix_schema_frame df)) = length (rows df)
  ∧ (Forall (λ c, c ∈ columns df) EXPECTED → rows (fix_schema_frame df) = rows df)
  ∧ ("units" ∉ columns df →
     Forall (λ x, units x = None) (rows (fix_schema_frame df)))
  ∧ fix_schema_frame (fix_schema_frame df) = fix_schema_frame df.
Proof.
  intros df w.
  apply (fix_schema_frame_repairs w 0%nat df).
  reflexivity.
Defined.
